(** * Genrepo: configuration validation, model resolution and the
      write planner / executor

    A shallow embedding of [genrepo/constants.py], [genrepo/config.py] and
    [genrepo/generator.py].

    Conventions of the embedding:
    - Python [str] is [string], for ASCII text: the case, letter and blank
      tests of module [Str] are those of Python on the characters below 128,
      and the statements that depend on them ask for [Str.is_ascii].
    - A raised exception is the [Raise] constructor of [outcome]; the
      exception class is kept, and its message where the program writes it.
      What Pydantic reports is kept by kind, not by its text.
    - The file system is a tree without symbolic links: a finite map from
      path text to files and a set of directories. A path names one place
      when it is absolute and has no [..] component ([Path.canonical]).
    - A [Path] is its text in pathlib's normal form (module [Path]).
    - Jinja2, the Python import machinery and the working directory are
      parameters of the generator (record [world]); Pydantic's own type
      checks are written out where the program relies on them. *)

From Stdlib Require Import Ascii String NArith.
From stdpp Require Import gmap strings list sorting.

#[local] Set Warnings "-clear-no-such-hyp".

Local Open Scope string_scope.
Local Open Scope list_scope.

(** ** Exceptions and results *)

(** One line of a Pydantic [ValidationError]: the kind of the failure and
    what it is about. The first line of the report is kept. *)
Inductive pydantic_error :=
  | literal_error (field input : string)   (* not one of the Literal values *)
  | value_error (msg : string)             (* ValueError of a field validator *)
  | missing (field : string)               (* required field absent *)
  | list_type (field : string).            (* not a list *)

#[global] Instance pydantic_error_eq_dec : EqDecision pydantic_error.
Proof. solve_decision. Defined.

Inductive error :=
  | ValueError (msg : string)
  | ValidationError (e : pydantic_error)
  (* the ValueError of [load_config] whose message is
     ERR_INVALID_CONFIGURATION filled with Pydantic's text for [e] *)
  | InvalidConfiguration (e : pydantic_error)
  | FileNotFoundError (msg : string)
  | FileExistsError (path : string)
  | NotADirectoryError (path : string)
  | IsADirectoryError (path : string)
  | IndexError
  | TemplateError (msg : string).          (* an exception of Jinja2 *)

Inductive outcome (A : Type) :=
  | Ok (a : A)
  | Raise (e : error).
Arguments Ok {A} a.
Arguments Raise {A} e.

#[global] Instance outcome_ret : MRet outcome := @Ok.
#[global] Instance outcome_bind : MBind outcome := λ A B k r,
  match r with
  | Ok a => k a
  | Raise e => Raise e
  end.

(** ** Text helpers (Python [str] methods used by the program) *)

Module Str.

Definition is_upper (c : ascii) : bool :=
  let n := N_of_ascii c in ((65 <=? n) && (n <=? 90))%N.

Definition is_lower (c : ascii) : bool :=
  let n := N_of_ascii c in ((97 <=? n) && (n <=? 122))%N.

(** [ch.isalpha()] *)
Definition is_alpha (c : ascii) : bool := is_upper c || is_lower c.

(** [ch.lower()] and [ch.upper()] *)
Definition lower_char (c : ascii) : ascii :=
  if is_upper c then ascii_of_N (N_of_ascii c + 32) else c.

Definition upper_char (c : ascii) : ascii :=
  if is_lower c then ascii_of_N (N_of_ascii c - 32) else c.

Fixpoint lower (s : string) : string :=
  match s with
  | EmptyString => EmptyString
  | String c s' => String (lower_char c) (lower s')
  end.

(** [s.capitalize()]: first character upper-cased, the rest lower-cased. *)
Definition capitalize (s : string) : string :=
  match s with
  | EmptyString => EmptyString
  | String c s' => String (upper_char c) (lower s')
  end.

(** [c in s] for a one-character needle. *)
Fixpoint has_char (c : ascii) (s : string) : bool :=
  match s with
  | EmptyString => false
  | String d s' => if Ascii.eqb c d then true else has_char c s'
  end.

(** [s.split(c, 1)]: [None] when [c] does not occur (Python returns the
    one-element list [[s]]), else the text before and after the first
    occurrence. *)
Fixpoint split_once (c : ascii) (s : string) : option (string * string) :=
  match s with
  | EmptyString => None
  | String d s' =>
      if Ascii.eqb c d then Some (EmptyString, s')
      else match split_once c s' with
           | Some (a, b) => Some (String d a, b)
           | None => None
           end
  end.

(** [s.split(c)]: all the pieces, empty ones included. *)
Fixpoint split_all (c : ascii) (s : string) : list string :=
  match s with
  | EmptyString => [EmptyString]
  | String d s' =>
      if Ascii.eqb c d then EmptyString :: split_all c s'
      else match split_all c s' with
           | p :: ps => String d p :: ps
           | [] => [String d EmptyString]
           end
  end.

(** [s.replace(a, b)] for one-character [a] and [b]. *)
Fixpoint replace_char (a b : ascii) (s : string) : string :=
  match s with
  | EmptyString => EmptyString
  | String d s' =>
      String (if Ascii.eqb a d then b else d) (replace_char a b s')
  end.

(** [s.startswith(p)] *)
Definition startswith (p s : string) : bool := String.prefix p s.

(** [s.endswith(p)] *)
Definition endswith (p s : string) : bool :=
  let n := String.length s in
  let k := String.length p in
  if (k <=? n)%nat then String.eqb (String.substring (n - k) k s) p
  else false.

(** [ch.isspace()]: tab to carriage return, the four separators 28 to 31,
    and the space. *)
Definition is_space (c : ascii) : bool :=
  let n := N_of_ascii c in
  ((n =? 32) || ((9 <=? n) && (n <=? 13)) || ((28 <=? n) && (n <=? 31)))%N.

Fixpoint lstrip (s : string) : string :=
  match s with
  | String c s' => if is_space c then lstrip s' else s
  | EmptyString => EmptyString
  end.

(** Drops the trailing white space: a character stays when it is not a
    space or something after it stays. *)
Fixpoint rstrip (s : string) : string :=
  match s with
  | EmptyString => EmptyString
  | String c s' =>
      match rstrip s' with
      | EmptyString => if is_space c then EmptyString
                       else String c EmptyString
      | r => String c r
      end
  end.

(** [s.strip()] *)
Definition strip (s : string) : string := rstrip (lstrip s).

Definition concat_all (l : list string) : string :=
  foldr String.append EmptyString l.


(** [s.rfind(c)] *)
Fixpoint rfind (c : ascii) (s : string) : option nat :=
  match s with
  | EmptyString => None
  | String d s' =>
      match rfind c s' with
      | Some i => Some (S i)
      | None => if Ascii.eqb c d then Some 0 else None
      end
  end.

(** [Path(name).stem]: the name without its last suffix; a leading or a
    trailing dot does not start a suffix. *)
Definition stem (name : string) : string :=
  match rfind "." name with
  | Some i =>
      if ((0 <? i) && (i <? String.length name - 1))%nat
      then String.substring 0 i name
      else name
  | None => name
  end.

(** The rest of [s] after the prefix [p], when [s] starts with [p]. *)
Fixpoint strip_prefix (p s : string) : option string :=
  match p, s with
  | EmptyString, _ => Some s
  | String c p', String d s' =>
      if Ascii.eqb c d then strip_prefix p' s' else None
  | String _ _, EmptyString => None
  end.

Fixpoint last_char (s : string) : option ascii :=
  match s with
  | EmptyString => None
  | String c EmptyString => Some c
  | String _ s' => last_char s'
  end.

(** The text is ASCII: every character is below 128. *)
Fixpoint is_ascii (s : string) : bool :=
  match s with
  | EmptyString => true
  | String c s' => (N_of_ascii c <? 128)%N && is_ascii s'
  end.

Definition CR : ascii := ascii_of_nat 13.
Definition LF : ascii := ascii_of_nat 10.

(** What reading in text mode makes of the stored text: a carriage return,
    alone or followed by a line feed, is read as one line feed. *)
Fixpoint universal_newlines (s : string) : string :=
  match s with
  | EmptyString => EmptyString
  | String c s' =>
      if Ascii.eqb c CR then
        match s' with
        | String d s'' =>
            if Ascii.eqb d LF then String LF (universal_newlines s'')
            else String LF (universal_newlines s')
        | EmptyString => String LF EmptyString
        end
      else String c (universal_newlines s')
  end.

End Str.

(** ** constants.py *)

Definition CRUD_METHODS : list string :=
  ["get"; "get_or_raise"; "list"; "find_one"; "create"; "update"; "delete";
   "delete_by_id"; "exists"; "count"].

Definition METHOD_PRESETS : list string := ["all"; "none"].

Definition ORM_SQLMODEL : string := "sqlmodel".
Definition ORM_SQLALCHEMY : string := "sqlalchemy".

Definition TPL_BASE_SQLMODEL_SYNC : string := "base_repository_sqlmodel_sync.j2".
Definition TPL_BASE_SQLMODEL_ASYNC : string := "base_repository_sqlmodel_async.j2".
Definition TPL_BASE_SQLALCHEMY_SYNC : string := "base_repository_sqlalchemy_sync.j2".
Definition TPL_BASE_SQLALCHEMY_ASYNC : string := "base_repository_sqlalchemy_async.j2".
Definition TPL_STANDALONE_SQLMODEL : string := "repository_sqlmodel.j2".
Definition TPL_STANDALONE_SQLALCHEMY : string := "repository_sqlalchemy.j2".
Definition TPL_USER_STUB : string := "model_repository_user_stub.j2".
Definition TPL_BASE_STUB : string := "repository_base_stub.j2".
Definition TPL_STANDALONE_STUB : string := "repository_standalone_stub.j2".

Definition ERR_MODEL_NAME : string := "model name must start with a letter".
Definition ERR_IMPORT_PATH_CLASS : string :=
  "import_path must include both module and class".
Definition ERR_INVALID_METHOD (method : string) : string :=
  "invalid method: " +:+ method.
Definition ERR_DUPLICATE_MODELS : string :=
  "duplicate model names in configuration".
Definition ERR_CONFIG_NOT_FOUND (path : string) : string :=
  "config not found: " +:+ path.
Definition ERR_MODELS_MISSING : string :=
  "invalid configuration: missing 'models'. Use 'models: all' for discovery or provide an explicit list under 'models:'.".
Definition ERR_MODELS_NONE : string :=
  "no models configured. Use 'models: all' for discovery or define an explicit list under 'models:'.".
Definition ERR_MODELS_INVALID_VALUE : string :=
  "invalid value for 'models'. Use 'all' or an explicit list of models.".
Definition ERR_MODELS_EMPTY : string :=
  "empty 'models' list. Use 'models: all' for discovery or provide one or more models.".
Definition ERR_INVALID_CONFIGURATION (err : string) : string :=
  "invalid configuration: " +:+ err.
Definition ERR_MODEL_NOT_IMPORTABLE (import_path : string) : string :=
  "could not import model: " +:+ import_path
  +:+ ". Create the model or adjust 'import_path'.".
Definition ERR_UNSUPPORTED_ORM (orm : string) : string :=
  "unsupported orm: " +:+ orm +:+ ". Supported: sqlmodel, sqlalchemy".

(** ** config.py: the model declaration and its field validators *)

Definition DEFAULT_METHODS : list string :=
  ["get"; "list"; "create"; "update"; "delete"].

(** The [CrudMethod] literal type: the vocabulary and the two sentinels. *)
Definition CrudMethod : list string := CRUD_METHODS ++ METHOD_PRESETS.

Record ModelConfig := {
  name : string;
  import_path : string;
  id_field : string;
  id_type : string;
  methods : list string;
  personalize_methods : list string;
}.

#[global] Instance ModelConfig_eq_dec : EqDecision ModelConfig.
Proof. solve_decision. Defined.

Definition validate_name (v : string) : outcome string :=
  match v with
  | EmptyString => Raise (ValueError ERR_MODEL_NAME)
  | String c _ =>
      if Str.is_alpha c then Ok v else Raise (ValueError ERR_MODEL_NAME)
  end.

Definition validate_import_path (v : string) : outcome string :=
  match Str.split_once ":" v with
  | None => Ok v
  | Some (mod_, cls_name) =>
      if bool_decide (mod_ = "") || bool_decide (cls_name = "")
      then Raise (ValueError ERR_IMPORT_PATH_CLASS)
      else Ok v
  end.

(** The [for m in v] loop of [validate_methods], with its two accumulators. *)
Fixpoint methods_loop (allowed v result : list string) (seen : gset string)
    : outcome (list string) :=
  match v with
  | [] => Ok result
  | m :: v' =>
      if bool_decide (m ∈ ["all"; "none"]) then
        methods_loop allowed v' result seen
      else if negb (bool_decide (m ∈ allowed)) then
        Raise (ValueError (ERR_INVALID_METHOD m))
      else if bool_decide (m ∈ seen) then
        methods_loop allowed v' result seen
      else methods_loop allowed v' (result ++ [m]) (seen ∪ {[m]})
  end.

(** The dependency rule at the end of [validate_methods]:
    [result.insert(0, "get")]. *)
Definition insert_prerequisite (result : list string) : list string :=
  if (bool_decide ("get_or_raise" ∈ result)
      || bool_decide ("delete_by_id" ∈ result))
     && negb (bool_decide ("get" ∈ result))
  then "get" :: result
  else result.

Definition validate_methods (v : list string) : outcome (list string) :=
  let allowed := CRUD_METHODS in
  if bool_decide (v = []) then Ok []
  else if bool_decide ("none" ∈ v) then Ok []
  else
    let '(result, seen) :=
      if bool_decide ("all" ∈ v)
      then (allowed, list_to_set allowed)
      else ([], ∅) in
    result ← methods_loop allowed v result seen;
    Ok (insert_prerequisite result).

(** The operation list of [validate_methods] after sentinel expansion and
    deduplication, just before the dependency rule is applied. *)
Definition expand_dedup (v : list string) : outcome (list string) :=
  if bool_decide (v = []) then Ok []
  else if bool_decide ("none" ∈ v) then Ok []
  else
    methods_loop CRUD_METHODS v
      (if bool_decide ("all" ∈ v) then CRUD_METHODS else [])
      (if bool_decide ("all" ∈ v) then list_to_set CRUD_METHODS else ∅).

(** Deduplication that keeps the first occurrence of every element. *)
Fixpoint dedup_first (l : list string) : list string :=
  match l with
  | [] => []
  | x :: l' => x :: filter (λ y, y ≠ x) (dedup_first l')
  end.

Definition is_sentinel (m : string) : Prop := m ∈ METHOD_PRESETS.

#[global] Instance is_sentinel_dec m : Decision (is_sentinel m).
Proof. unfold is_sentinel. apply _. Defined.

Fixpoint personalize_loop (v out : list string) (seen : gset string)
    : list string :=
  match v with
  | [] => out
  | m :: v' =>
      if bool_decide (m ∈ seen) then personalize_loop v' out seen
      else personalize_loop v' (out ++ [m]) (seen ∪ {[m]})
  end.

Definition validate_personalize_methods (v : list string)
    : outcome (list string) :=
  Ok (personalize_loop v [] ∅).

(** *** Pydantic's part of the validation

    Pydantic checks a field against its declared type first, then runs the
    field's [field_validator]; a [ValueError] of a validator surfaces as a
    [ValidationError] that carries the message.  The model reports the first
    failing field. *)

Definition in_validator {A} (r : outcome A) : outcome A :=
  match r with
  | Raise (ValueError msg) => Raise (ValidationError (value_error msg))
  | _ => r
  end.

Fixpoint check_literals (field : string) (allowed v : list string)
    : outcome (list string) :=
  match v with
  | [] => Ok []
  | m :: v' =>
      if bool_decide (m ∈ allowed)
      then (r ← check_literals field allowed v'; Ok (m :: r))
      else Raise (ValidationError (literal_error field m))
  end.

(** A model declaration as the YAML document gives it; an optional field is
    [None] when the key is absent. *)
Record RawModel := {
  raw_name : string;
  raw_import_path : string;
  raw_id_field : string;
  raw_id_type : string;
  raw_methods : option (list string);
  raw_personalize_methods : option (list string);
}.

(** The [methods] field: literal check, then [validate_methods]; an absent
    key takes the default as it is. *)
Definition ModelConfig_methods (raw : option (list string))
    : outcome (list string) :=
  match raw with
  | None => Ok DEFAULT_METHODS
  | Some v =>
      v ← check_literals "methods" CrudMethod v;
      in_validator (validate_methods v)
  end.

(** [ModelConfig(...)] / [ModelConfig.model_validate(...)]. *)
Definition ModelConfig_validate (raw : RawModel) : outcome ModelConfig :=
  name ← in_validator (validate_name (raw_name raw));
  import_path ← in_validator (validate_import_path (raw_import_path raw));
  methods ← ModelConfig_methods (raw_methods raw);
  personalize ←
    match raw_personalize_methods raw with
    | None => Ok []
    | Some v => in_validator (validate_personalize_methods v)
    end;
  Ok {| name := name; import_path := import_path;
        id_field := raw_id_field raw; id_type := raw_id_type raw;
        methods := methods; personalize_methods := personalize |}.

(** ** config.py: the whole configuration *)

Inductive GenerationMode := Standalone | Base | Combined.

#[global] Instance GenerationMode_eq_dec : EqDecision GenerationMode.
Proof. solve_decision. Defined.

Record Generation := {
  mode : GenerationMode;
  base_filename : string;
  base_class_name : string;
  overwrite_base : bool;
  stub_only : bool;
}.

Record GenrepoConfig := {
  orm : string;
  async_mode : bool;
  output_dir : string;
  models : list ModelConfig;
  models_dir : option string;
  models_package : option string;
  discover_all : bool;
  commit_strategy : string;
  allow_missing_models : bool;
  generation : Generation;
}.

Definition validate_models (v : list ModelConfig) : outcome (list ModelConfig) :=
  let names := name <$> v in
  if bool_decide (length names ≠ size (list_to_set names : gset string))
  then Raise (ValueError ERR_DUPLICATE_MODELS)
  else Ok v.

(** *** The parsed YAML document *)

(** The value under the [models] key. *)
Inductive YamlModels :=
  | YNull                          (* key absent, or an explicit null *)
  | YStr (s : string)              (* a string scalar *)
  | YList (l : list RawModel)      (* a sequence of model declarations *)
  | YScalar (repr : string).       (* a number, boolean or date scalar *)

Record RawGeneration := {
  rg_mode : option string;
  rg_base_filename : option string;
  rg_base_class_name : option string;
  rg_overwrite_base : option bool;
  rg_stub_only : option bool;
}.

Record RawConfig := {
  rc_orm : option string;
  rc_async_mode : option bool;
  rc_output_dir : option string;
  rc_models : YamlModels;
  rc_models_dir : option string;
  rc_models_package : option string;
  rc_discover_all : option bool;
  rc_commit_strategy : option string;
  rc_allow_missing_models : option bool;
  rc_generation : option RawGeneration;
}.

(** [v is None] *)
Definition is_none (v : YamlModels) : bool :=
  match v with YNull => true | _ => false end.

(** [{**data, "models": v}] *)
Definition with_models (data : RawConfig) (v : YamlModels) : RawConfig :=
  {| rc_orm := rc_orm data; rc_async_mode := rc_async_mode data;
     rc_output_dir := rc_output_dir data; rc_models := v;
     rc_models_dir := rc_models_dir data;
     rc_models_package := rc_models_package data;
     rc_discover_all := rc_discover_all data;
     rc_commit_strategy := rc_commit_strategy data;
     rc_allow_missing_models := rc_allow_missing_models data;
     rc_generation := rc_generation data |}.

(** *** Pydantic's [model_validate] for the two models *)

Definition check_literal (field : string) (allowed : list string)
    (default : string) (raw : option string) : outcome string :=
  match raw with
  | None => Ok default
  | Some s =>
      if bool_decide (s ∈ allowed) then Ok s
      else Raise (ValidationError (literal_error field s))
  end.

Definition parse_mode (s : string) : GenerationMode :=
  if bool_decide (s = "base") then Base
  else if bool_decide (s = "combined") then Combined
  else Standalone.

Definition Generation_validate (raw : option RawGeneration)
    : outcome Generation :=
  let raw := default
    {| rg_mode := None; rg_base_filename := None; rg_base_class_name := None;
       rg_overwrite_base := None; rg_stub_only := None |} raw in
  m ← check_literal "generation.mode" ["standalone"; "base"; "combined"]
        "standalone" (rg_mode raw);
  Ok {| mode := parse_mode m;
        base_filename := default "base_repository.py" (rg_base_filename raw);
        base_class_name := default "BaseRepository" (rg_base_class_name raw);
        overwrite_base := default false (rg_overwrite_base raw);
        stub_only := default false (rg_stub_only raw) |}.

Fixpoint validate_each (l : list RawModel) : outcome (list ModelConfig) :=
  match l with
  | [] => Ok []
  | raw :: l' =>
      m ← ModelConfig_validate raw;
      ms ← validate_each l';
      Ok (m :: ms)
  end.

Definition GenrepoConfig_model_validate (data : RawConfig)
    : outcome GenrepoConfig :=
  orm ← check_literal "orm" [ORM_SQLMODEL; ORM_SQLALCHEMY] "sqlmodel"
          (rc_orm data);
  output_dir ←
    match rc_output_dir data with
    | Some d => Ok d
    | None => Raise (ValidationError (missing "output_dir"))
    end;
  models ←
    match rc_models data with
    | YList l => ms ← validate_each l; in_validator (validate_models ms)
    | YNull => Raise (ValidationError (missing "models"))
    | YStr _ | YScalar _ => Raise (ValidationError (list_type "models"))
    end;
  commit_strategy ← check_literal "commit_strategy" ["commit"; "flush"; "none"]
                      "none" (rc_commit_strategy data);
  generation ← Generation_validate (rc_generation data);
  Ok {| orm := orm;
        async_mode := default false (rc_async_mode data);
        output_dir := output_dir;
        models := models;
        models_dir := rc_models_dir data;
        models_package := rc_models_package data;
        discover_all := default false (rc_discover_all data);
        commit_strategy := commit_strategy;
        allow_missing_models := default false (rc_allow_missing_models data);
        generation := generation |}.

(** *** [load_config] *)

(** [except ValidationError as e: raise ValueError(...) from e] *)
Definition wrap_validation {A} (r : outcome A) : outcome A :=
  match r with
  | Raise (ValidationError e) => Raise (InvalidConfiguration e)
  | _ => r
  end.

(** The placeholder declaration injected for a base-only configuration. *)
Definition placeholder_model : RawModel :=
  {| raw_name := "All"; raw_import_path := "app.models";
     raw_id_field := "id"; raw_id_type := "int";
     raw_methods := Some ["none"]; raw_personalize_methods := None |}.

(** [cfg.discover_all = True] and the two discovery defaults. *)
Definition enable_discovery (cfg : GenrepoConfig) : GenrepoConfig :=
  let both_unset :=
    bool_decide (models_dir cfg = None) && bool_decide (models_package cfg = None) in
  {| orm := orm cfg; async_mode := async_mode cfg;
     output_dir := output_dir cfg; models := models cfg;
     models_dir := if both_unset then Some "app/models" else models_dir cfg;
     models_package :=
       if both_unset then Some "app.models" else models_package cfg;
     discover_all := true;
     commit_strategy := commit_strategy cfg;
     allow_missing_models := allow_missing_models cfg;
     generation := generation cfg |}.

(** [(gen.get("mode") or "standalone").strip().lower()] *)
Definition early_gen_mode (data : RawConfig) : string :=
  let raw :=
    match rc_generation data with
    | Some g => match rg_mode g with
                | Some m => if bool_decide (m = "") then "standalone" else m
                | None => "standalone"
                end
    | None => "standalone"
    end in
  Str.lower (Str.strip raw).

(** [load_config(path)]; [doc] is the parsed document at [path], [None] when
    the path does not exist. *)
Definition load_config (path : string) (doc : option RawConfig)
    : outcome GenrepoConfig :=
  match doc with
  | None => Raise (FileNotFoundError (ERR_CONFIG_NOT_FOUND path))
  | Some data =>
      let gen_mode := early_gen_mode data in
      let models_field := rc_models data in
      if is_none models_field && negb (bool_decide (gen_mode = "base"))
      then Raise (ValueError ERR_MODELS_MISSING)
      else
        let data :=
          if is_none models_field && bool_decide (gen_mode = "base")
          then with_models data (YList [placeholder_model])
          else data in
        match models_field with
        | YStr s =>
            let mval := Str.lower (Str.strip s) in
            if bool_decide (mval = "all") then
              cfg ← wrap_validation
                      (GenrepoConfig_model_validate (with_models data (YList [])));
              Ok (enable_discovery cfg)
            else if bool_decide (mval = "none") then
              Raise (ValueError ERR_MODELS_NONE)
            else Raise (ValueError ERR_MODELS_INVALID_VALUE)
        | YList [] => Raise (ValueError ERR_MODELS_EMPTY)
        | _ => wrap_validation (GenrepoConfig_model_validate data)
        end
  end.

(** The texts of the document that go through Python's case, letter and
    blank tests are ASCII: the string under [models], the names of the
    declarations, and the generation mode. *)
Definition ascii_document (data : RawConfig) : Prop :=
  match rc_models data with
  | YStr s => Str.is_ascii s = true
  | YList l => Forall (λ raw, Str.is_ascii (raw_name raw) = true) l
  | _ => True
  end
  ∧ Str.is_ascii (default "" (rc_generation data ≫= rg_mode)) = true.

#[global] Instance ascii_document_dec data : Decision (ascii_document data).
Proof. unfold ascii_document. destruct (rc_models data); apply _. Defined.

(** ** pathlib: the text of a POSIX path *)

Module Path.

(** The components: the pieces between slashes, without the empty ones and
    the single dots. *)
Definition parts (s : string) : list string :=
  filter (λ c, c ≠ "" ∧ c ≠ ".") (Str.split_all "/" s).

(** The root: one slash, or two when the text starts with exactly two. *)
Definition root (s : string) : string :=
  if Str.startswith "//" s && negb (Str.startswith "///" s) then "//"
  else if Str.startswith "/" s then "/"
  else "".

Fixpoint join_parts (ps : list string) : string :=
  match ps with
  | [] => ""
  | p :: ps' =>
      match ps' with
      | [] => p
      | _ => p +:+ "/" +:+ join_parts ps'
      end
  end.

(** [str(path)] of the path with root [r] and components [ps]. *)
Definition make (r : string) (ps : list string) : string :=
  match r with
  | EmptyString =>
      match ps with
      | [] => "."
      | _ => join_parts ps
      end
  | _ => r +:+ join_parts ps
  end.

(** [Path(s)] *)
Definition of_string (s : string) : string := make (root s) (parts s).

Definition is_absolute (s : string) : bool := Str.startswith "/" s.

(** [a / b]: an absolute right operand replaces the left one. *)
Definition join (a b : string) : string :=
  if is_absolute b then of_string b
  else make (root a) (parts a ++ parts b).

(** [path.parent], [path.name] and [path.parents], nearest first. *)
Definition parent (p : string) : string :=
  make (root p) (removelast (parts p)).

Definition name (p : string) : string := default "" (last (parts p)).

Definition parents (p : string) : list string :=
  (λ k, make (root p) (take k (parts p)))
    <$> reverse (seq 0 (length (parts p))).

(** The components after [..] has taken back the one before it; [stack]
    holds the components kept so far, last first. *)
Fixpoint collapse (stack ps : list string) : list string :=
  match ps with
  | [] => reverse stack
  | p :: ps' =>
      if bool_decide (p = "..") then collapse (tail stack) ps'
      else collapse (p :: stack) ps'
  end.

(** [path.resolve()] of an absolute path in a tree without symbolic
    links. *)
Definition resolve (p : string) : string :=
  make (root p) (collapse [] (parts p)).

(** The path names its place by its text: it is absolute, in normal form
    and without [..]. *)
Definition canonical (p : string) : Prop :=
  is_absolute p = true ∧ (".." ∉ parts p) ∧ of_string p = p.

#[global] Instance canonical_dec p : Decision (canonical p).
Proof. unfold canonical. apply _. Defined.

End Path.

(** ** The file system *)

(** What a file path holds: a text, or something whose [read_text] fails
    (unreadable permissions, bytes that are not UTF-8). *)
Inductive entry :=
  | File (content : string)
  | Unreadable.

#[global] Instance entry_eq_dec : EqDecision entry.
Proof. solve_decision. Defined.

(** The files by path, and the directories. *)
Record filesystem := {
  fs_files : gmap string entry;
  fs_dirs : gset string;
}.

#[global] Instance filesystem_eq_dec : EqDecision filesystem.
Proof. solve_decision. Defined.

(** [fs !! path] is the file at [path]. *)
#[global] Instance filesystem_lookup : Lookup string entry filesystem :=
  λ path fs, fs_files fs !! path.

#[global] Instance filesystem_empty : Empty filesystem :=
  {| fs_files := ∅; fs_dirs := ∅ |}.

Definition set_file (fs : filesystem) (path : string) (e : entry) : filesystem :=
  {| fs_files := <[path := e]> (fs_files fs); fs_dirs := fs_dirs fs |}.

Definition remove_file (fs : filesystem) (path : string) : filesystem :=
  {| fs_files := delete path (fs_files fs); fs_dirs := fs_dirs fs |}.

(** [path.is_dir()]; the root is always there. *)
Definition is_dir (fs : filesystem) (path : string) : bool :=
  bool_decide (path ∈ fs_dirs fs) || bool_decide (path ∈ ["/"; "//"]).

(** [path.exists()] *)
Definition path_exists (fs : filesystem) (path : string) : bool :=
  bool_decide (is_Some (fs !! path)) || is_dir fs path.

(** [path.read_text(encoding="utf-8")]; [None] when it raises, as it does
    on a directory. *)
Definition read_text (fs : filesystem) (path : string) : option string :=
  match fs !! path with
  | Some (File content) => Some (Str.universal_newlines content)
  | _ => None
  end.

(** [d.mkdir(parents=True, exist_ok=True)] *)
Definition mkdir (fs : filesystem) (d : string) : outcome filesystem :=
  if is_dir fs d then Ok fs
  else if bool_decide (is_Some (fs !! d)) then Raise (FileExistsError d)
  else
    match filter (λ a, is_Some (fs !! a)) (Path.parents d) with
    | a :: _ => Raise (NotADirectoryError d)
    | [] =>
        Ok {| fs_files := fs_files fs;
              fs_dirs := fs_dirs fs ∪ {[d]} ∪ list_to_set (Path.parents d) |}
    end.

(** The order of [sorted] on file names: code point by code point. *)
Definition name_le (a b : string) : Prop := String.leb a b = true.

#[global] Instance name_le_dec : RelDecision name_le.
Proof. intros a b. unfold name_le. apply _. Defined.

(** The text that the children of the directory [d] start with. *)
Definition child_prefix (d : string) : string :=
  if Str.endswith "/" d then d else d +:+ "/".

(** [sorted(base_dir.glob("*.py"))], as names: the files and directories
    directly under [base_dir] whose name ends in [.py], in increasing
    order. *)
Definition glob_py (fs : filesystem) (base_dir : string) : list string :=
  let names :=
    omap (Str.strip_prefix (child_prefix base_dir))
      (elements (dom (fs_files fs) ∪ fs_dirs fs)) in
  merge_sort name_le
    (filter (λ n, Str.has_char "/" n = false ∧ Str.endswith ".py" n = true) names).

(** ** generator.py: name transforms *)

Fixpoint to_snake_from (i : nat) (name : string) : string :=
  match name with
  | EmptyString => EmptyString
  | String ch rest =>
      let tail := String (Str.lower_char ch) (to_snake_from (S i) rest) in
      if Str.is_upper ch && (0 <? i)%nat then String "_" tail else tail
  end.

Definition to_snake (name : string) : string := to_snake_from 0 name.

Definition to_pascal (snake : string) : string :=
  let parts :=
    filter (λ p, p ≠ "") (Str.split_all "_" (Str.replace_char "-" "_" snake)) in
  Str.concat_all (Str.capitalize <$> parts).

(** ** generator.py: records

    The fields carry a prefix: [exists] is a keyword here, and [path] and
    [content] are shared by two of the records. *)

Record GeneratedFile := {
  gf_path : string;
  gf_content : string;
}.

Record FilePlan := {
  fp_path : string;
  fp_exists : bool;
  fp_would_write : bool;
  fp_overwrite : bool;
  fp_reason : option string;
}.

#[global] Instance FilePlan_eq_dec : EqDecision FilePlan.
Proof. solve_decision. Defined.

Record PlanReport := {
  files : list FilePlan;
}.

Definition to_write (r : PlanReport) : list FilePlan :=
  filter (λ f, fp_would_write f = true) (files r).

Definition up_to_date (r : PlanReport) : list FilePlan :=
  filter (λ f, fp_would_write f = false ∧ fp_exists f = true
               ∧ fp_reason f = Some "up-to-date") (files r).

(** ** generator.py: the shared decision function *)

Definition _classify_file (fs : filesystem) (path content : string)
    (overwrite : bool) : FilePlan :=
  if negb (path_exists fs path) then
    {| fp_path := path; fp_exists := false; fp_would_write := true;
       fp_overwrite := overwrite; fp_reason := Some "create" |}
  else if negb overwrite then
    {| fp_path := path; fp_exists := true; fp_would_write := false;
       fp_overwrite := false; fp_reason := Some "exists-no-overwrite" |}
  else
    match read_text fs path with
    | None =>
        {| fp_path := path; fp_exists := true; fp_would_write := true;
           fp_overwrite := true; fp_reason := Some "overwrite" |}
    | Some current =>
        if bool_decide (current = content) then
          {| fp_path := path; fp_exists := true; fp_would_write := false;
             fp_overwrite := true; fp_reason := Some "up-to-date" |}
        else
          {| fp_path := path; fp_exists := true; fp_would_write := true;
             fp_overwrite := true; fp_reason := Some "overwrite" |}
    end.

(** ** generator.py: the collaborators

    The template engine, the Python import machinery and the working
    directory of the process are given from outside.
    [get_template name] is [env.get_template(name)] and
    [render name bindings] is the [render] of that template with the
    keyword arguments [bindings], both in the environment that
    [generate_from_config] builds, with the [snake] and [pascal] filters;
    [plan_get_template] and [plan_render] are the same two in the
    environment that [plan_from_config] builds, which has no such filters.
    [importable mod attr] says whether [importlib.import_module(mod)]
    succeeds and the module has the attribute [attr]. *)

Inductive tval :=
  | TStr (s : string)
  | TBool (b : bool)
  | TList (l : list string).

Record world := {
  get_template : string → outcome unit;
  render : string → list (string * tval) → outcome string;
  plan_get_template : string → outcome unit;
  plan_render : string → list (string * tval) → outcome string;
  importable : string → string → bool;
  cwd : string;
}.

(** The collaborators as [plan_from_config] meets them. *)
Definition plan_world (w : world) : world :=
  {| get_template := plan_get_template w; render := plan_render w;
     plan_get_template := plan_get_template w; plan_render := plan_render w;
     importable := importable w; cwd := cwd w |}.

(** ** generator.py: [TemplateSelector] *)

Definition standalone_template (cfg : GenrepoConfig) : outcome string :=
  if stub_only (generation cfg) then Ok TPL_STANDALONE_STUB
  else if bool_decide (orm cfg = ORM_SQLMODEL) then Ok TPL_STANDALONE_SQLMODEL
  else if bool_decide (orm cfg = ORM_SQLALCHEMY) then Ok TPL_STANDALONE_SQLALCHEMY
  else Raise (ValueError (ERR_UNSUPPORTED_ORM (orm cfg))).

Definition base_template (cfg : GenrepoConfig) : outcome string :=
  if stub_only (generation cfg) then Ok TPL_BASE_STUB
  else if bool_decide (orm cfg = ORM_SQLMODEL) then
    Ok (if async_mode cfg then TPL_BASE_SQLMODEL_ASYNC
        else TPL_BASE_SQLMODEL_SYNC)
  else if bool_decide (orm cfg = ORM_SQLALCHEMY) then
    Ok (if async_mode cfg then TPL_BASE_SQLALCHEMY_ASYNC
        else TPL_BASE_SQLALCHEMY_SYNC)
  else Raise (ValueError (ERR_UNSUPPORTED_ORM (orm cfg))).

(** ** generator.py: [ModelResolver.resolve] *)

(** [m.name.lower() in {"all", "*"}] *)
Definition is_wildcard (m : ModelConfig) : bool :=
  bool_decide (Str.lower (name m) ∈ ["all"; "*"]).

(** [models.remove(m)]: drops the first element equal to [m]. *)
Fixpoint remove_first (m : ModelConfig) (models : list ModelConfig)
    : list ModelConfig :=
  match models with
  | [] => []
  | x :: rest => if bool_decide (x = m) then rest else x :: remove_first m rest
  end.

(** The first loop of [resolve], over the snapshot [list(models)]. *)
Fixpoint separate_loop (snapshot models : list ModelConfig)
    (explicit_by_name : gmap string ModelConfig) (wildcard : option ModelConfig)
    : list ModelConfig * gmap string ModelConfig * option ModelConfig :=
  match snapshot with
  | [] => (models, explicit_by_name, wildcard)
  | m :: rest =>
      if is_wildcard m then
        separate_loop rest (remove_first m models) explicit_by_name (Some m)
      else
        separate_loop rest models (<[name m := m]> explicit_by_name) wildcard
  end.

(** The discovery loop, over the sorted file names. *)
Fixpoint discover_loop (pkg default_id_field default_id_type : string)
    (default_methods default_personalize : list string)
    (explicit_by_name : gmap string ModelConfig)
    (pys : list string) (models : list ModelConfig)
    : outcome (list ModelConfig) :=
  match pys with
  | [] => Ok models
  | py :: rest =>
      let continue_with :=
        discover_loop pkg default_id_field default_id_type default_methods
          default_personalize explicit_by_name rest in
      if Str.startswith "__" py then continue_with models
      else
        let stem := Str.stem py in
        let cls := to_pascal stem in
        let import_path := pkg +:+ "." +:+ stem +:+ ":" +:+ cls in
        if bool_decide (is_Some (explicit_by_name !! cls)) then
          continue_with models
        else
          m ← ModelConfig_validate
                 {| raw_name := cls; raw_import_path := import_path;
                    raw_id_field := default_id_field;
                    raw_id_type := default_id_type;
                    raw_methods := Some default_methods;
                    raw_personalize_methods := Some default_personalize |};
          continue_with (models ++ [m])
  end.

(** The import check of the non-discovery branch. *)
Fixpoint import_check_loop (w : world) (models : list ModelConfig)
    : outcome unit :=
  match models with
  | [] => Ok ()
  | m :: rest =>
      match Str.split_once ":" (import_path m) with
      | Some (mod_name, cls_name) =>
          if importable w mod_name cls_name then import_check_loop w rest
          else Raise (ValueError (ERR_MODEL_NOT_IMPORTABLE (import_path m)))
      | None => Raise (ValueError (ERR_MODEL_NOT_IMPORTABLE (import_path m)))
      end
  end.

(** [x or y] on a string that may be [None]. *)
Definition str_or (x : option string) (y : string) : string :=
  match x with
  | Some s => if bool_decide (s = "") then y else s
  | None => y
  end.

Definition resolve (w : world) (fs : filesystem) (cfg : GenrepoConfig)
    (project_root : string) : outcome (list ModelConfig) :=
  let '(models, explicit_by_name, wildcard) :=
    separate_loop (models cfg) (models cfg) ∅ None in
  let discover := discover_all cfg || bool_decide (is_Some wildcard) in
  if discover then
    let models_dir :=
      default (Path.join project_root "app/models")
        (Path.of_string <$> models_dir cfg) in
    let pkg :=
      str_or (models_package cfg)
        (match wildcard with
         | Some wc =>
             if negb (Str.has_char ":" (import_path wc)) then import_path wc
             else "app.models"
         | None => "app.models"
         end) in
    let base_dir := Path.join (cwd w) models_dir in
    let default_id_field := from_option id_field "id" wildcard in
    let default_id_type := from_option id_type "int" wildcard in
    let default_methods := from_option methods ["all"] wildcard in
    let default_personalize := from_option personalize_methods [] wildcard in
    discover_loop pkg default_id_field default_id_type default_methods
      default_personalize explicit_by_name (glob_py fs base_dir) models
  else if negb (allow_missing_models cfg) then
    _ ← import_check_loop w models;
    Ok models
  else Ok models.

(** ** generator.py: rendering *)

Definition unpack_error : error :=
  ValueError "not enough values to unpack (expected 2, got 1)".

Definition _render_repo (w : world) (model : ModelConfig)
    (template_name commit_strategy : string) (is_async : bool)
    : outcome GeneratedFile :=
  match Str.split_once ":" (import_path model) with
  | None => Raise unpack_error
  | Some (mod_, cls_name) =>
      let file_name := to_snake (name model) +:+ "_repository.py" in
      _ ← get_template w template_name;
      let ordered_methods :=
        filter (λ m, m ∈ (list_to_set (methods model) : gset string))
          CRUD_METHODS in
      content ←
        render w template_name
          [("model_name", TStr (name model));
           ("model_module", TStr mod_);
           ("model_class", TStr cls_name);
           ("id_field", TStr (id_field model));
           ("id_type", TStr (id_type model));
           ("methods", TList ordered_methods);
           ("personalize_methods", TList (personalize_methods model));
           ("commit_strategy", TStr commit_strategy);
           ("is_async", TBool is_async)];
      Ok {| gf_path := Path.of_string file_name; gf_content := content |}
  end.

(** [base_filename.rsplit(".", 1)[0]] *)
Definition base_module_of (base_filename : string) : string :=
  match Str.rfind "." base_filename with
  | Some i => String.substring 0 i base_filename
  | None => base_filename
  end.

(** [env.get_template(tpl)] and the [render] of the base file. *)
Definition render_base (w : world) (cfg : GenrepoConfig) (tpl : string)
    : outcome string :=
  _ ← get_template w tpl;
  render w tpl
    [("base_class_name", TStr (base_class_name (generation cfg)));
     ("commit_strategy", TStr (commit_strategy cfg))].

(** The user stub of combined mode, from the loaded template: file name
    and content for one model. *)
Definition render_user_stub (w : world) (cfg : GenrepoConfig)
    (model : ModelConfig) : outcome GeneratedFile :=
  let file_name := to_snake (name model) +:+ "_repository.py" in
  match Str.split_once ":" (import_path model) with
  | None => Raise IndexError
  | Some (mod_, cls_name) =>
      stub_content ←
        render w TPL_USER_STUB
          [("model_name", TStr (name model));
           ("model_module", TStr mod_);
           ("model_class", TStr cls_name);
           ("base_module", TStr (base_module_of (base_filename (generation cfg))));
           ("base_class_name", TStr (base_class_name (generation cfg)));
           ("id_field", TStr (id_field model));
           ("id_type", TStr (id_type model));
           ("personalize_methods", TList (personalize_methods model));
           ("orm", TStr (orm cfg));
           ("is_async", TBool (async_mode cfg))];
      Ok {| gf_path := file_name; gf_content := stub_content |}
  end.

(** ** generator.py: [generate_from_config] *)

Definition ensure_package (fs : filesystem) (dir_path : string)
    : outcome filesystem :=
  fs ← mkdir fs dir_path;
  let init_file := Path.join dir_path "__init__.py" in
  if negb (path_exists fs init_file) then Ok (set_file fs init_file (File ""))
  else Ok fs.

(** The [ValueError] of [with_suffix] on a path without a name. *)
Definition empty_name_error (path : string) : error :=
  ValueError ("PosixPath('" +:+ path +:+ "') has an empty name").

(** The inner [write]: the content goes to the sibling [path + ".tmp"],
    which then replaces [path]. The result is the file system as the call
    leaves it, and what the call returns or raises. *)
Definition write (fs : filesystem) (path content : string) (overwrite : bool)
    : filesystem * outcome bool :=
  if path_exists fs path && negb overwrite then (fs, Ok false)
  else
    match mkdir fs (Path.parent path) with
    | Raise e => (fs, Raise e)
    | Ok fs =>
        if bool_decide (Path.name path = "")
        then (fs, Raise (empty_name_error path))
        else
          let tmp := path +:+ ".tmp" in
          if is_dir fs tmp then (fs, Raise (IsADirectoryError tmp))
          else
            let fs := set_file fs tmp (File content) in
            if is_dir fs path then (fs, Raise (IsADirectoryError path))
            else (set_file (remove_file fs tmp) path (File content), Ok true)
    end.

(** [if write(...): written.append(target)] *)
Definition write_and_record (fs : filesystem) (written : list string)
    (path content : string) (overwrite : bool)
    : filesystem * outcome (list string) :=
  match write fs path content overwrite with
  | (fs, Ok ok) => (fs, Ok (if ok then written ++ [path] else written))
  | (fs, Raise e) => (fs, Raise e)
  end.

(** [(project_root / cfg.output_dir).resolve()], for an absolute
    [project_root]. *)
Definition out_dir_of (cfg : GenrepoConfig) (project_root : string) : string :=
  Path.resolve (Path.join project_root (output_dir cfg)).

Definition base_path_of (cfg : GenrepoConfig) (out_dir : string) : string :=
  Path.join out_dir (base_filename (generation cfg)).

(** The start of [generate_from_config]: the package marker, then the base
    file in base and combined mode. *)
Definition generate_prelude (w : world) (fs : filesystem) (cfg : GenrepoConfig)
    (project_root : string) : filesystem * outcome (list string) :=
  let written := [] in
  let out_dir := out_dir_of cfg project_root in
  match ensure_package fs out_dir with
  | Raise e => (fs, Raise e)
  | Ok fs =>
      if bool_decide (mode (generation cfg) ∈ [Base; Combined]) then
        match tpl ← base_template cfg; render_base w cfg tpl with
        | Raise e => (fs, Raise e)
        | Ok base_content =>
            write_and_record fs written (base_path_of cfg out_dir) base_content
              (overwrite_base (generation cfg))
        end
      else (fs, Ok written)
  end.

Fixpoint standalone_loop (w : world) (cfg : GenrepoConfig)
    (out_dir tpl_name : string) (force : bool) (models : list ModelConfig)
    (fs : filesystem) (written : list string)
    : filesystem * outcome (list string) :=
  match models with
  | [] => (fs, Ok written)
  | model :: rest =>
      match _render_repo w model tpl_name (commit_strategy cfg) (async_mode cfg) with
      | Raise e => (fs, Raise e)
      | Ok gen =>
          let target := Path.join out_dir (gf_path gen) in
          match write_and_record fs written target (gf_content gen) force with
          | (fs, Ok written) =>
              standalone_loop w cfg out_dir tpl_name force rest fs written
          | (fs, Raise e) => (fs, Raise e)
          end
      end
  end.

Fixpoint combined_loop (w : world) (cfg : GenrepoConfig) (out_dir : string)
    (models : list ModelConfig) (fs : filesystem) (written : list string)
    : filesystem * outcome (list string) :=
  match models with
  | [] => (fs, Ok written)
  | model :: rest =>
      match _ ← get_template w TPL_USER_STUB; render_user_stub w cfg model with
      | Raise e => (fs, Raise e)
      | Ok stub =>
          let stub_path := Path.join out_dir (gf_path stub) in
          match write_and_record fs written stub_path (gf_content stub) false with
          | (fs, Ok written) => combined_loop w cfg out_dir rest fs written
          | (fs, Raise e) => (fs, Raise e)
          end
      end
  end.

(** Returns the final file system and the list of written paths, or the
    file system as it was when the exception left the function. *)
Definition generate_from_config (w : world) (fs : filesystem)
    (cfg : GenrepoConfig) (project_root : string) (force : bool)
    : filesystem * outcome (list string) :=
  let out_dir := out_dir_of cfg project_root in
  match generate_prelude w fs cfg project_root with
  | (fs, Raise e) => (fs, Raise e)
  | (fs, Ok written) =>
      if bool_decide (mode (generation cfg) = Base) then (fs, Ok written)
      else
        match resolve w fs cfg project_root with
        | Raise e => (fs, Raise e)
        | Ok models =>
            if bool_decide (mode (generation cfg) = Standalone) then
              match standalone_template cfg with
              | Raise e => (fs, Raise e)
              | Ok tpl_name =>
                  standalone_loop w cfg out_dir tpl_name force models fs written
              end
            else combined_loop w cfg out_dir models fs written
        end
  end.

(** ** generator.py: [plan_from_config]

    The planner renders in its own environment: its loops are given
    [plan_world w]. *)

Fixpoint plan_standalone_loop (w : world) (fs : filesystem) (cfg : GenrepoConfig)
    (out_dir tpl_name : string) (force : bool) (models : list ModelConfig)
    (plans : list FilePlan) : outcome (list FilePlan) :=
  match models with
  | [] => Ok plans
  | model :: rest =>
      gen ← _render_repo w model tpl_name (commit_strategy cfg) (async_mode cfg);
      let target := Path.join out_dir (gf_path gen) in
      plan_standalone_loop w fs cfg out_dir tpl_name force rest
        (plans ++ [_classify_file fs target (gf_content gen) force])
  end.

Fixpoint plan_combined_loop (w : world) (fs : filesystem) (cfg : GenrepoConfig)
    (out_dir : string) (models : list ModelConfig) (plans : list FilePlan)
    : outcome (list FilePlan) :=
  match models with
  | [] => Ok plans
  | model :: rest =>
      stub ← render_user_stub w cfg model;
      let stub_path := Path.join out_dir (gf_path stub) in
      plan_combined_loop w fs cfg out_dir rest
        (plans ++ [_classify_file fs stub_path (gf_content stub) false])
  end.

Definition plan_from_config (w : world) (fs : filesystem) (cfg : GenrepoConfig)
    (project_root : string) (force : bool) : outcome PlanReport :=
  let env := plan_world w in
  let out_dir := out_dir_of cfg project_root in
  let plans := [] in
  plans ←
    (if bool_decide (mode (generation cfg) ∈ [Base; Combined]) then
       tpl ← base_template cfg;
       base_content ← render_base env cfg tpl;
       Ok (plans ++ [_classify_file fs (base_path_of cfg out_dir) base_content
                       (overwrite_base (generation cfg))])
     else Ok plans);
  if bool_decide (mode (generation cfg) = Base) then Ok {| files := plans |}
  else
    models ← resolve w fs cfg project_root;
    if bool_decide (mode (generation cfg) = Standalone) then
      tpl_name ← standalone_template cfg;
      plans ← plan_standalone_loop env fs cfg out_dir tpl_name force models plans;
      Ok {| files := plans |}
    else
      _ ← get_template env TPL_USER_STUB;
      plans ← plan_combined_loop env fs cfg out_dir models plans;
      Ok {| files := plans |}.

(** ** Vocabulary of the statements below *)

(** The plan entries that the executor's own test lets through: the file is
    absent, or overwriting it is allowed. *)
Definition rewrites (p : FilePlan) : Prop :=
  fp_exists p = false ∨ fp_overwrite p = true.

#[global] Instance rewrites_dec p : Decision (rewrites p).
Proof. unfold rewrites. apply _. Defined.

(** The explicit declarations of a configuration: those that are not a
    wildcard entry. *)
Definition explicit_declarations (cfg : GenrepoConfig) : list ModelConfig :=
  filter (λ m, is_wildcard m = false) (models cfg).

(** Discovery is on: by the flag, or by a wildcard entry. *)
Definition discovery_enabled (cfg : GenrepoConfig) : Prop :=
  discover_all cfg = true ∨ ∃ m, m ∈ models cfg ∧ is_wildcard m = true.

(** The directory that discovery scans. *)
Definition discovery_dir (w : world) (cfg : GenrepoConfig)
    (project_root : string) : string :=
  Path.join (cwd w)
    (default (Path.join project_root "app/models")
       (Path.of_string <$> models_dir cfg)).

(** The class name derived from a source file name. *)
Definition class_of (py : string) : string := to_pascal (Str.stem py).

(** A pending write of the executor: target, content and overwrite flag. *)
Record job := {
  job_path : string;
  job_content : string;
  job_overwrite : bool;
}.

(** The executor's writes, one after the other, up to the first that
    raises. *)
Fixpoint run_jobs (js : list job) (fs : filesystem) (written : list string)
    : filesystem * outcome (list string) :=
  match js with
  | [] => (fs, Ok written)
  | j :: js' =>
      match write_and_record fs written (job_path j) (job_content j)
              (job_overwrite j) with
      | (fs, Ok written) => run_jobs js' fs written
      | (fs, Raise e) => (fs, Raise e)
      end
  end.

(** The planner's entries for the same writes, all on one file system. *)
Definition plan_jobs (fs : filesystem) (js : list job) : list FilePlan :=
  (λ j, _classify_file fs (job_path j) (job_content j) (job_overwrite j)) <$> js.

(** The package marker of the output directory. *)
Definition init_file_of (cfg : GenrepoConfig) (project_root : string) : string :=
  Path.join (out_dir_of cfg project_root) "__init__.py".

(** The per-model file of a model, in standalone and in combined mode. *)
Definition model_path_of (cfg : GenrepoConfig) (project_root : string)
    (model : ModelConfig) : string :=
  Path.join (out_dir_of cfg project_root)
    (to_snake (name model) +:+ "_repository.py").

(** The plan entries whose file the executor writes: those the plan marks
    for writing, and those it found up to date. *)
Definition written_by_executor (p : FilePlan) : Prop :=
  fp_would_write p = true ∨ fp_reason p = Some "up-to-date".

#[global] Instance written_by_executor_dec p : Decision (written_by_executor p).
Proof. unfold written_by_executor. apply _. Defined.

(** A path on which the model and the program agree: it names its place
    by its text, and it is ASCII, so that the case conversions that made
    its file name are Python's. *)
Definition ordinary_path (p : string) : Prop :=
  Path.canonical p ∧ Str.is_ascii p = true.

#[global] Instance ordinary_path_dec p : Decision (ordinary_path p).
Proof. unfold ordinary_path. apply _. Defined.

(** A path component: not empty, not the dot, without slash. *)
Definition clean_part (c : string) : Prop :=
  (c ≠ "" ∧ c ≠ ".") ∧ Str.has_char "/" c = false.
(** ** Sample inputs *)

Module Sample.

Definition minimal_document (v : YamlModels) : RawConfig :=
{| rc_orm := Some "sqlmodel"; rc_async_mode := None;
   rc_output_dir := Some "out"; rc_models := v;
   rc_models_dir := None; rc_models_package := None;
   rc_discover_all := None; rc_commit_strategy := None;
   rc_allow_missing_models := None; rc_generation := None |}.

(** A template engine that has every template and only names the template
  and the model, an import machinery in which every module has every
  attribute, and a process started in [/proj]. *)
Definition toy_render (tpl : string) (bindings : list (string * tval))
  : outcome string :=
match bindings with
| (_, TStr s) :: _ => Ok ("# " +:+ tpl +:+ " " +:+ s)
| _ => Ok ("# " +:+ tpl)
end.

Definition toy_world : world :=
{| get_template := λ _, Ok (); render := toy_render;
   plan_get_template := λ _, Ok (); plan_render := toy_render;
   importable := λ _ _, true; cwd := "/proj" |}.

(** The tree with the files [fl], the directories [dl] and all the
  directories above them. *)
Definition tree (fl : list (string * entry)) (dl : list string) : filesystem :=
{| fs_files := list_to_map fl;
   fs_dirs := list_to_set (dl ++ ((fl.*1 ++ dl) ≫= Path.parents)) |}.

Definition user_model : ModelConfig :=
{| name := "User"; import_path := "app.models.user:User";
   id_field := "id"; id_type := "int";
   methods := ["get"; "list"]; personalize_methods := [] |}.

Definition config (m : GenerationMode) (base_file : string) (ow_base : bool)
  (ms : list ModelConfig) (discover : bool) : GenrepoConfig :=
{| orm := "sqlmodel"; async_mode := false; output_dir := "out";
   models := ms; models_dir := None; models_package := None;
   discover_all := discover; commit_strategy := "none";
   allow_missing_models := true;
   generation :=
     {| mode := m; base_filename := base_file;
        base_class_name := "BaseRepository";
        overwrite_base := ow_base; stub_only := false |} |}.

(** One generated standalone file that is already up to date. *)
Definition standalone_config : GenrepoConfig :=
config Standalone "base_repository.py" false [user_model] false.

Definition up_to_date_tree : filesystem :=
tree [("/proj/out/__init__.py", File "");
      ("/proj/out/user_repository.py", File "# repository_sqlmodel.j2 User")]
  [].

Definition up_to_date_entry : FilePlan :=
{| fp_path := "/proj/out/user_repository.py"; fp_exists := true;
   fp_would_write := false; fp_overwrite := true;
   fp_reason := Some "up-to-date" |}.

(** Combined mode over a tree with a hand-edited base file and stub. *)
Definition combined_config : GenrepoConfig :=
config Combined "base_repository.py" true [user_model] false.

Definition edited_tree : filesystem :=
tree [("/proj/out/base_repository.py", File "# edited base");
      ("/proj/out/user_repository.py", File "# edited stub")] [].



(** Two models whose names differ only in case share one file name. *)
Definition lower_user_model : ModelConfig :=
  {| name := "user"; import_path := "app.models.user:user";
     id_field := "id"; id_type := "int";
     methods := ["get"]; personalize_methods := [] |}.

Definition same_file_config : GenrepoConfig :=
  config Standalone "base_repository.py" false [user_model; lower_user_model]
    false.

(** The base file is given the name of the package marker. *)
Definition marker_config : GenrepoConfig :=
  config Base "__init__.py" false [] false.

(** The base file is given the empty name: its path is the output
  directory. *)
Definition directory_config : GenrepoConfig :=
  config Base "" false [] false.

(** A project directory and nothing in it. *)
Definition fresh_tree : filesystem := tree [] ["/proj"].

(** Discovery scans the output directory itself. *)
Definition self_scan_config : GenrepoConfig :=
  {| orm := "sqlmodel"; async_mode := false; output_dir := "out";
     models := []; models_dir := Some "/proj/out"; models_package := None;
     discover_all := true; commit_strategy := "none";
     allow_missing_models := true;
     generation :=
       {| mode := Combined; base_filename := "base_repository.py";
          base_class_name := "BaseRepository";
          overwrite_base := false; stub_only := false |} |}.

(** Discovery over a models directory that also holds a directory whose
  name ends in [.py]. *)
Definition discovery_config : GenrepoConfig :=
config Standalone "base_repository.py" false [user_model] true.

Definition models_tree : filesystem :=
tree [("/proj/app/models/foo.py", File "");
      ("/proj/app/models/bar.py", File "");
      ("/proj/app/models/user.py", File "");
      ("/proj/app/models/__init__.py", File "");
      ("/proj/app/models/sub/x.py", File "");
      ("/proj/app/models/readme.txt", File "")]
  ["/proj/app/models/pkg.py"].

Definition discovered (n ip : string) : ModelConfig :=
{| name := n; import_path := ip; id_field := "id"; id_type := "int";
   methods := CRUD_METHODS; personalize_methods := [] |}.

End Sample.

(** ** Vocabulary of the further properties *)

(** An operation list in normal form: no duplicate, inside the vocabulary,
    and with [get] whenever an operation that calls it is present. *)
Definition normal_methods (r : list string) : Prop :=
  NoDup r
  ∧ r ⊆ CRUD_METHODS
  ∧ ("get_or_raise" ∈ r ∨ "delete_by_id" ∈ r → "get" ∈ r).

(** What the field validators establish for a declaration. *)
Definition well_formed (m : ModelConfig) : Prop :=
  (∃ c rest, name m = String c rest ∧ Str.is_alpha c = true)
  ∧ (∀ mod_ cls_name,
       Str.split_once ":" (import_path m) = Some (mod_, cls_name) →
       mod_ ≠ "" ∧ cls_name ≠ "")
  ∧ normal_methods (methods m)
  ∧ NoDup (personalize_methods m).

(** A text without the two separators of the name transforms. *)
Definition plain (s : string) : Prop :=
  Str.has_char "_" s = false ∧ Str.has_char "-" s = false.

(** A conventional model name: it starts with a capital letter and has no
    underscore or hyphen. *)
Definition pascal_name (s : string) : Prop :=
  ∃ c rest, s = String c rest ∧ Str.is_upper c = true ∧ plain s.

(** An identifier in capitalised form: an ASCII capital letter followed by
    ASCII letters and digits. *)
Fixpoint alphanumeric (s : string) : bool :=
  match s with
  | EmptyString => true
  | String c s' =>
      (Str.is_alpha c || (48 <=? N_of_ascii c)%N && (N_of_ascii c <=? 57)%N)
      && alphanumeric s'
  end.

Definition identifier_name (s : string) : Prop :=
  (∃ c rest, s = String c rest ∧ Str.is_upper c = true)
  ∧ alphanumeric s = true.

#[global] Instance identifier_name_dec s : Decision (identifier_name s).
Proof.
  unfold identifier_name. destruct s as [|c rest].
  - right. by intros [(c & rest & ? & _) _].
  - destruct (Str.is_upper c) eqn:E.
    + destruct (decide (alphanumeric (String c rest) = true)).
      * left. eauto.
      * right. by intros [_ ?].
    + right. intros [(c' & rest' & ? & ?) _]. simplify_eq. congruence.
Defined.

(** The declaration [m] with another operation list. *)
Definition with_methods (m : ModelConfig) (ms : list string) : ModelConfig :=
  {| name := name m; import_path := import_path m; id_field := id_field m;
     id_type := id_type m; methods := ms;
     personalize_methods := personalize_methods m |}.

(** The import check of the resolver passes for the declaration. *)
Definition importable_model (w : world) (m : ModelConfig) : Prop :=
  ∃ mod_name cls_name,
    Str.split_once ":" (import_path m) = Some (mod_name, cls_name)
    ∧ importable w mod_name cls_name = true.

(** The wildcard entry that discovery takes its defaults from: the last
    one in the configuration. *)
Definition wildcard_entry (cfg : GenrepoConfig) : option ModelConfig :=
  last (filter (λ m, is_wildcard m = true) (models cfg)).

(** The package prefix of discovered locators. *)
Definition discovery_package (cfg : GenrepoConfig) : string :=
  str_or (models_package cfg)
    (match wildcard_entry cfg with
     | Some wc =>
         if negb (Str.has_char ":" (import_path wc)) then import_path wc
         else "app.models"
     | None => "app.models"
     end).

(** What the discovery loop builds for one of the files [pys]. *)
Definition discovered_from (pkg idf idt : string) (mts pers pys : list string)
    (m : ModelConfig) : Prop :=
  id_field m = idf ∧ id_type m = idt
  ∧ ModelConfig_methods (Some mts) = Ok (methods m)
  ∧ personalize_methods m = dedup_first pers
  ∧ ∃ py, py ∈ pys ∧ name m = class_of py
          ∧ import_path m
            = pkg +:+ "." +:+ Str.stem py +:+ ":" +:+ class_of py.

(** *** The writes of one run, as a list *)

(** The target files of a run over the resolved [models], in the order in
    which the executor visits them; base-only mode has no model file. *)
Definition targets_of (cfg : GenrepoConfig) (project_root : string)
    (models : list ModelConfig) : list string :=
  (if bool_decide (mode (generation cfg) ∈ [Base; Combined])
   then [base_path_of cfg (out_dir_of cfg project_root)] else [])
  ++ (if bool_decide (mode (generation cfg) = Base) then []
      else model_path_of cfg project_root <$> models).

(** The job of the base file, in base and combined mode. *)
Definition base_job_list (w : world) (cfg : GenrepoConfig)
    (project_root : string) : outcome (list job) :=
  if bool_decide (mode (generation cfg) ∈ [Base; Combined]) then
    tpl ← base_template cfg;
    base_content ← render_base w cfg tpl;
    Ok [{| job_path := base_path_of cfg (out_dir_of cfg project_root);
           job_content := base_content;
           job_overwrite := overwrite_base (generation cfg) |}]
  else Ok [].

(** The jobs of the standalone loop. *)
Fixpoint standalone_job_list (w : world) (cfg : GenrepoConfig)
    (project_root tpl_name : string) (force : bool)
    (models : list ModelConfig) : outcome (list job) :=
  match models with
  | [] => Ok []
  | model :: rest =>
      gen ← _render_repo w model tpl_name (commit_strategy cfg) (async_mode cfg);
      js ← standalone_job_list w cfg project_root tpl_name force rest;
      Ok ({| job_path := model_path_of cfg project_root model;
             job_content := gf_content gen; job_overwrite := force |} :: js)
  end.

(** The jobs of the stub loop of combined mode. *)
Fixpoint stub_job_list (w : world) (cfg : GenrepoConfig)
    (project_root : string) (models : list ModelConfig)
    : outcome (list job) :=
  match models with
  | [] => Ok []
  | model :: rest =>
      _ ← get_template w TPL_USER_STUB;
      stub ← render_user_stub w cfg model;
      js ← stub_job_list w cfg project_root rest;
      Ok ({| job_path := model_path_of cfg project_root model;
             job_content := gf_content stub; job_overwrite := false |} :: js)
  end.

(** All the jobs of a run over the resolved [models]. *)
Definition job_list (w : world) (cfg : GenrepoConfig) (project_root : string)
    (force : bool) (models : list ModelConfig) : outcome (list job) :=
  bjs ← base_job_list w cfg project_root;
  if bool_decide (mode (generation cfg) = Base) then Ok bjs
  else if bool_decide (mode (generation cfg) = Standalone) then
    tpl_name ← standalone_template cfg;
    mjs ← standalone_job_list w cfg project_root tpl_name force models;
    Ok (bjs ++ mjs)
  else
    mjs ← stub_job_list w cfg project_root models;
    Ok (bjs ++ mjs).

(** What a job is apart from its content: target and overwrite flag. *)
Definition job_key (j : job) : string * bool := (job_path j, job_overwrite j).

(** The targets of a run with their overwrite flags. *)
Definition keys_of (cfg : GenrepoConfig) (project_root : string)
    (force : bool) (models : list ModelConfig) : list (string * bool) :=
  (if bool_decide (mode (generation cfg) ∈ [Base; Combined])
   then [(base_path_of cfg (out_dir_of cfg project_root),
          overwrite_base (generation cfg))]
   else [])
  ++ (if bool_decide (mode (generation cfg) = Base) then []
      else (λ m, (model_path_of cfg project_root m,
                  if bool_decide (mode (generation cfg) = Standalone)
                  then force else false)) <$> models).


(** No earlier target is a later job's target or temporary sibling. *)
Definition undisturbed (j k : job) : Prop :=
  job_path j ≠ job_path k ∧ job_path j ≠ job_path k +:+ ".tmp".

(** The job [j] with another overwrite flag. *)
Definition with_overwrite (flag : bool) (j : job) : job :=
  {| job_path := job_path j; job_content := job_content j;
     job_overwrite := flag |}.

(** Where the planner's environment renders a template, the generator's
    renders the same text. *)
Definition same_rendering (w : world) : Prop :=
  ∀ tpl bindings text,
    plan_render w tpl bindings = Ok text → render w tpl bindings = Ok text.

(** The file at [p], if there is one, holds no carriage return: read in
    text mode, it gives the text that was written. *)
Definition reads_as_written (fs : filesystem) (p : string) : bool :=
  match fs !! p with
  | Some (File content) => negb (Str.has_char Str.CR content)
  | _ => true
  end.

(** ** cli/app.py: the [generate] command

    The command is modelled by what it does to the file system and by its
    exit status; what it prints is left out. [--templates-dir] selects the
    template loader, which is part of the [world]'s [render]. *)

(** [cfg.generation.stub_only = True] *)
Definition set_stub_only (cfg : GenrepoConfig) : GenrepoConfig :=
  {| orm := orm cfg; async_mode := async_mode cfg;
     output_dir := output_dir cfg; models := models cfg;
     models_dir := models_dir cfg; models_package := models_package cfg;
     discover_all := discover_all cfg;
     commit_strategy := commit_strategy cfg;
     allow_missing_models := allow_missing_models cfg;
     generation :=
       {| mode := mode (generation cfg);
          base_filename := base_filename (generation cfg);
          base_class_name := base_class_name (generation cfg);
          overwrite_base := overwrite_base (generation cfg);
          stub_only := true |} |}.

(** The value of a call that did not raise. *)
Definition returned {A} (r : outcome A) : option A :=
  match r with
  | Ok a => Some a
  | Raise _ => None
  end.

Module Cli.

Record options := {
  dry_run : bool;
  check : bool;
  format : string;
  stub_only : bool;
  force : bool;
}.

(** The first statements of the command: [load_config(config_path)], then
    the [--stub-only] override. [safe_load text] is the mapping that
    [yaml.safe_load] gives for the text of the file, [None] when it raises
    or gives a value without [get]. The command handles every exception in
    the same way, so only the returned configuration is kept. *)
Definition load (safe_load : string → option RawConfig) (fs : filesystem)
    (config_path : string) (stub : bool) : option GenrepoConfig :=
  cfg ← (if negb (path_exists fs config_path)
         then returned (load_config config_path None)
         else
           text ← read_text fs config_path;
           data ← safe_load text;
           returned (load_config config_path (Some data)));
  Some (if stub then set_stub_only cfg else cfg).

(** The command on the resolved [config_path]: the file system it leaves
    and its exit status, 0 also when it returns without [typer.Exit]. *)
Definition generate (safe_load : string → option RawConfig) (w : world)
    (fs : filesystem) (config_path : string) (o : options)
    : filesystem * nat :=
  match load safe_load fs config_path (stub_only o) with
  | None => (fs, 1%nat)
  | Some cfg =>
      let project_root := Path.parent config_path in
      if dry_run o || check o then
        match plan_from_config w fs cfg project_root (force o) with
        | Raise _ => (fs, 1%nat)
        | Ok pr =>
            if negb (bool_decide (format o ∈ ["text"; "json"]))
            then (fs, 1%nat)
            else if check o then
              (fs, match to_write pr with [] => 0%nat | _ => 1%nat end)
            else (fs, 0%nat)
        end
      else
        match generate_from_config w fs cfg project_root (force o) with
        | (fs', Raise _) => (fs', 1%nat)
        | (fs', Ok _) => (fs', 0%nat)
        end
  end.

(** The same options with [--check], and without [--check] and
    [--dry-run]. *)
Definition checking (o : options) : options :=
  {| dry_run := dry_run o; check := true; format := format o;
     stub_only := stub_only o; force := force o |}.

Definition executing (o : options) : options :=
  {| dry_run := false; check := false; format := format o;
     stub_only := stub_only o; force := force o |}.

End Cli.

(** ** More sample inputs *)

Module Cases.

(** A document with one declaration that asks for [get_or_raise] without
    [get], and the configuration that loading it gives. *)
Definition raw_user : RawModel :=
  {| raw_name := "User"; raw_import_path := "app.models.user:User";
     raw_id_field := "id"; raw_id_type := "int";
     raw_methods := Some ["get_or_raise"; "list"; "list"];
     raw_personalize_methods := Some ["touch"; "touch"] |}.

Definition user_document : RawConfig :=
  Sample.minimal_document (YList [raw_user]).

Definition loaded_user : ModelConfig :=
  {| name := "User"; import_path := "app.models.user:User";
     id_field := "id"; id_type := "int";
     methods := ["get"; "get_or_raise"; "list"];
     personalize_methods := ["touch"] |}.

Definition loaded : GenrepoConfig :=
  {| orm := "sqlmodel"; async_mode := false; output_dir := "out";
     models := [loaded_user];
     models_dir := None; models_package := None;
     discover_all := false; commit_strategy := "none";
     allow_missing_models := false;
     generation :=
       {| mode := Standalone; base_filename := "base_repository.py";
          base_class_name := "BaseRepository";
          overwrite_base := false; stub_only := false |} |}.

(** An import machinery in which nothing can be imported. *)
Definition bare_world : world :=
  {| get_template := λ _, Ok (); render := Sample.toy_render;
     plan_get_template := λ _, Ok (); plan_render := Sample.toy_render;
     importable := λ _ _, false; cwd := "/proj" |}.

(** A tree with a stale temporary file beside a target. *)
Definition stale_tree : filesystem :=
  Sample.tree [("/proj/out/user_repository.py.tmp", File "# half written")] [].

(** A project with its configuration file, a parser that knows this one
    text, and the plain options. *)
Definition project_tree : filesystem :=
  Sample.tree [("/proj/genrepo.yaml", File "models: [User]")] [].

Definition toy_load (text : string) : option RawConfig :=
  if bool_decide (text = "models: [User]") then Some user_document else None.

Definition plain_options : Cli.options :=
  {| Cli.dry_run := false; Cli.check := false; Cli.format := "text";
     Cli.stub_only := false; Cli.force := true |}.

End Cases.

(** * Properties *)

(** ** List facts used below *)

Lemma filter_none {A} (P : A → Prop) `{!∀ x, Decision (P x)} (l : list A) :
  Forall (λ x, ¬ P x) l → filter P l = [].
Proof.
  induction 1 as [|x l Hx _ IH]; [done|].
  by rewrite filter_cons_False.
Qed.

Lemma filter_every {A} (P : A → Prop) `{!∀ x, Decision (P x)} (l : list A) :
  Forall P l → filter P l = l.
Proof.
  induction 1 as [|x l Hx _ IH]; [done|].
  rewrite filter_cons_True by done. by f_equal.
Qed.


(** ** Text facts used below *)

Lemma append_nil_l s : "" +:+ s = s.
Proof. reflexivity. Qed.

Lemma append_cons c p s : String c p +:+ s = String c (p +:+ s).
Proof. reflexivity. Qed.

Lemma append_assoc a b c : (a +:+ b) +:+ c = a +:+ b +:+ c.
Proof.
  induction a as [|x a IH]; [done|].
  by rewrite !append_cons, IH.
Qed.

(** ** Operation-set normalisation ([validate_methods]) *)

Section methods.

Implicit Types v result r : list string.
Implicit Types seen : gset string.

Example validate_methods_dedup :
  validate_methods ["get"; "get"; "list"] = Ok ["get"; "list"].
Proof. vm_compute. reflexivity. Qed.

Example validate_methods_prereq :
  validate_methods ["list"; "delete_by_id"; "list"]
  = Ok ["get"; "list"; "delete_by_id"].
Proof. vm_compute. reflexivity. Qed.

Lemma validate_methods_stages v :
  validate_methods v = (r ← expand_dedup v; Ok (insert_prerequisite r)).
Proof.
  unfold validate_methods, expand_dedup.
  repeat case_bool_decide; try reflexivity.
Qed.

Lemma dedup_first_elem_of l x : x ∈ dedup_first l ↔ x ∈ l.
Proof.
  induction l as [|y l IH]; simpl; [done|].
  rewrite !elem_of_cons, list_elem_of_filter, IH.
  destruct (decide (x = y)); tauto.
Qed.

Lemma dedup_first_NoDup l : NoDup (dedup_first l).
Proof.
  induction l as [|y l IH]; simpl; [constructor|].
  constructor.
  - rewrite list_elem_of_filter. tauto.
  - by apply NoDup_filter.
Qed.

Lemma dedup_first_sublist l : dedup_first l `sublist_of` l.
Proof.
  induction l as [|y l IH]; simpl; [done|].
  apply sublist_skip. etrans; [apply sublist_filter|done].
Qed.

(** What the loop computes from any starting accumulators that agree. *)
Lemma methods_loop_Ok allowed v result seen r :
  (∀ x, x ∈ seen ↔ x ∈ result) →
  methods_loop allowed v result seen = Ok r →
  r = result
      ++ filter (λ x, x ∉ result)
           (dedup_first (filter (λ m, ¬ is_sentinel m) v))
  ∧ Forall (λ m, is_sentinel m ∨ m ∈ allowed) v.
Proof.
  revert result seen.
  induction v as [|m v IH]; intros result seen Hseen Hloop; simpl in *.
  - simplify_eq. by rewrite app_nil_r.
  - case_bool_decide as Hs.
    { destruct (IH _ _ Hseen Hloop) as [-> Hall]. split.
      - rewrite filter_cons_False; [done|]. by intros [].
      - constructor; auto. }
    case_bool_decide as Hal; simpl in Hloop; [|done].
    rewrite filter_cons_True by done. simpl.
    case_bool_decide as Hin.
    + destruct (IH _ _ Hseen Hloop) as [-> Hall]. split; [|constructor; auto].
      f_equal. rewrite filter_cons_False by (rewrite <-Hseen; naive_solver).
      rewrite list_filter_filter. apply list_filter_iff.
      intros x. rewrite <-Hseen. naive_solver.
    + assert (Hseen' : ∀ x, x ∈ seen ∪ {[m]} ↔ x ∈ result ++ [m]).
      { intros x. rewrite elem_of_union, elem_of_app, Hseen. set_solver. }
      destruct (IH _ _ Hseen' Hloop) as [-> Hall].
      split; [|constructor; auto].
      rewrite filter_cons_True by (rewrite <-Hseen; done).
      rewrite <-app_assoc. simpl. do 2 f_equal.
      rewrite list_filter_filter. apply list_filter_iff.
      intros x. rewrite elem_of_app, list_elem_of_singleton. naive_solver.
Qed.

Lemma CRUD_METHODS_NoDup : NoDup CRUD_METHODS.
Proof. compute_done. Qed.

Lemma expand_dedup_all v r :
  "all" ∈ v → "none" ∉ v → expand_dedup v = Ok r → r = CRUD_METHODS.
Proof.
  intros Hall Hnone. unfold expand_dedup.
  case_bool_decide as Hnil; [subst v; by apply not_elem_of_nil in Hall|].
  rewrite (bool_decide_false _ Hnone), !(bool_decide_true _ Hall).
  intros Hloop. apply methods_loop_Ok in Hloop as [-> Hv].
  2:{ intros x. by rewrite elem_of_list_to_set. }
  rewrite filter_none; [by rewrite app_nil_r|].
  apply Forall_forall. intros x.
  rewrite dedup_first_elem_of, list_elem_of_filter. intros [Hns Hx] Hnot.
  rewrite Forall_forall in Hv. destruct (Hv x Hx); done.
Qed.

Lemma expand_dedup_explicit v r :
  "all" ∉ v → "none" ∉ v → expand_dedup v = Ok r →
  r = dedup_first (filter (λ m, ¬ is_sentinel m) v).
Proof.
  intros Hall Hnone. unfold expand_dedup.
  case_bool_decide as Hnil; [intros; by simplify_eq|].
  rewrite (bool_decide_false _ Hnone), !(bool_decide_false _ Hall).
  intros Hloop. apply methods_loop_Ok in Hloop as [-> _]; [|set_solver].
  simpl. apply filter_every, Forall_forall.
  intros x _. apply not_elem_of_nil.
Qed.

Lemma expand_dedup_NoDup v r : expand_dedup v = Ok r → NoDup r.
Proof.
  intros H.
  destruct (decide ("none" ∈ v)) as [Hn|Hn].
  { unfold expand_dedup in H. rewrite (bool_decide_true _ Hn) in H.
    case_bool_decide; simplify_eq; constructor. }
  destruct (decide ("all" ∈ v)) as [Ha|Ha].
  - rewrite (expand_dedup_all v r); auto using CRUD_METHODS_NoDup.
  - rewrite (expand_dedup_explicit v r); auto using dedup_first_NoDup.
Qed.

Lemma insert_prerequisite_NoDup r : NoDup r → NoDup (insert_prerequisite r).
Proof.
  unfold insert_prerequisite. intros Hr.
  destruct (_ || _); simpl; [|done].
  case_bool_decide; simpl; [done|]. by constructor.
Qed.

(** The normalised list never has a duplicate. *)
Lemma validate_methods_NoDup v r : validate_methods v = Ok r → NoDup r.
Proof.
  rewrite validate_methods_stages.
  destruct (expand_dedup v) as [r0|] eqn:E; simpl; [|done].
  intros ?; simplify_eq.
  eauto using insert_prerequisite_NoDup, expand_dedup_NoDup.
Qed.

(** The loop stops at the first token outside the vocabulary. *)
Lemma methods_loop_invalid allowed pre tok post result seen :
  Forall (λ m, is_sentinel m ∨ m ∈ allowed) pre →
  ¬ is_sentinel tok → tok ∉ allowed →
  methods_loop allowed (pre ++ tok :: post) result seen
  = Raise (ValueError (ERR_INVALID_METHOD tok)).
Proof.
  intros Hpre Hs Ha. revert result seen.
  induction Hpre as [|m pre Hm _ IH]; intros result seen; simpl.
  - rewrite (bool_decide_false _ Hs).
    by rewrite (bool_decide_false _ Ha).
  - case_bool_decide; [apply IH|].
    destruct Hm as [|Hm]; [done|].
    rewrite (bool_decide_true _ Hm). simpl.
    case_bool_decide; apply IH.
Qed.

Lemma CrudMethod_known m : m ∈ CrudMethod ↔ is_sentinel m ∨ m ∈ CRUD_METHODS.
Proof. unfold CrudMethod, is_sentinel. rewrite elem_of_app. tauto. Qed.

(** The [methods] of a validated declaration come from the field pipeline. *)
Lemma ModelConfig_validate_methods raw m :
  ModelConfig_validate raw = Ok m →
  ModelConfig_methods (raw_methods raw) = Ok (methods m).
Proof.
  unfold ModelConfig_validate. intros H.
  destruct (in_validator (validate_name _)); simpl in H; [|done].
  destruct (in_validator (validate_import_path _)); simpl in H; [|done].
  destruct (ModelConfig_methods _); simpl in H; [|done].
  destruct (raw_personalize_methods raw); simpl in H; by simplify_eq.
Qed.

Lemma check_literals_Ok field allowed v r :
  check_literals field allowed v = Ok r → r = v.
Proof.
  revert r. induction v as [|m v IH]; intros r; simpl; [congruence|].
  case_bool_decide; [|done].
  destruct (check_literals field allowed v); simpl; [|done].
  intros ?; simplify_eq. f_equal. by apply IH.
Qed.

(** C4. A methods list equal to [all] normalises to exactly the ten
    operations of the vocabulary, in the vocabulary's order, and a list
    equal to [none] normalises to the empty list; this holds for the
    validator and for the whole [methods] field of a declaration. *)
Theorem methods_all_and_none :
  validate_methods ["all"]
  = Ok ["get"; "get_or_raise"; "list"; "find_one"; "create"; "update";
        "delete"; "delete_by_id"; "exists"; "count"]
  ∧ validate_methods ["none"] = Ok []
  ∧ ModelConfig_methods (Some ["all"]) = Ok CRUD_METHODS
  ∧ ModelConfig_methods (Some ["none"]) = Ok [].
Proof. repeat split; vm_compute; reflexivity. Qed.

(** C5. When the list obtained after sentinel expansion and deduplication
    holds [get_or_raise] or [delete_by_id] but not [get], the normalised
    list is that list with [get] put in front of it; it has no duplicate,
    and the other operations are the input's tokens in input order, each
    kept at its first occurrence. *)
Theorem prerequisite_get_inserted v r0 :
  expand_dedup v = Ok r0 →
  "get_or_raise" ∈ r0 ∨ "delete_by_id" ∈ r0 →
  "get" ∉ r0 →
  validate_methods v = Ok ("get" :: r0)
  ∧ NoDup ("get" :: r0)
  ∧ r0 = dedup_first (filter (λ m, ¬ is_sentinel m) v)
  ∧ r0 `sublist_of` v.
Proof.
  intros Hexp Hdep Hget.
  assert (Hnone : "none" ∉ v).
  { intros Hn. unfold expand_dedup in Hexp.
    rewrite (bool_decide_true _ Hn) in Hexp.
    case_bool_decide; simplify_eq; destruct Hdep as [Hd|Hd];
      by apply not_elem_of_nil in Hd. }
  assert (Hall : "all" ∉ v).
  { intros Ha. rewrite (expand_dedup_all v r0 Ha Hnone Hexp) in Hget.
    apply Hget. compute_done. }
  pose proof (expand_dedup_explicit v r0 Hall Hnone Hexp) as Hr0.
  split_and!.
  - rewrite validate_methods_stages, Hexp. simpl. f_equal.
    unfold insert_prerequisite.
    rewrite (bool_decide_false _ Hget).
    destruct Hdep as [H|H]; rewrite (bool_decide_true _ H); simpl;
      [done|by rewrite orb_true_r].
  - constructor; [done|]. eauto using expand_dedup_NoDup.
  - done.
  - rewrite Hr0. etrans; [apply dedup_first_sublist|apply sublist_filter].
Qed.

(** C5 on a list that asks for [delete_by_id] without [get]. *)
Lemma prerequisite_get_inserted_witness :
  validate_methods ["list"; "delete_by_id"; "list"]
  = Ok ("get" :: ["list"; "delete_by_id"])
  ∧ NoDup ("get" :: ["list"; "delete_by_id"])
  ∧ ["list"; "delete_by_id"]
    = dedup_first
        (filter (λ m, ¬ is_sentinel m) ["list"; "delete_by_id"; "list"])
  ∧ ["list"; "delete_by_id"] `sublist_of` ["list"; "delete_by_id"; "list"].
Proof.
  apply (prerequisite_get_inserted
           ["list"; "delete_by_id"; "list"] ["list"; "delete_by_id"]).
  - vm_compute. reflexivity.
  - right. apply (bool_decide_unpack _). vm_compute. exact I.
  - apply (bool_decide_unpack _). vm_compute. exact I.
Defined.

(** Under Pydantic the literal check of the field runs before the
    validator and stops at the first token outside the literal type. *)
Lemma literal_check_fires_first pre tok post :
  Forall (λ m, m ∈ CrudMethod) pre → tok ∉ CrudMethod →
  ModelConfig_methods (Some (pre ++ tok :: post))
  = Raise (ValidationError (literal_error "methods" tok)).
Proof.
  intros Hpre Htok. unfold ModelConfig_methods.
  assert (check_literals "methods" CrudMethod (pre ++ tok :: post)
          = Raise (ValidationError (literal_error "methods" tok))) as ->;
    [|done].
  induction Hpre as [|m pre Hm _ IH]; simpl.
  - by rewrite (bool_decide_false _ Htok).
  - by rewrite (bool_decide_true _ Hm), IH.
Qed.

(** The validator, called on its own, names the first unknown token. *)
Lemma validate_methods_invalid pre tok post :
  "none" ∉ pre ++ tok :: post →
  Forall (λ m, m ∈ CrudMethod) pre →
  tok ∉ CrudMethod →
  validate_methods (pre ++ tok :: post)
  = Raise (ValueError (ERR_INVALID_METHOD tok)).
Proof.
  intros Hnone Hpre Htok. unfold validate_methods.
  case_bool_decide as Hnil; [by destruct pre|].
  rewrite (bool_decide_false _ Hnone).
  rewrite CrudMethod_known in Htok.
  assert (Hpre' : Forall (λ m, is_sentinel m ∨ m ∈ CRUD_METHODS) pre).
  { eapply Forall_impl; [exact Hpre|]. intros m. by rewrite CrudMethod_known. }
  destruct (bool_decide ("all" ∈ pre ++ tok :: post));
    rewrite methods_loop_invalid; auto.
Qed.

(** Whatever a declaration fails on before its [methods] field, it fails
    with a validation error, and none of a field validator's messages is
    the invalid-method one unless [validate_methods] raised it. *)
Lemma ModelConfig_validate_literal raw tok :
  ModelConfig_methods (raw_methods raw)
  = Raise (ValidationError (literal_error "methods" tok)) →
  ∃ e, ModelConfig_validate raw = Raise (ValidationError e)
       ∧ ∀ m, e ≠ value_error (ERR_INVALID_METHOD m).
Proof.
  intros Hm. unfold ModelConfig_validate, validate_name, validate_import_path.
  destruct (raw_name raw) as [|c rest]; simpl.
  { eexists. split; [done|]. intros m [=]. }
  destruct (Str.is_alpha c); simpl.
  2:{ eexists. split; [done|]. intros m [=]. }
  destruct (Str.split_once ":" (raw_import_path raw)) as [[mod_ cls]|]; simpl.
  - destruct (bool_decide (mod_ = "") || bool_decide (cls = "")); simpl.
    { eexists. split; [done|]. intros m [=]. }
    rewrite Hm. simpl. eexists. split; [done|]. intros m [=].
  - rewrite Hm. simpl. eexists. split; [done|]. intros m [=].
Qed.

(** C6, as the code has it. When the first token outside the vocabulary
    and the sentinels is [tok]: [validate_methods], called on a list
    without [none], raises the error "invalid method: tok"; in a
    declaration the literal type of the [methods] field rejects [tok]
    before the validator runs, with or without [none], so that the
    declaration fails validation, and never with the invalid-method
    message. *)
Theorem invalid_method_named pre tok post :
  Forall (λ m, m ∈ CrudMethod) pre →
  tok ∉ CrudMethod →
  ("none" ∉ pre ++ tok :: post →
   validate_methods (pre ++ tok :: post)
   = Raise (ValueError (ERR_INVALID_METHOD tok)))
  ∧ ModelConfig_methods (Some (pre ++ tok :: post))
    = Raise (ValidationError (literal_error "methods" tok))
  ∧ ∀ raw, raw_methods raw = Some (pre ++ tok :: post) →
      ∃ e, ModelConfig_validate raw = Raise (ValidationError e)
           ∧ ∀ m, e ≠ value_error (ERR_INVALID_METHOD m).
Proof.
  intros Hpre Htok. split_and!.
  - intros Hnone. by apply validate_methods_invalid.
  - by apply literal_check_fires_first.
  - intros raw Hraw. apply (ModelConfig_validate_literal raw tok).
    rewrite Hraw. by apply literal_check_fires_first.
Qed.

(** C6 on a list whose third token is unknown. *)
Lemma invalid_method_named_witness :
  ("none" ∉ ["get"; "all"] ++ "bogus" :: ["fetch"] →
   validate_methods (["get"; "all"] ++ "bogus" :: ["fetch"])
   = Raise (ValueError (ERR_INVALID_METHOD "bogus")))
  ∧ ModelConfig_methods (Some (["get"; "all"] ++ "bogus" :: ["fetch"]))
    = Raise (ValidationError (literal_error "methods" "bogus"))
  ∧ ∀ raw, raw_methods raw = Some (["get"; "all"] ++ "bogus" :: ["fetch"]) →
      ∃ e, ModelConfig_validate raw = Raise (ValidationError e)
           ∧ ∀ m, e ≠ value_error (ERR_INVALID_METHOD m).
Proof.
  apply (invalid_method_named ["get"; "all"] "bogus" ["fetch"]).
  - apply (bool_decide_unpack _). vm_compute. exact I.
  - apply (bool_decide_unpack _). vm_compute. exact I.
Defined.

(** C6, as stated, fails: a declaration whose only operation is outside
    the vocabulary fails on the literal type of the field; the failure is
    not the [ValueError] of [validate_methods] with its invalid-method
    message, which Pydantic would report as a value error. *)
Lemma unknown_method_fails_on_literal_type :
  ModelConfig_validate
    {| raw_name := "User"; raw_import_path := "app.models.user:User";
       raw_id_field := "id"; raw_id_type := "int";
       raw_methods := Some ["bogus"]; raw_personalize_methods := None |}
  = Raise (ValidationError (literal_error "methods" "bogus"))
  ∧ in_validator (validate_methods ["bogus"])
    = Raise (ValidationError (value_error (ERR_INVALID_METHOD "bogus")))
  ∧ ValidationError (literal_error "methods" "bogus")
    ≠ ValidationError (value_error (ERR_INVALID_METHOD "bogus")).
Proof. split_and!; [vm_compute; reflexivity..|discriminate]. Qed.

(** C10. A list in which [none] occurs anywhere normalises to the empty
    list, whatever else it holds; so does the [methods] field of every
    declaration that validation accepts. *)
Theorem none_dominates v :
  "none" ∈ v →
  validate_methods v = Ok []
  ∧ ∀ r, ModelConfig_methods (Some v) = Ok r → r = [].
Proof.
  intros Hnone.
  assert (Hv : validate_methods v = Ok []).
  { unfold validate_methods. case_bool_decide; [done|].
    by rewrite (bool_decide_true _ Hnone). }
  split; [done|]. intros r. unfold ModelConfig_methods.
  destruct (check_literals _ _ v) as [v'|] eqn:E; simpl; [|done].
  apply check_literals_Ok in E as ->. rewrite Hv. simpl. congruence.
Qed.

(** C10 on a list that mixes [all], an operation and [none]. *)
Lemma none_dominates_witness :
  validate_methods ["all"; "get"; "none"] = Ok []
  ∧ ∀ r, ModelConfig_methods (Some ["all"; "get"; "none"]) = Ok r → r = [].
Proof.
  apply (none_dominates ["all"; "get"; "none"]).
  apply (bool_decide_unpack _). vm_compute. exact I.
Defined.

End methods.

(** ** Import locators ([validate_import_path]) *)

Section import_path.

Lemma split_once_has_char c s :
  Str.split_once c s = None ↔ Str.has_char c s = false.
Proof.
  induction s as [|d s IH]; simpl; [done|].
  destruct (Ascii.eqb c d); [done|].
  destruct (Str.split_once c s) as [[a b]|]; rewrite <-IH; done.
Qed.

(** A locator with the separator is accepted exactly when both segments
    are non-empty, and is refused with the import-path error otherwise. *)
Lemma validate_import_path_separator v mod_ cls_name :
  Str.split_once ":" v = Some (mod_, cls_name) →
  validate_import_path v
  = if bool_decide (mod_ ≠ "" ∧ cls_name ≠ "") then Ok v
    else Raise (ValueError ERR_IMPORT_PATH_CLASS).
Proof.
  intros H. unfold validate_import_path. rewrite H.
  repeat case_bool_decide; simpl; try done; tauto.
Qed.

(** A locator without the separator is accepted whatever the entry is. *)
Lemma validate_import_path_bare v :
  Str.has_char ":" v = false → validate_import_path v = Ok v.
Proof.
  intros H. unfold validate_import_path.
  by rewrite (proj2 (split_once_has_char _ _) H).
Qed.

(** C8, where the code departs from the claim: an ordinary declaration
    named [User] with the bare locator [app.models] passes validation. *)
Theorem bare_locator_accepted_for_explicit_model :
  validate_import_path "app.models" = Ok "app.models"
  ∧ ModelConfig_validate
      {| raw_name := "User"; raw_import_path := "app.models";
         raw_id_field := "id"; raw_id_type := "int";
         raw_methods := None; raw_personalize_methods := None |}
    = Ok {| name := "User"; import_path := "app.models";
            id_field := "id"; id_type := "int";
            methods := DEFAULT_METHODS; personalize_methods := [] |}.
Proof. split; vm_compute; reflexivity. Qed.

(** The accepted declaration is not usable: rendering its repository
    raises while unpacking the locator. *)
Example bare_locator_breaks_rendering :
  _render_repo Sample.toy_world
    {| name := "User"; import_path := "app.models";
       id_field := "id"; id_type := "int";
       methods := DEFAULT_METHODS; personalize_methods := [] |}
    TPL_STANDALONE_SQLMODEL "none" false
  = Raise unpack_error.
Proof. reflexivity. Qed.

End import_path.

(** ** The [models] field in [load_config] *)

Section load_config.

Example load_config_all :
  load_config "genrepo.yaml" (Some (Sample.minimal_document (YStr " All ")))
  = Ok {| orm := "sqlmodel"; async_mode := false; output_dir := "out";
          models := []; models_dir := Some "app/models";
          models_package := Some "app.models"; discover_all := true;
          commit_strategy := "none"; allow_missing_models := false;
          generation :=
            {| mode := Standalone; base_filename := "base_repository.py";
               base_class_name := "BaseRepository";
               overwrite_base := false; stub_only := false |} |}.
Proof. vm_compute. reflexivity. Qed.



Lemma wrap_validation_Ok {A} (r : outcome A) a :
  wrap_validation r = Ok a → r = Ok a.
Proof. by destruct r as [|[]]. Qed.

Lemma in_validator_Ok {A} (r : outcome A) a :
  in_validator r = Ok a → r = Ok a.
Proof. by destruct r as [|[]]. Qed.






End load_config.

(** ** Name transforms *)

Example to_snake_pascal_case :
  to_snake "UserProfile" = "user_profile" ∧ to_snake "User" = "user"
  ∧ to_snake "HTTPLog" = "h_t_t_p_log".
Proof. repeat split; reflexivity. Qed.

Example to_pascal_snake_case :
  to_pascal "user_profile" = "UserProfile" ∧ to_pascal "foo-bar__baz" = "FooBarBaz"
  ∧ to_pascal "_" = "".
Proof. repeat split; reflexivity. Qed.

Example stem_of_file_names :
  Str.stem "user.py" = "user" ∧ Str.stem "a.b.py" = "a.b"
  ∧ Str.stem ".py" = ".py".
Proof. repeat split; reflexivity. Qed.

(** ** Text read in text mode *)

Section newlines.

(** No carriage return is left in what is read. *)
Lemma universal_newlines_no_cr s :
  Str.has_char Str.CR (Str.universal_newlines s) = false.
Proof.
  assert (H : ∀ n s, (String.length s ≤ n)%nat →
            Str.has_char Str.CR (Str.universal_newlines s) = false).
  { clear s. induction n as [|n IH]; intros [|c s] Hlen; simpl in *;
      try done; try lia.
    destruct (Ascii.eqb c Str.CR) eqn:Ec.
    - destruct s as [|d s]; [done|]. simpl in Hlen.
      destruct (Ascii.eqb d Str.LF) eqn:Ed; simpl.
      + apply IH. lia.
      + apply (IH (String d s)). simpl. lia.
    - cbn [Str.has_char]. rewrite (Ascii.eqb_sym Str.CR c), Ec.
      apply IH. lia. }
  by apply (H (String.length s)).
Qed.

(** A text without carriage return is read as it is. *)
Lemma universal_newlines_id s :
  Str.has_char Str.CR s = false → Str.universal_newlines s = s.
Proof.
  induction s as [|c s IH]; cbn [Str.has_char Str.universal_newlines];
    [done|].
  rewrite (Ascii.eqb_sym c Str.CR).
  destruct (Ascii.eqb Str.CR c); [done|]. intros H. by rewrite IH.
Qed.

Lemma universal_newlines_idemp s :
  Str.universal_newlines (Str.universal_newlines s)
  = Str.universal_newlines s.
Proof. apply universal_newlines_id, universal_newlines_no_cr. Qed.

End newlines.

(** ** The file system *)

Section filesystem.

Implicit Types fs : filesystem.

Lemma lookup_set_file fs path e : set_file fs path e !! path = Some e.
Proof. apply lookup_insert_eq. Qed.

Lemma lookup_set_file_ne fs path e p :
  p ≠ path → set_file fs path e !! p = fs !! p.
Proof. intros H. by apply lookup_insert_ne. Qed.

Lemma lookup_remove_file fs path : remove_file fs path !! path = None.
Proof. apply lookup_delete_eq. Qed.

Lemma lookup_remove_file_ne fs path p :
  p ≠ path → remove_file fs path !! p = fs !! p.
Proof. intros H. by apply lookup_delete_ne. Qed.

Lemma path_exists_file fs path :
  is_Some (fs !! path) → path_exists fs path = true.
Proof.
  intros H. unfold path_exists. by rewrite bool_decide_true.
Qed.

Lemma path_exists_dir fs path :
  is_dir fs path = true → path_exists fs path = true.
Proof. intros H. unfold path_exists. rewrite H. apply orb_true_r. Qed.

Lemma path_exists_true fs path :
  path_exists fs path = true ↔ is_Some (fs !! path) ∨ is_dir fs path = true.
Proof.
  unfold path_exists. by rewrite orb_true_iff, bool_decide_eq_true.
Qed.

Lemma path_exists_false fs path :
  path_exists fs path = false ↔ fs !! path = None ∧ is_dir fs path = false.
Proof.
  unfold path_exists.
  by rewrite orb_false_iff, bool_decide_eq_false, eq_None_not_Some.
Qed.

Lemma read_text_exists fs path current :
  read_text fs path = Some current → path_exists fs path = true.
Proof.
  unfold read_text. intros H. apply path_exists_file.
  destruct (fs !! path); [eauto|done].
Qed.

End filesystem.

(** ** The decision function ([_classify_file]) *)

Section classify.

Implicit Types fs : filesystem.

(** C2, as the code has it. The five rows of the decision table: a path
    that does not exist is written with reason [create], whatever the
    overwrite flag; an existing path, file or directory, is skipped with
    [exists-no-overwrite] when overwriting is not allowed; when it is
    allowed, a path that cannot be read and a path whose text, as read,
    differs from the proposed content are written with [overwrite], and a
    path whose text, as read, is the proposed content is skipped with
    [up-to-date]. *)
Theorem classify_decision_table fs path content overwrite :
  (path_exists fs path = false →
     _classify_file fs path content overwrite
     = {| fp_path := path; fp_exists := false; fp_would_write := true;
          fp_overwrite := overwrite; fp_reason := Some "create" |})
  ∧ (path_exists fs path = true →
     _classify_file fs path content false
     = {| fp_path := path; fp_exists := true; fp_would_write := false;
          fp_overwrite := false; fp_reason := Some "exists-no-overwrite" |})
  ∧ (path_exists fs path = true → read_text fs path = None →
     _classify_file fs path content true
     = {| fp_path := path; fp_exists := true; fp_would_write := true;
          fp_overwrite := true; fp_reason := Some "overwrite" |})
  ∧ (∀ current, read_text fs path = Some current → current ≠ content →
     _classify_file fs path content true
     = {| fp_path := path; fp_exists := true; fp_would_write := true;
          fp_overwrite := true; fp_reason := Some "overwrite" |})
  ∧ (read_text fs path = Some content →
     _classify_file fs path content true
     = {| fp_path := path; fp_exists := true; fp_would_write := false;
          fp_overwrite := true; fp_reason := Some "up-to-date" |}).
Proof.
  unfold _classify_file. split_and!.
  - by intros ->.
  - by intros ->.
  - by intros -> ->.
  - intros current Hr Hne. rewrite (read_text_exists _ _ _ Hr), Hr. simpl.
    by rewrite bool_decide_false.
  - intros Hr. rewrite (read_text_exists _ _ _ Hr), Hr. simpl.
    by rewrite bool_decide_true.
Qed.

(** C2 on an existing file whose text differs. *)
Lemma classify_decision_table_witness :
  _classify_file (Sample.tree [("/out/a.py", File "old")] []) "/out/a.py"
    "new" true
  = {| fp_path := "/out/a.py"; fp_exists := true; fp_would_write := true;
       fp_overwrite := true; fp_reason := Some "overwrite" |}.
Proof.
  apply (classify_decision_table
           (Sample.tree [("/out/a.py", File "old")] []) "/out/a.py" "new" true)
    with (current := "old").
  - vm_compute. reflexivity.
  - discriminate.
Defined.

(** C2, as stated, fails: a file that holds exactly the proposed content
    is not found up to date when that content has a carriage return,
    which is read back as a line feed. *)
Lemma carriage_return_is_never_up_to_date :
  Sample.tree [("/out/a.py", File (String Str.CR "x"))] [] !! "/out/a.py"
  = Some (File (String Str.CR "x"))
  ∧ _classify_file (Sample.tree [("/out/a.py", File (String Str.CR "x"))] [])
      "/out/a.py" (String Str.CR "x") true
    = {| fp_path := "/out/a.py"; fp_exists := true; fp_would_write := true;
         fp_overwrite := true; fp_reason := Some "overwrite" |}.
Proof. split; vm_compute; reflexivity. Qed.

Lemma classify_path fs path content overwrite :
  fp_path (_classify_file fs path content overwrite) = path.
Proof.
  unfold _classify_file. destruct (negb _); [done|].
  destruct (negb overwrite); [done|].
  destruct (read_text fs path); [|done]. by case_bool_decide.
Qed.



End classify.
(** ** Discovery and resolution ([ModelResolver.resolve]) *)

Section resolve.

Implicit Types fs : filesystem.
Implicit Types ms models : list ModelConfig.







Lemma remove_first_absent m pre rest :
  m ∉ pre → remove_first m (pre ++ m :: rest) = pre ++ rest.
Proof.
  induction pre as [|x pre IH]; simpl; intros Hm.
  - by rewrite bool_decide_true.
  - apply not_elem_of_cons in Hm as [Hne Hm].
    rewrite bool_decide_false by done. by rewrite IH.
Qed.

(** The first loop keeps the explicit declarations in order, records
    their names, and remembers the last wildcard entry. *)
Lemma separate_loop_spec snapshot pre ebn wc :
  Forall (λ m, is_wildcard m = false) pre →
  ∃ wc',
    separate_loop snapshot (pre ++ snapshot) ebn wc
    = (pre ++ filter (λ m, is_wildcard m = false) snapshot,
       foldl (λ acc m, <[name m := m]> acc) ebn
         (filter (λ m, is_wildcard m = false) snapshot),
       wc')
    ∧ (is_Some wc' ↔ is_Some wc ∨ ∃ m, m ∈ snapshot ∧ is_wildcard m = true).
Proof.
  revert pre ebn wc.
  induction snapshot as [|m rest IH]; intros pre ebn wc Hpre; simpl.
  - exists wc. split; [reflexivity|].
    split; [auto|]. intros [|(m & Hm & _)]; [done|].
    by apply not_elem_of_nil in Hm.
  - destruct (is_wildcard m) eqn:Ew.
    + rewrite remove_first_absent.
      2:{ intros Hin. rewrite Forall_forall in Hpre.
          specialize (Hpre _ Hin). congruence. }
      destruct (IH pre ebn (Some m) Hpre) as (wc' & -> & Hwc).
      exists wc'. rewrite filter_cons_False by congruence.
      split; [done|]. rewrite Hwc. split; [|intros _; left; eauto].
      intros _. right. exists m. split; [constructor|done].
    + assert (Hpre' : Forall (λ m, is_wildcard m = false) (pre ++ [m])).
      { apply Forall_app. split; [done|]. by constructor. }
      destruct (IH (pre ++ [m]) (<[name m := m]> ebn) wc Hpre')
        as (wc' & Heq & Hwc).
      rewrite <-app_assoc in Heq. simpl in Heq. rewrite Heq.
      exists wc'. rewrite filter_cons_True by done. simpl.
      rewrite <-app_assoc. split; [done|]. rewrite Hwc.
      split; intros [?|(m' & Hm' & Hw)]; auto; right; exists m'.
      * split; [by constructor|done].
      * apply elem_of_cons in Hm' as [->|?]; [congruence|done].
Qed.


Lemma ModelConfig_validate_name raw m :
  ModelConfig_validate raw = Ok m → name m = raw_name raw.
Proof.
  unfold ModelConfig_validate. intros H.
  destruct (in_validator (validate_name _)) as [n|] eqn:En; simpl in H;
    [|done].
  destruct (in_validator (validate_import_path _)); simpl in H; [|done].
  destruct (ModelConfig_methods _); simpl in H; [|done].
  destruct (raw_personalize_methods raw); simpl in H; simplify_eq; simpl.
  all: apply in_validator_Ok in En; unfold validate_name in En;
    destruct (raw_name raw) as [|c r]; [done|];
    destruct (Str.is_alpha c); by simplify_eq.
Qed.


(** The resolver reads the file system through the listing only. *)
Lemma resolve_same_listing w fs fs' cfg project_root :
  glob_py fs (discovery_dir w cfg project_root)
  = glob_py fs' (discovery_dir w cfg project_root) →
  resolve w fs cfg project_root = resolve w fs' cfg project_root.
Proof.
  intros Hls. unfold resolve, discovery_dir in *.
  destruct (separate_loop _ _ _ _) as [[ms ebn] wc].
  destruct (discover_all cfg || bool_decide (is_Some wc)); [|done].
  by rewrite Hls.
Qed.

(** Without discovery it does not read the file system at all. *)
Lemma resolve_without_discovery w fs fs' cfg project_root :
  ¬ discovery_enabled cfg →
  resolve w fs cfg project_root = resolve w fs' cfg project_root.
Proof.
  intros Hoff. unfold resolve.
  destruct (separate_loop_spec (models cfg) [] ∅ None) as (wc & Hsep & Hwc);
    [constructor|].
  simpl in Hsep. rewrite Hsep.
  assert (discover_all cfg || bool_decide (is_Some wc) = false) as ->; [|done].
  apply orb_false_iff. split.
  - destruct (discover_all cfg) eqn:E; [|done]. destruct Hoff. by left.
  - apply bool_decide_eq_false. intros Hs. apply Hoff. right.
    apply Hwc in Hs as [Hs|Hs]; [by destruct Hs|done].
Qed.

End resolve.


(** ** Path texts *)

Section paths.

Lemma append_nonempty s t : t ≠ "" → s +:+ t ≠ "".
Proof. destruct s; [by rewrite append_nil_l|by rewrite append_cons]. Qed.

Lemma append_nil_r s : s +:+ "" = s.
Proof. induction s as [|c s IH]; [done|]. by rewrite append_cons, IH. Qed.

Lemma append_length a b :
  String.length (a +:+ b) = (String.length a + String.length b)%nat.
Proof.
  induction a as [|c a IH]; [done|].
  rewrite append_cons. simpl. by rewrite IH.
Qed.

Lemma append_inj_r a b s : a +:+ s = b +:+ s → a = b.
Proof.
  revert b. induction a as [|c a IH]; intros [|d b] H; [done| | |].
  - apply (f_equal String.length) in H.
    rewrite append_nil_l, append_cons in H. simpl in H.
    rewrite append_length in H. lia.
  - apply (f_equal String.length) in H.
    rewrite append_nil_l, append_cons in H. simpl in H.
    rewrite append_length in H. lia.
  - rewrite !append_cons in H. simplify_eq. f_equal. by apply IH.
Qed.

Lemma append_inj_l a s t : a +:+ s = a +:+ t → s = t.
Proof.
  induction a as [|c a IH]; [by rewrite !append_nil_l|].
  rewrite !append_cons. intros [=]. auto.
Qed.

Lemma last_char_append s t :
  t ≠ "" → Str.last_char (s +:+ t) = Str.last_char t.
Proof.
  intros Ht. induction s as [|c s IH]; [done|].
  rewrite append_cons. simpl. rewrite IH.
  pose proof (append_nonempty s t Ht). by destruct (s +:+ t).
Qed.

Lemma last_char_tmp path : Str.last_char (path +:+ ".tmp") = Some "p"%char.
Proof. by rewrite last_char_append. Qed.

Lemma not_a_tmp path q :
  Str.last_char path = Some "y"%char → path ≠ q +:+ ".tmp".
Proof. intros Hy ->. by rewrite last_char_tmp in Hy. Qed.

Lemma tmp_inj p q : p +:+ ".tmp" = q +:+ ".tmp" → p = q.
Proof. apply append_inj_r. Qed.

Lemma tmp_ne p : p ≠ p +:+ ".tmp".
Proof.
  intros H. apply (f_equal String.length) in H.
  rewrite append_length in H. simpl in H. lia.
Qed.

Lemma has_char_append c s t :
  Str.has_char c (s +:+ t) = Str.has_char c s || Str.has_char c t.
Proof.
  induction s as [|d s IH]; [by rewrite append_nil_l|].
  rewrite append_cons. simpl. by destruct (Ascii.eqb c d).
Qed.

(** *** Splitting at a separator *)

Lemma split_all_nonempty c s : Str.split_all c s ≠ [].
Proof.
  destruct s as [|d s]; simpl; [done|].
  destruct (Ascii.eqb c d); [done|]. by destruct (Str.split_all c s).
Qed.

Lemma split_all_no_sep c s :
  Str.has_char c s = false → Str.split_all c s = [s].
Proof.
  induction s as [|d s IH]; simpl; [done|].
  destruct (Ascii.eqb c d); [done|]. intros H. by rewrite IH.
Qed.

Lemma split_all_app c p s :
  Str.has_char c p = false →
  Str.split_all c (p +:+ String c s) = p :: Str.split_all c s.
Proof.
  induction p as [|d p IH]; cbn [Str.has_char].
  - intros _. rewrite append_nil_l. simpl. by rewrite Ascii.eqb_refl.
  - destruct (Ascii.eqb c d) eqn:E; [done|]. intros H.
    rewrite append_cons. simpl. by rewrite E, IH.
Qed.

Lemma split_all_pieces c s :
  Forall (λ x, Str.has_char c x = false) (Str.split_all c s).
Proof.
  induction s as [|d s IH]; simpl; [by repeat constructor|].
  destruct (Ascii.eqb c d) eqn:E; [by constructor|].
  destruct (Str.split_all c s) as [|p ps]; [by repeat constructor; simpl; rewrite E|].
  apply Forall_cons in IH as [Hp Hps]. constructor; [|done].
  simpl. by rewrite E.
Qed.

(** The last piece carries the last character. *)
Lemma split_all_last c s d :
  Str.last_char s = Some d → d ≠ c →
  ∃ piece, last (Str.split_all c s) = Some piece
           ∧ Str.last_char piece = Some d.
Proof.
  induction s as [|e s IH]; [done|]. intros Hl Hd.
  destruct s as [|e' s'].
  - simpl in Hl. simplify_eq. simpl.
    destruct (Ascii.eqb_spec c d) as [->|_]; [done|]. by eexists.
  - assert (Hl' : Str.last_char (String e' s') = Some d) by done.
    destruct (IH Hl' Hd) as (piece & Hlast & Hpiece).
    change (Str.split_all c (String e (String e' s')))
      with (if Ascii.eqb c e then "" :: Str.split_all c (String e' s')
            else match Str.split_all c (String e' s') with
                 | p :: ps => String e p :: ps
                 | [] => [String e ""]
                 end).
    destruct (Ascii.eqb c e).
    + exists piece. split; [|done].
      destruct (Str.split_all c (String e' s')); [done|]. done.
    + destruct (Str.split_all c (String e' s')) as [|p [|p' ps]];
        [done| |].
      * simpl in Hlast. simplify_eq. exists (String e piece).
        split; [done|]. simpl. by destruct piece.
      * exists piece. split; [|done]. done.
Qed.

(** *** Components *)

Lemma parts_clean s : Forall clean_part (Path.parts s).
Proof.
  unfold Path.parts. apply Forall_forall. intros c Hc.
  apply list_elem_of_filter in Hc as [Hc Hin]. split; [done|].
  pose proof (split_all_pieces "/" s) as Hp.
  rewrite Forall_forall in Hp. by apply Hp.
Qed.

Lemma join_parts_cons p ps :
  ps ≠ [] → Path.join_parts (p :: ps) = p +:+ "/" +:+ Path.join_parts ps.
Proof. by destruct ps. Qed.

Lemma join_parts_snoc l x :
  Path.join_parts (l ++ [x])
  = (if l is [] then "" else Path.join_parts l +:+ "/") +:+ x.
Proof.
  induction l as [|p l IH]; [by rewrite append_nil_l|].
  rewrite <-app_comm_cons, join_parts_cons by (by destruct l).
  rewrite IH. destruct l as [|q l]; simpl.
  - by rewrite append_nil_l, !append_assoc.
  - by rewrite !append_assoc.
Qed.

Lemma split_join_parts ps :
  ps ≠ [] → Forall (λ c, Str.has_char "/" c = false) ps →
  Str.split_all "/" (Path.join_parts ps) = ps.
Proof.
  induction ps as [|p ps IH]; [done|]. intros _ Hps.
  apply Forall_cons in Hps as [Hp Hps].
  destruct ps as [|q ps]; [by apply split_all_no_sep|].
  rewrite join_parts_cons by done.
  change ("/" +:+ Path.join_parts (q :: ps))
    with (String "/" (Path.join_parts (q :: ps))).
  rewrite split_all_app by done. f_equal. by apply IH.
Qed.

Lemma filter_clean ps :
  Forall clean_part ps → filter (λ c, c ≠ "" ∧ c ≠ ".") ps = ps.
Proof.
  intros H. apply filter_every. eapply Forall_impl; [exact H|].
  by intros c [? _].
Qed.

Lemma parts_join_parts ps :
  Forall clean_part ps → Path.parts (Path.join_parts ps) = ps.
Proof.
  intros H. unfold Path.parts. destruct ps as [|p ps]; [done|].
  rewrite split_join_parts; [by apply filter_clean|done|].
  eapply Forall_impl; [exact H|]. by intros c [_ ?].
Qed.

Lemma root_cases s : Path.root s ∈ [""; "/"; "//"].
Proof.
  unfold Path.root. destruct (_ && _); [set_solver|].
  destruct (Str.startswith "/" s); set_solver.
Qed.

Lemma join_parts_first ps c rest :
  Forall clean_part ps → Path.join_parts ps = String c rest → c ≠ "/"%char.
Proof.
  destruct ps as [|p ps]; [done|]. intros Hps.
  apply Forall_cons in Hps as [[[Hne _] Hp] _].
  destruct p as [|d p]; [done|]. cbn [Str.has_char] in Hp.
  destruct (Ascii.eqb_spec "/" d) as [|Hd]; [done|].
  destruct ps; simpl; [|rewrite append_cons]; intros [=]; by subst.
Qed.

Lemma root_relative c rest : c ≠ "/"%char → Path.root (String c rest) = "".
Proof.
  intros Hc. unfold Path.root, Str.startswith. cbn [String.prefix].
  by destruct (ascii_dec "/" c).
Qed.

Lemma root_one c rest :
  c ≠ "/"%char → Path.root ("/" +:+ String c rest) = "/".
Proof.
  intros Hc. unfold Path.root, Str.startswith.
  rewrite append_cons, append_nil_l. cbn [String.prefix].
  destruct (ascii_dec "/" "/"); [|done]. by destruct (ascii_dec "/" c).
Qed.

Lemma root_two c rest :
  c ≠ "/"%char → Path.root ("//" +:+ String c rest) = "//".
Proof.
  intros Hc. unfold Path.root, Str.startswith.
  rewrite !append_cons, append_nil_l. cbn [String.prefix].
  destruct (ascii_dec "/" "/"); [|done]. by destruct (ascii_dec "/" c).
Qed.

Lemma parts_cons_slash s : Path.parts (String "/" s) = Path.parts s.
Proof.
  unfold Path.parts. cbn [Str.split_all]. rewrite Ascii.eqb_refl.
  by rewrite filter_cons_False by naive_solver.
Qed.

(** The text of a path gives back its root and its components. *)
Lemma make_inv r ps :
  r ∈ [""; "/"; "//"] → Forall clean_part ps →
  Path.root (Path.make r ps) = r ∧ Path.parts (Path.make r ps) = ps.
Proof.
  intros Hr Hps.
  assert (r = "" ∨ r = "/" ∨ r = "//") as Hr' by set_solver. clear Hr.
  destruct (Path.join_parts ps) as [|c rest] eqn:Ej.
  - (* no component *)
    assert (ps = []) as ->.
    { destruct ps as [|p ps]; [done|].
      apply Forall_cons in Hps as [[[Hne _] _] _].
      destruct ps; simpl in Ej; [done|].
      destruct p; [done|]. by rewrite append_cons in Ej. }
    by destruct Hr' as [->|[->| ->]]; vm_compute.
  - pose proof (join_parts_first ps c rest Hps Ej) as Hc.
    assert (Hsplit : Path.parts (String c rest) = ps).
    { rewrite <-Ej. by apply parts_join_parts. }
    assert (Hps' : ps ≠ []) by (by intros ->).
    destruct Hr' as [->|[->| ->]].
    + unfold Path.make. destruct ps; [done|]. rewrite Ej. split; [|done].
      by apply root_relative.
    + unfold Path.make. rewrite Ej. split; [by apply root_one|].
      by rewrite append_cons, append_nil_l, parts_cons_slash.
    + unfold Path.make. rewrite Ej. split; [by apply root_two|].
      by rewrite !append_cons, append_nil_l, !parts_cons_slash.
Qed.

Lemma parts_make r ps :
  r ∈ [""; "/"; "//"] → Forall clean_part ps →
  Path.parts (Path.make r ps) = ps.
Proof. intros. by apply make_inv. Qed.

Lemma root_make r ps :
  r ∈ [""; "/"; "//"] → Forall clean_part ps →
  Path.root (Path.make r ps) = r.
Proof. intros. by apply make_inv. Qed.

Lemma is_absolute_root s :
  Path.is_absolute s = negb (bool_decide (Path.root s = "")).
Proof.
  unfold Path.is_absolute, Path.root.
  destruct (_ && _) eqn:E.
  - apply andb_true_iff in E as [E _]. unfold Str.startswith in *.
    destruct s as [|c s]; [done|]. cbn [String.prefix] in *.
    destruct (ascii_dec "/" c); [by destruct s|done].
  - by destruct (Str.startswith "/" s).
Qed.

Lemma root_of_string s : Path.root (Path.of_string s) = Path.root s.
Proof. apply root_make; auto using root_cases, parts_clean. Qed.

Lemma parts_of_string s : Path.parts (Path.of_string s) = Path.parts s.
Proof. apply parts_make; auto using root_cases, parts_clean. Qed.

Lemma of_string_idemp s : Path.of_string (Path.of_string s) = Path.of_string s.
Proof.
  unfold Path.of_string at 1. by rewrite root_of_string, parts_of_string.
Qed.

(** [a / Path(b)] is [a / b]. *)
Lemma join_of_string a b :
  Path.join a (Path.of_string b) = Path.join a b.
Proof.
  unfold Path.join. rewrite !is_absolute_root, root_of_string.
  destruct (negb _).
  - apply of_string_idemp.
  - by rewrite parts_of_string.
Qed.

Lemma last_filter_snoc {A} (P : A → Prop) `{!∀ x, Decision (P x)} l x :
  last l = Some x → P x → last (filter P l) = Some x.
Proof.
  intros Hl Hx. apply last_Some in Hl as [l' ->].
  by rewrite filter_app, filter_cons_True, filter_nil, last_snoc.
Qed.

Lemma last_char_make r l x :
  x ≠ "" → Str.last_char (Path.make r (l ++ [x])) = Str.last_char x.
Proof.
  intros Hx.
  assert (Path.make r (l ++ [x]) = r +:+ Path.join_parts (l ++ [x])) as ->.
  { unfold Path.make. destruct r; [|done]. by destruct l. }
  rewrite join_parts_snoc, <-append_assoc.
  by apply last_char_append.
Qed.

(** The last character of the right operand is the last character of the
    joined path. *)
Lemma last_char_join a b c :
  Str.last_char b = Some c → c ≠ "/"%char → c ≠ "."%char →
  Str.last_char (Path.join a b) = Some c.
Proof.
  intros Hb Hs Hd.
  destruct (split_all_last "/" b c Hb Hs) as (piece & Hlast & Hpiece).
  assert (Hparts : last (Path.parts b) = Some piece).
  { apply last_filter_snoc; [done|]. split; intros ->; [done|].
    simpl in Hpiece. by simplify_eq. }
  apply last_Some in Hparts as [qs Hqs].
  assert (Hne : piece ≠ "") by (by intros ->).
  unfold Path.join, Path.of_string. rewrite Hqs.
  destruct (Path.is_absolute b).
  - by rewrite last_char_make.
  - by rewrite app_assoc, last_char_make.
Qed.

(** Every per-model file and the package marker end in [y], every
    temporary sibling in [p]. *)
Lemma model_path_last cfg project_root model :
  Str.last_char (model_path_of cfg project_root model) = Some "y"%char.
Proof.
  apply last_char_join; [|done..]. by rewrite last_char_append.
Qed.

Lemma init_file_last cfg project_root :
  Str.last_char (init_file_of cfg project_root) = Some "y"%char.
Proof. by apply last_char_join. Qed.

End paths.
(** ** The executor's writes *)

Section writes.

Implicit Types fs : filesystem.

#[local] Arguments Path.join : simpl never.

Lemma is_dir_mono fs fs' p :
  fs_dirs fs ⊆ fs_dirs fs' → is_dir fs p = true → is_dir fs' p = true.
Proof.
  unfold is_dir. intros Hsub. rewrite !orb_true_iff, !bool_decide_eq_true.
  intros [?|?]; [left|by right]. by apply Hsub.
Qed.



Lemma path_exists_mono fs fs' p :
  (is_Some (fs !! p) → is_Some (fs' !! p)) → fs_dirs fs ⊆ fs_dirs fs' →
  path_exists fs p = true → path_exists fs' p = true.
Proof.
  intros Hf Hd. rewrite !path_exists_true.
  intros [?|?]; [left; auto|right]. by apply (is_dir_mono fs).
Qed.

Lemma mkdir_inv fs d fs' :
  mkdir fs d = Ok fs' →
  fs_files fs' = fs_files fs ∧ fs_dirs fs ⊆ fs_dirs fs'
  ∧ is_dir fs' d = true.
Proof.
  unfold mkdir. destruct (is_dir fs d) eqn:Ed.
  { intros [= <-]. done. }
  case_bool_decide; [done|]. destruct (filter _ _); [|done].
  intros [= <-]. simpl. split_and!; [done|set_solver|].
  unfold is_dir. simpl. rewrite bool_decide_true by set_solver. done.
Qed.

Lemma mkdir_lookup fs d fs' p : mkdir fs d = Ok fs' → fs' !! p = fs !! p.
Proof.
  intros H. apply mkdir_inv in H as (Hf & _).
  unfold lookup, filesystem_lookup. by rewrite Hf.
Qed.

Lemma mkdir_present fs d : is_dir fs d = true → mkdir fs d = Ok fs.
Proof. intros H. unfold mkdir. by rewrite H. Qed.

(** What a call of [write] that returns has done. *)
Lemma write_inv fs path content overwrite fs' b :
  write fs path content overwrite = (fs', Ok b) →
  (b = false ∧ fs' = fs ∧ path_exists fs path = true ∧ overwrite = false)
  ∨ (b = true ∧ path_exists fs path && negb overwrite = false
     ∧ ∃ fs1,
         mkdir fs (Path.parent path) = Ok fs1
         ∧ fs' = set_file
                   (remove_file
                      (set_file fs1 (path +:+ ".tmp") (File content))
                      (path +:+ ".tmp"))
                   path (File content)).
Proof.
  unfold write. destruct (path_exists fs path && negb overwrite) eqn:E.
  { intros [= <- <-]. left. apply andb_true_iff in E as [? E].
    by apply negb_true_iff in E. }
  destruct (mkdir fs (Path.parent path)) as [fs1|] eqn:Em; [|done].
  case_bool_decide; [done|].
  destruct (is_dir fs1 (path +:+ ".tmp")); [done|].
  destruct (is_dir (set_file fs1 _ _) path); [done|].
  intros [= <- <-]. right. split_and!; [done..|]. by exists fs1.
Qed.

Lemma write_result fs path content overwrite fs' b :
  write fs path content overwrite = (fs', Ok b) →
  b = negb (path_exists fs path && negb overwrite).
Proof.
  intros H. apply write_inv in H as [(-> & _ & -> & ->)|(-> & -> & _)]; done.
Qed.

Lemma write_skipped fs path content overwrite fs' :
  write fs path content overwrite = (fs', Ok false) → fs' = fs.
Proof. intros H. by apply write_inv in H as [(_ & -> & _)|(? & _)]. Qed.

(** A write leaves every other file alone, except its temporary
    sibling. *)
Lemma write_lookup_other fs path content overwrite fs' b p :
  write fs path content overwrite = (fs', Ok b) →
  p ≠ path → p ≠ path +:+ ".tmp" → fs' !! p = fs !! p.
Proof.
  intros H Hp Htmp.
  apply write_inv in H as [(_ & -> & _)|(_ & _ & fs1 & Hm & ->)]; [done|].
  rewrite lookup_set_file_ne, lookup_remove_file_ne, lookup_set_file_ne
    by done.
  by apply (mkdir_lookup fs (Path.parent path)).
Qed.

Lemma write_lookup_target fs path content overwrite fs' :
  write fs path content overwrite = (fs', Ok true) →
  fs' !! path = Some (File content).
Proof.
  intros H. apply write_inv in H as [(? & _)|(_ & _ & fs1 & Hm & ->)];
    [done|].
  apply lookup_set_file.
Qed.

Lemma write_tmp_gone fs path content overwrite fs' :
  write fs path content overwrite = (fs', Ok true) →
  fs' !! (path +:+ ".tmp") = None.
Proof.
  intros H. apply write_inv in H as [(? & _)|(_ & _ & fs1 & Hm & ->)];
    [done|].
  rewrite lookup_set_file_ne by (intros E; by apply (tmp_ne path)).
  apply lookup_remove_file.
Qed.

Lemma write_dirs fs path content overwrite fs' b :
  write fs path content overwrite = (fs', Ok b) → fs_dirs fs ⊆ fs_dirs fs'.
Proof.
  intros H. apply write_inv in H as [(_ & -> & _)|(_ & _ & fs1 & Hm & ->)];
    [done|].
  apply mkdir_inv in Hm as (_ & Hsub & _). done.
Qed.

Lemma write_target_exists fs path content overwrite fs' b :
  write fs path content overwrite = (fs', Ok b) →
  path_exists fs' path = true.
Proof.
  intros H. destruct b.
  - apply path_exists_file. rewrite (write_lookup_target _ _ _ _ _ H). eauto.
  - by apply write_inv in H as [(_ & -> & ? & _)|(? & _)].
Qed.

(** A file that is no temporary sibling of the target stays a file. *)
Lemma write_survives fs path content overwrite fs' b p :
  write fs path content overwrite = (fs', Ok b) →
  p ≠ path +:+ ".tmp" → is_Some (fs !! p) → is_Some (fs' !! p).
Proof.
  intros H Hp Hs. destruct (decide (p = path)) as [->|Hne].
  - destruct b.
    + rewrite (write_lookup_target _ _ _ _ _ H). eauto.
    + by rewrite (write_skipped _ _ _ _ _ H).
  - by rewrite (write_lookup_other _ _ _ _ _ _ _ H).
Qed.

Lemma write_exists_survives fs path content overwrite fs' b p :
  write fs path content overwrite = (fs', Ok b) →
  p ≠ path +:+ ".tmp" → path_exists fs p = true → path_exists fs' p = true.
Proof.
  intros H Hp. apply path_exists_mono.
  - by apply (write_survives _ _ _ _ _ _ _ H).
  - by apply (write_dirs _ _ _ _ _ _ H).
Qed.

Lemma write_and_record_inv fs written path content overwrite fs' wr :
  write_and_record fs written path content overwrite = (fs', Ok wr) →
  ∃ b, write fs path content overwrite = (fs', Ok b)
       ∧ wr = if b then written ++ [path] else written.
Proof.
  unfold write_and_record.
  destruct (write fs path content overwrite) as [fs1 [b|e]]; [|done].
  intros [= <- <-]. by exists b.
Qed.

Lemma ensure_package_inv fs dir_path fs' :
  ensure_package fs dir_path = Ok fs' →
  fs_dirs fs ⊆ fs_dirs fs'
  ∧ is_dir fs' dir_path = true
  ∧ path_exists fs' (Path.join dir_path "__init__.py") = true
  ∧ ∀ p, fs' !! p = fs !! p
         ∨ (p = Path.join dir_path "__init__.py"
            ∧ path_exists fs p = false
            ∧ fs' !! p = Some (File "")).
Proof.
  unfold ensure_package.
  destruct (mkdir fs dir_path) as [fs1|] eqn:Em; [|done]. cbn.
  pose proof (λ p, mkdir_lookup _ _ _ p Em) as Hl.
  apply mkdir_inv in Em as (_ & Hsub & Hd).
  destruct (path_exists fs1 _) eqn:Ex; cbn; intros [= <-].
  - split_and!; [done..|]. intros p. left. by rewrite <-(Hl p).
  - split_and!; [done|done| |].
    + apply path_exists_file. rewrite lookup_set_file. eauto.
    + intros p. destruct (decide (p = Path.join dir_path "__init__.py"))
        as [->|Hne].
      * right. rewrite lookup_set_file. split_and!; [done| |done].
        apply path_exists_false in Ex as [Ex Ed].
        apply path_exists_false. rewrite <-(Hl _). split; [done|].
        destruct (is_dir fs _) eqn:E; [|done].
        apply (is_dir_mono _ fs1) in E; [congruence|done].
      * left. by rewrite lookup_set_file_ne, <-(Hl p).
Qed.

(** On a package that is there, nothing is done. *)
Lemma ensure_package_present fs dir_path :
  is_dir fs dir_path = true →
  path_exists fs (Path.join dir_path "__init__.py") = true →
  ensure_package fs dir_path = Ok fs.
Proof.
  intros Hd Hi. unfold ensure_package. rewrite (mkdir_present _ _ Hd). cbn.
  by rewrite Hi.
Qed.

End writes.

(** ** Runs of jobs *)

Section effects.

Implicit Types fs : filesystem.

Lemma run_jobs_cons_inv j js fs written fs' wr :
  run_jobs (j :: js) fs written = (fs', Ok wr) →
  ∃ fs1 b,
    write fs (job_path j) (job_content j) (job_overwrite j) = (fs1, Ok b)
    ∧ run_jobs js fs1 (if b then written ++ [job_path j] else written)
      = (fs', Ok wr).
Proof.
  simpl.
  destruct (write_and_record _ _ _ _ _) as [fs1 [w1|e]] eqn:Ew; [|done].
  apply write_and_record_inv in Ew as (b & Hw & ->). intros H.
  by exists fs1, b.
Qed.

Lemma run_jobs_app_inv a b fs written fs' wr :
  run_jobs (a ++ b) fs written = (fs', Ok wr) →
  ∃ fs1 w1, run_jobs a fs written = (fs1, Ok w1)
            ∧ run_jobs b fs1 w1 = (fs', Ok wr).
Proof.
  revert fs written. induction a as [|j a IH]; intros fs written; simpl.
  - intros H. by exists fs, written.
  - destruct (write_and_record _ _ _ _ _) as [fs1 [w1|e]]; [|done].
    apply IH.
Qed.

Lemma run_jobs_app a b fs written fs1 w1 :
  run_jobs a fs written = (fs1, Ok w1) →
  run_jobs (a ++ b) fs written = run_jobs b fs1 w1.
Proof.
  revert fs written. induction a as [|j a IH]; intros fs written; simpl.
  - by intros [= <- <-].
  - destruct (write_and_record _ _ _ _ _) as [fs2 [w2|e]]; [|done].
    apply IH.
Qed.

Lemma run_jobs_dirs js fs written fs' wr :
  run_jobs js fs written = (fs', Ok wr) → fs_dirs fs ⊆ fs_dirs fs'.
Proof.
  revert fs written. induction js as [|j js IH]; intros fs written.
  - by intros [= <- _].
  - intros H. apply run_jobs_cons_inv in H as (fs1 & b & Hw & Hrun).
    apply write_dirs in Hw. apply IH in Hrun. set_solver.
Qed.

(** The written paths are targets, in job order. *)
Lemma run_jobs_sublist js fs written fs' wr :
  run_jobs js fs written = (fs', Ok wr) →
  ∃ l, wr = written ++ l ∧ l `sublist_of` (job_path <$> js).
Proof.
  revert fs written. induction js as [|j js IH]; intros fs written.
  - intros [= _ <-]. exists []. by rewrite app_nil_r.
  - intros H. apply run_jobs_cons_inv in H as (fs1 & b & Hw & Hrun).
    apply IH in Hrun as (l & -> & Hl). destruct b.
    + exists (job_path j :: l). rewrite <-app_assoc. split; [done|].
      by apply sublist_skip.
    + exists l. split; [done|]. by apply sublist_cons.
Qed.



Lemma run_jobs_lookup_other js fs written fs' wr p :
  run_jobs js fs written = (fs', Ok wr) →
  Forall (λ k, p ≠ job_path k ∧ p ≠ job_path k +:+ ".tmp") js →
  fs' !! p = fs !! p.
Proof.
  intros H Hjs. revert fs written H.
  induction Hjs as [|j js [Hp Ht] _ IH]; intros fs written.
  - by intros [= <- _].
  - intros H. apply run_jobs_cons_inv in H as (fs1 & b & Hw & Hrun).
    rewrite (IH _ _ Hrun). by apply (write_lookup_other _ _ _ _ _ _ _ Hw).
Qed.

(** An absent file that is no target stays absent: a temporary sibling
    does not outlive its write. *)
Lemma run_jobs_absent js fs written fs' wr t :
  run_jobs js fs written = (fs', Ok wr) →
  Forall (λ k, t ≠ job_path k) js →
  fs !! t = None → fs' !! t = None.
Proof.
  intros H Hjs. revert fs written H.
  induction Hjs as [|j js Hj _ IH]; intros fs written.
  - by intros [= <- _].
  - intros H Hnone. apply run_jobs_cons_inv in H as (fs1 & b & Hw & Hrun).
    apply (IH _ _ Hrun).
    destruct (decide (t = job_path j +:+ ".tmp")) as [->|Hne].
    + destruct b; [by apply (write_tmp_gone _ _ _ _ _ Hw)|].
      by rewrite (write_skipped _ _ _ _ _ Hw).
    + by rewrite (write_lookup_other _ _ _ _ _ _ _ Hw).
Qed.

Lemma run_jobs_no_leftover js fs written fs' wr q :
  run_jobs js fs written = (fs', Ok wr) →
  StronglySorted (λ j k, job_path k ≠ job_path j +:+ ".tmp") js →
  q ∈ wr → q ∈ written ∨ fs' !! (q +:+ ".tmp") = None.
Proof.
  intros H Hjs. revert fs written H.
  induction Hjs as [|j js _ IH Hj]; intros fs written.
  - intros [= _ <-]. by left.
  - intros H Hq. apply run_jobs_cons_inv in H as (fs1 & b & Hw & Hrun).
    destruct (IH _ _ Hrun Hq) as [Hq'|?]; [|by right].
    destruct b; [|by left].
    apply elem_of_app in Hq' as [?|Hq']; [by left|].
    apply list_elem_of_singleton in Hq' as ->. right.
    apply (run_jobs_absent _ _ _ _ _ _ Hrun);
      [|by apply (write_tmp_gone _ _ _ _ _ Hw)].
    eapply Forall_impl; [exact Hj|]. intros k Hk Heq. simpl in Hk. congruence.
Qed.

(** What exists and is no temporary sibling of a target goes on
    existing. *)
Lemma run_jobs_survives js fs written fs' wr p :
  run_jobs js fs written = (fs', Ok wr) →
  Forall (λ k, p ≠ job_path k +:+ ".tmp") js →
  path_exists fs p = true → path_exists fs' p = true.
Proof.
  intros H Hjs. revert fs written H.
  induction Hjs as [|j js Hj _ IH]; intros fs written.
  - by intros [= <- _].
  - intros H Hp. apply run_jobs_cons_inv in H as (fs1 & b & Hw & Hrun).
    apply (IH _ _ Hrun). by apply (write_exists_survives _ _ _ _ _ _ _ Hw).
Qed.

(** After a run whose earlier targets no later job disturbs, every target
    exists, and holds the job's content when the job may overwrite. *)
Lemma run_jobs_settled js fs written fs' wr j :
  run_jobs js fs written = (fs', Ok wr) →
  StronglySorted undisturbed js →
  j ∈ js →
  path_exists fs' (job_path j) = true
  ∧ (job_overwrite j = true →
     fs' !! job_path j = Some (File (job_content j))).
Proof.
  intros H Hjs. revert fs written H.
  induction Hjs as [|k js _ IH Hk]; intros fs written H Hj.
  { by apply not_elem_of_nil in Hj. }
  apply run_jobs_cons_inv in H as (fs1 & b & Hw & Hrun).
  apply elem_of_cons in Hj as [->|Hj]; [|by apply (IH _ _ Hrun)].
  split.
  - apply (run_jobs_survives _ _ _ _ _ _ Hrun).
    + eapply Forall_impl; [exact Hk|]. by intros ? [_ ?].
    + by apply (write_target_exists _ _ _ _ _ _ Hw).
  - intros How. rewrite (run_jobs_lookup_other _ _ _ _ _ _ Hrun) by done.
    pose proof (write_result _ _ _ _ _ _ Hw) as Hb.
    rewrite How, andb_false_r in Hb. subst b.
    by apply (write_lookup_target _ _ _ _ _ Hw).
Qed.

(** Jobs that may not overwrite and whose targets exist change nothing. *)
Lemma run_jobs_all_skipped js fs written :
  Forall (λ j, path_exists fs (job_path j) = true ∧ job_overwrite j = false)
    js →
  run_jobs js fs written = (fs, Ok written).
Proof.
  induction 1 as [|j js [Hj How] _ IH]; [done|].
  simpl. unfold write_and_record, write. rewrite Hj, How. simpl. exact IH.
Qed.




End effects.
(** ** Planner and executor as runs over the same jobs *)

Section jobs.

Implicit Types fs : filesystem.

#[local] Arguments render_base : simpl never.

Lemma render_repo_target w cfg project_root model tpl gen :
  _render_repo w model tpl (commit_strategy cfg) (async_mode cfg) = Ok gen →
  Path.join (out_dir_of cfg project_root) (gf_path gen)
  = model_path_of cfg project_root model.
Proof.
  unfold _render_repo. destruct (Str.split_once _ _) as [[??]|]; [|done].
  destruct (get_template w tpl); [|done]. cbn.
  destruct (render w tpl _); [|done]. cbn. intros [= <-]. simpl.
  apply join_of_string.
Qed.

Lemma render_user_stub_target w cfg project_root model stub :
  render_user_stub w cfg model = Ok stub →
  Path.join (out_dir_of cfg project_root) (gf_path stub)
  = model_path_of cfg project_root model.
Proof.
  unfold render_user_stub. destruct (Str.split_once _ _) as [[??]|]; [|done].
  destruct (render w _ _); [|done]. cbn. by intros [= <-].
Qed.

Lemma mode_in_base_combined m :
  bool_decide (m ∈ [Base; Combined])
  = match m with Standalone => false | _ => true end.
Proof. by destruct m. Qed.

Lemma mode_is m m' :
  bool_decide (m = m')
  = match m, m' with
    | Standalone, Standalone | Base, Base | Combined, Combined => true
    | _, _ => false
    end.
Proof. by destruct m, m'. Qed.

(** The standalone loop is the run of its jobs. *)
Lemma standalone_loop_jobs w cfg project_root tpl force models js :
  standalone_job_list w cfg project_root tpl force models = Ok js →
  ∀ fs written,
    standalone_loop w cfg (out_dir_of cfg project_root) tpl force models
      fs written
    = run_jobs js fs written.
Proof.
  revert js. induction models as [|model rest IH]; intros js; simpl.
  - by intros [= <-].
  - destruct (_render_repo _ _ _ _ _) as [gen|] eqn:Eg; [|done]. cbn.
    destruct (standalone_job_list _ _ _ _ _ rest) as [js'|]; [|done]. cbn.
    intros [= <-] fs written. simpl.
    rewrite (render_repo_target _ _ _ _ _ _ Eg).
    destruct (write_and_record _ _ _ _ _) as [fs1 [w1|e]]; [|done].
    by apply IH.
Qed.

Lemma standalone_loop_Ok w cfg project_root tpl force models fs written
    fs' wr :
  standalone_loop w cfg (out_dir_of cfg project_root) tpl force models
    fs written = (fs', Ok wr) →
  ∃ js, standalone_job_list w cfg project_root tpl force models = Ok js.
Proof.
  revert fs written. induction models as [|model rest IH]; intros fs written;
    simpl.
  - by exists [].
  - destruct (_render_repo _ _ _ _ _) as [gen|] eqn:Eg; [|done]. cbn.
    destruct (write_and_record _ _ _ _ _) as [fs1 [w1|e]]; [|done].
    intros H. apply IH in H as [js ->]. cbn. eauto.
Qed.

Lemma combined_loop_jobs w cfg project_root models js :
  stub_job_list w cfg project_root models = Ok js →
  ∀ fs written,
    combined_loop w cfg (out_dir_of cfg project_root) models fs written
    = run_jobs js fs written.
Proof.
  revert js. induction models as [|model rest IH]; intros js; simpl.
  - by intros [= <-].
  - destruct (get_template w TPL_USER_STUB); [|done]. cbn.
    destruct (render_user_stub _ _ _) as [stub|] eqn:Eg; [|done]. cbn.
    destruct (stub_job_list _ _ _ rest) as [js'|]; [|done]. cbn.
    intros [= <-] fs written. simpl.
    rewrite (render_user_stub_target _ _ _ _ _ Eg).
    destruct (write_and_record _ _ _ _ _) as [fs1 [w1|e]]; [|done].
    by apply IH.
Qed.

Lemma combined_loop_Ok w cfg project_root models fs written fs' wr :
  combined_loop w cfg (out_dir_of cfg project_root) models fs written
  = (fs', Ok wr) →
  ∃ js, stub_job_list w cfg project_root models = Ok js.
Proof.
  revert fs written. induction models as [|model rest IH]; intros fs written;
    simpl.
  - by exists [].
  - destruct (get_template w TPL_USER_STUB); [|done]. cbn.
    destruct (render_user_stub _ _ _) as [stub|] eqn:Eg; [|done]. cbn.
    destruct (write_and_record _ _ _ _ _) as [fs1 [w1|e]]; [|done].
    intros H. apply IH in H as [js ->]. cbn. eauto.
Qed.

(** The planner's loops classify the same jobs. *)
Lemma plan_standalone_jobs w fs cfg project_root tpl force models plans0
    plans :
  plan_standalone_loop w fs cfg (out_dir_of cfg project_root) tpl force
    models plans0 = Ok plans →
  ∃ js, standalone_job_list w cfg project_root tpl force models = Ok js
        ∧ plans = plans0 ++ plan_jobs fs js.
Proof.
  revert plans0. induction models as [|model rest IH]; intros plans0; simpl.
  - intros [= <-]. exists []. by rewrite app_nil_r.
  - destruct (_render_repo _ _ _ _ _) as [gen|] eqn:Eg; [|done]. cbn.
    intros H. apply IH in H as (js & -> & ->). cbn. eexists. split; [done|].
    rewrite (render_repo_target _ _ _ _ _ _ Eg), <-app_assoc. done.
Qed.

Lemma plan_combined_jobs w fs cfg project_root models plans0 plans :
  get_template w TPL_USER_STUB = Ok () →
  plan_combined_loop w fs cfg (out_dir_of cfg project_root) models plans0
  = Ok plans →
  ∃ js, stub_job_list w cfg project_root models = Ok js
        ∧ plans = plans0 ++ plan_jobs fs js.
Proof.
  intros Ht. revert plans0.
  induction models as [|model rest IH]; intros plans0; simpl.
  - intros [= <-]. exists []. by rewrite app_nil_r.
  - rewrite Ht. cbn.
    destruct (render_user_stub _ _ _) as [stub|] eqn:Eg; [|done]. cbn.
    intros H. apply IH in H as (js & -> & ->). cbn. eexists. split; [done|].
    rewrite (render_user_stub_target _ _ _ _ _ Eg), <-app_assoc. done.
Qed.

(** The job lists the other way round: from the jobs to the planner's
    loops. *)
Lemma plan_standalone_of_jobs w fs cfg project_root tpl force models js
    plans0 :
  standalone_job_list w cfg project_root tpl force models = Ok js →
  plan_standalone_loop w fs cfg (out_dir_of cfg project_root) tpl force
    models plans0 = Ok (plans0 ++ plan_jobs fs js).
Proof.
  revert js plans0. induction models as [|model rest IH]; intros js plans0;
    simpl.
  - intros [= <-]. by rewrite app_nil_r.
  - destruct (_render_repo _ _ _ _ _) as [gen|] eqn:Eg; [|done]. cbn.
    destruct (standalone_job_list _ _ _ _ _ rest) as [js'|]; [|done]. cbn.
    intros [= <-]. rewrite (IH js') by done.
    rewrite (render_repo_target _ _ _ _ _ _ Eg), <-app_assoc. done.
Qed.

Lemma plan_combined_of_jobs w fs cfg project_root models js plans0 :
  stub_job_list w cfg project_root models = Ok js →
  plan_combined_loop w fs cfg (out_dir_of cfg project_root) models plans0
  = Ok (plans0 ++ plan_jobs fs js).
Proof.
  revert js plans0. induction models as [|model rest IH]; intros js plans0;
    simpl.
  - intros [= <-]. by rewrite app_nil_r.
  - destruct (get_template w TPL_USER_STUB); [|done]. cbn.
    destruct (render_user_stub _ _ _) as [stub|] eqn:Eg; [|done]. cbn.
    destruct (stub_job_list _ _ _ rest) as [js'|]; [|done]. cbn.
    intros [= <-]. rewrite (IH js') by done.
    rewrite (render_user_stub_target _ _ _ _ _ Eg), <-app_assoc. done.
Qed.

Lemma plan_jobs_paths fs js : fp_path <$> plan_jobs fs js = job_path <$> js.
Proof.
  unfold plan_jobs. rewrite <-list_fmap_compose.
  apply list_fmap_ext. intros _ j _. apply classify_path.
Qed.

Lemma plan_jobs_app fs a b :
  plan_jobs fs (a ++ b) = plan_jobs fs a ++ plan_jobs fs b.
Proof. apply fmap_app. Qed.



Lemma standalone_job_list_keys w cfg project_root tpl force models js :
  standalone_job_list w cfg project_root tpl force models = Ok js →
  job_key <$> js = (λ m, (model_path_of cfg project_root m, force)) <$> models.
Proof.
  revert js. induction models as [|model rest IH]; intros js; simpl.
  - by intros [= <-].
  - destruct (_render_repo _ _ _ _ _) as [gen|]; [|done]. cbn.
    destruct (standalone_job_list _ _ _ _ _ rest) as [js'|]; [|done]. cbn.
    intros [= <-]. rewrite fmap_cons. f_equal. by apply IH.
Qed.

Lemma stub_job_list_keys w cfg project_root models js :
  stub_job_list w cfg project_root models = Ok js →
  job_key <$> js = (λ m, (model_path_of cfg project_root m, false)) <$> models.
Proof.
  revert js. induction models as [|model rest IH]; intros js; simpl.
  - by intros [= <-].
  - destruct (get_template w TPL_USER_STUB); [|done]. cbn.
    destruct (render_user_stub _ _ _) as [stub|]; [|done]. cbn.
    destruct (stub_job_list _ _ _ rest) as [js'|]; [|done]. cbn.
    intros [= <-]. rewrite fmap_cons. f_equal. by apply IH.
Qed.

Lemma base_job_list_keys w cfg project_root bjs :
  base_job_list w cfg project_root = Ok bjs →
  job_key <$> bjs
  = if bool_decide (mode (generation cfg) ∈ [Base; Combined])
    then [(base_path_of cfg (out_dir_of cfg project_root),
           overwrite_base (generation cfg))]
    else [].
Proof.
  unfold base_job_list. case_bool_decide; [|by intros [= <-]].
  destruct (base_template cfg); [|done]. cbn.
  destruct (render_base _ _ _); [|done]. cbn. by intros [= <-].
Qed.

(** Targets and flags of the jobs do not depend on what is rendered. *)
Lemma job_list_keys w cfg project_root force models js :
  job_list w cfg project_root force models = Ok js →
  job_key <$> js = keys_of cfg project_root force models.
Proof.
  unfold job_list, keys_of.
  destruct (base_job_list w cfg project_root) as [bjs|] eqn:Eb; [|done]. cbn.
  apply base_job_list_keys in Eb. rewrite <-Eb.
  destruct (bool_decide (mode (generation cfg) = Base)).
  { intros [= <-]. by rewrite app_nil_r. }
  destruct (bool_decide (mode (generation cfg) = Standalone)).
  - destruct (standalone_template cfg) as [tpl|]; [|done]. cbn.
    destruct (standalone_job_list _ _ _ _ _ _) as [mjs|] eqn:Em; [|done]. cbn.
    intros [= <-]. rewrite fmap_app. f_equal.
    by apply (standalone_job_list_keys w _ _ tpl).
  - destruct (stub_job_list _ _ _ _) as [mjs|] eqn:Em; [|done]. cbn.
    intros [= <-]. rewrite fmap_app. f_equal.
    by apply (stub_job_list_keys w).
Qed.

Lemma keys_of_targets cfg project_root force models :
  (keys_of cfg project_root force models).*1
  = targets_of cfg project_root models.
Proof.
  unfold keys_of, targets_of. rewrite fmap_app. f_equal.
  - by destruct (bool_decide _).
  - destruct (bool_decide _); [done|]. rewrite <-list_fmap_compose. done.
Qed.

Lemma job_list_paths w cfg project_root force models js :
  job_list w cfg project_root force models = Ok js →
  job_path <$> js = targets_of cfg project_root models.
Proof.
  intros H. apply job_list_keys in H.
  rewrite <-(keys_of_targets _ _ force), <-H, <-list_fmap_compose. done.
Qed.

(** The jobs of a run do not depend on the force flag outside standalone
    mode, and the flag changes no content. *)
Lemma standalone_job_list_force w cfg project_root tpl force force' models
    js :
  standalone_job_list w cfg project_root tpl force models = Ok js →
  standalone_job_list w cfg project_root tpl force' models
  = Ok (with_overwrite force' <$> js).
Proof.
  revert js. induction models as [|model rest IH]; intros js; simpl.
  - by intros [= <-].
  - destruct (_render_repo _ _ _ _ _) as [gen|]; [|done]. cbn.
    destruct (standalone_job_list _ _ _ _ force rest) as [js'|]; [|done].
    cbn. intros [= <-]. by rewrite (IH js').
Qed.

(** The executor goes through the jobs of the models that its resolver
    finds after the prelude. *)
Lemma generate_Ok_jobs w fs cfg project_root force fs' written :
  generate_from_config w fs cfg project_root force = (fs', Ok written) →
  ∃ fs0 models js,
    ensure_package fs (out_dir_of cfg project_root) = Ok fs0
    ∧ (mode (generation cfg) ≠ Base →
       resolve w (generate_prelude w fs cfg project_root).1 cfg project_root
       = Ok models)
    ∧ (mode (generation cfg) = Base → models = [])
    ∧ job_list w cfg project_root force models = Ok js
    ∧ run_jobs js fs0 [] = (fs', Ok written).
Proof.
  unfold generate_from_config, generate_prelude, job_list, base_job_list.
  rewrite mode_in_base_combined, !mode_is.
  destruct (ensure_package fs _) as [fs0|] eqn:Ee; [|done].
  destruct (mode (generation cfg)) eqn:Emode; cbn.
  - (* standalone *)
    destruct (resolve w fs0 cfg project_root) as [models|] eqn:Er; [|done].
    destruct (standalone_template cfg) as [tpl|]; [|done]. cbn.
    intros H. destruct (standalone_loop_Ok _ _ _ _ _ _ _ _ _ _ H) as [js Hjs].
    exists fs0, models, js. rewrite Hjs. cbn.
    rewrite <-(standalone_loop_jobs _ _ _ _ _ _ _ Hjs). done.
  - (* base only *)
    destruct (base_template cfg) as [tpl|]; [|done]. cbn.
    destruct (render_base w cfg tpl) as [content|]; [|done]. cbn.
    destruct (write_and_record fs0 [] _ _ _) as [fs1 [w1|e]] eqn:Ew; [|done].
    cbn. intros [= <- <-]. exists fs0, []. eexists.
    split_and!; [done|done|done|done|]. simpl. by rewrite Ew.
  - (* combined *)
    destruct (base_template cfg) as [tpl|]; [|done]. cbn.
    destruct (render_base w cfg tpl) as [content|]; [|done]. cbn.
    destruct (write_and_record fs0 [] _ _ _) as [fs1 [w1|e]] eqn:Ew; [|done].
    cbn.
    destruct (resolve w fs1 cfg project_root) as [models|] eqn:Er; [|done].
    intros H. destruct (combined_loop_Ok _ _ _ _ _ _ _ _ H) as [js Hjs].
    exists fs0, models. eexists. rewrite Hjs. cbn.
    split_and!; [done|done|done|done|]. simpl. rewrite Ew.
    rewrite <-(combined_loop_jobs _ _ _ _ _ Hjs). done.
Qed.

(** The state in which the executor's resolver runs: after the marker and
    the base file. *)
Lemma generate_prelude_jobs w fs cfg project_root fs1 wr :
  generate_prelude w fs cfg project_root = (fs1, Ok wr) →
  ∃ fs0 bjs,
    ensure_package fs (out_dir_of cfg project_root) = Ok fs0
    ∧ base_job_list w cfg project_root = Ok bjs
    ∧ run_jobs bjs fs0 [] = (fs1, Ok wr).
Proof.
  unfold generate_prelude, base_job_list.
  destruct (ensure_package fs _) as [fs0|] eqn:Ee; [|done].
  destruct (bool_decide _).
  - destruct (base_template cfg) as [tpl|]; [|done]. cbn.
    destruct (render_base w cfg tpl) as [content|]; [|done]. cbn.
    intros H. exists fs0. eexists. split_and!; [done..|]. simpl.
    by rewrite H.
  - intros [= <- <-]. by exists fs0, [].
Qed.

(** The planner classifies the jobs of the models that the resolver finds
    on the file system as it is. *)
Lemma plan_Ok_jobs w fs cfg project_root force report :
  plan_from_config w fs cfg project_root force = Ok report →
  ∃ models js,
    (mode (generation cfg) ≠ Base →
     resolve w fs cfg project_root = Ok models)
    ∧ (mode (generation cfg) = Base → models = [])
    ∧ job_list (plan_world w) cfg project_root force models = Ok js
    ∧ files report = plan_jobs fs js.
Proof.
  unfold plan_from_config, job_list, base_job_list.
  rewrite mode_in_base_combined, !mode_is.
  destruct (mode (generation cfg)) eqn:Emode; cbn.
  - (* standalone *)
    destruct (resolve w fs cfg project_root) as [models|] eqn:Er; [|done].
    cbn. destruct (standalone_template cfg) as [tpl|]; [|done]. cbn.
    destruct (plan_standalone_loop _ _ _ _ _ _ _ _) as [plans|] eqn:Ep;
      [|done].
    cbn. intros [= <-].
    apply plan_standalone_jobs in Ep as (js & Hjs & ->).
    exists models, js. by rewrite Hjs.
  - (* base only *)
    destruct (base_template cfg) as [tpl|]; [|done]. cbn.
    destruct (render_base (plan_world w) cfg tpl) as [content|]; [|done]. cbn.
    intros [= <-]. exists []. eexists. done.
  - (* combined *)
    destruct (base_template cfg) as [tpl|]; [|done]. cbn.
    destruct (render_base (plan_world w) cfg tpl) as [content|]; [|done]. cbn.
    destruct (resolve w fs cfg project_root) as [models|] eqn:Er; [|done].
    cbn. destruct (plan_get_template w TPL_USER_STUB) as [[]|] eqn:Et;
      [|done].
    cbn. destruct (plan_combined_loop _ _ _ _ _ _) as [plans|] eqn:Ep;
      [|done].
    cbn. intros [= <-].
    apply plan_combined_jobs in Ep as (js & Hjs & ->); [|done].
    exists models. eexists. rewrite Hjs. cbn. done.
Qed.

(** Paths in place of jobs. *)
Lemma sorted_by_paths (R : string → string → Prop) js :
  StronglySorted R (job_path <$> js) →
  StronglySorted (λ j k, R (job_path j) (job_path k)) js.
Proof.
  induction js as [|j js IH]; [constructor|].
  rewrite fmap_cons. intros H. apply StronglySorted_inv in H as [Hs Hj].
  constructor; [by apply IH|].
  rewrite Forall_fmap in Hj. done.
Qed.




End jobs.
(** ** Plan and execution *)

Section parity.

Implicit Types fs : filesystem.




(** The provisos of the correspondence are needed.  Two models that share
    a file name: the plan creates the file twice, the executor once. *)
Example parity_needs_distinct_targets :
  plan_from_config Sample.toy_world Sample.fresh_tree Sample.same_file_config
    "/proj" false
  = Ok {| files :=
            [_classify_file Sample.fresh_tree "/proj/out/user_repository.py"
               "# repository_sqlmodel.j2 User" false;
             _classify_file Sample.fresh_tree "/proj/out/user_repository.py"
               "# repository_sqlmodel.j2 user" false] |}
  ∧ fp_would_write
      (_classify_file Sample.fresh_tree "/proj/out/user_repository.py"
         "# repository_sqlmodel.j2 user" false) = true
  ∧ (generate_from_config Sample.toy_world Sample.fresh_tree
       Sample.same_file_config "/proj" false).2
    = Ok ["/proj/out/user_repository.py"].
Proof. repeat split; vm_compute; reflexivity. Qed.

(** A base file named like the package marker: the plan creates it, the
    executor finds the marker it has just made and skips. *)
Example parity_needs_package_marker :
  plan_from_config Sample.toy_world Sample.fresh_tree Sample.marker_config
    "/proj" false
  = Ok {| files :=
            [{| fp_path := "/proj/out/__init__.py"; fp_exists := false;
                fp_would_write := true; fp_overwrite := false;
                fp_reason := Some "create" |}] |}
  ∧ (generate_from_config Sample.toy_world Sample.fresh_tree
       Sample.marker_config "/proj" false).2
    = Ok [].
Proof. split; vm_compute; reflexivity. Qed.

(** A base file with the empty name: its path is the output directory,
    which the plan does not find and the executor has made when it comes
    to write. *)
Example parity_needs_no_new_directory :
  plan_from_config Sample.toy_world Sample.fresh_tree Sample.directory_config
    "/proj" false
  = Ok {| files :=
            [{| fp_path := "/proj/out"; fp_exists := false;
                fp_would_write := true; fp_overwrite := false;
                fp_reason := Some "create" |}] |}
  ∧ (generate_from_config Sample.toy_world Sample.fresh_tree
       Sample.directory_config "/proj" false).2
    = Ok [].
Proof. split; vm_compute; reflexivity. Qed.

(** Discovery over the output directory: the executor discovers the base
    file it has just written, the plan does not. *)
Example parity_needs_stable_discovery :
  plan_from_config Sample.toy_world Sample.fresh_tree Sample.self_scan_config
    "/proj" false
  = Ok {| files :=
            [{| fp_path := "/proj/out/base_repository.py"; fp_exists := false;
                fp_would_write := true; fp_overwrite := false;
                fp_reason := Some "create" |}] |}
  ∧ (generate_from_config Sample.toy_world Sample.fresh_tree
       Sample.self_scan_config "/proj" false).2
    = Ok ["/proj/out/base_repository.py";
          "/proj/out/base_repository_repository.py"].
Proof. split; vm_compute; reflexivity. Qed.


End parity.

(** ** Create-once stubs of combined mode *)

Section create_once.

Implicit Types fs : filesystem.




End create_once.

(** * Further properties of the code *)

(** ** Normal form of the operation list *)

Section normal_form.

Implicit Types v r : list string.

Lemma methods_loop_total allowed v result seen :
  Forall (λ m, is_sentinel m ∨ m ∈ allowed) v →
  ∃ r, methods_loop allowed v result seen = Ok r.
Proof.
  intros Hv. revert result seen.
  induction Hv as [|m v Hm _ IH]; intros result seen; simpl; [eauto|].
  case_bool_decide as Hs; [apply IH|].
  destruct Hm as [Hm|Hm]; [done|].
  rewrite (bool_decide_true _ Hm). simpl. case_bool_decide; apply IH.
Qed.

Lemma dedup_first_NoDup_id (l : list string) : NoDup l → dedup_first l = l.
Proof.
  induction 1 as [|x l Hx _ IH]; simpl; [done|].
  rewrite IH. f_equal. apply filter_every, Forall_forall. by intros y Hy ->.
Qed.

Lemma expand_dedup_subset v r : expand_dedup v = Ok r → r ⊆ CRUD_METHODS.
Proof.
  intros H x Hx.
  destruct (decide ("none" ∈ v)) as [Hn|Hn].
  { unfold expand_dedup in H. rewrite (bool_decide_true _ Hn) in H.
    case_bool_decide; simplify_eq; by apply not_elem_of_nil in Hx. }
  destruct (decide ("all" ∈ v)) as [Ha|Ha].
  { by rewrite (expand_dedup_all v r Ha Hn H) in Hx. }
  unfold expand_dedup in H.
  case_bool_decide; [simplify_eq; by apply not_elem_of_nil in Hx|].
  rewrite (bool_decide_false _ Hn), !(bool_decide_false _ Ha) in H.
  apply methods_loop_Ok in H as [-> Hall]; [|set_solver].
  simpl in Hx. apply list_elem_of_filter in Hx as [_ Hx].
  apply dedup_first_elem_of, list_elem_of_filter in Hx as [Hns Hx].
  rewrite Forall_forall in Hall. destruct (Hall x Hx); done.
Qed.

Lemma validate_methods_normal v r :
  validate_methods v = Ok r → normal_methods r.
Proof.
  intros H. pose proof (validate_methods_NoDup v r H) as Hnd.
  rewrite validate_methods_stages in H.
  destruct (expand_dedup v) as [r0|] eqn:E; simpl in H; [|done].
  simplify_eq. apply expand_dedup_subset in E.
  unfold normal_methods, insert_prerequisite in *.
  destruct (bool_decide ("get_or_raise" ∈ r0) || bool_decide ("delete_by_id" ∈ r0))
    eqn:Edep; simpl in *.
  - case_bool_decide as Hget; simpl in *.
    + split_and!; [done..|auto].
    + split_and!; [done| |intros _; by left].
      intros x Hx. apply elem_of_cons in Hx as [->|Hx]; [compute_done|auto].
  - split_and!; [done..|].
    apply orb_false_iff in Edep as [H1 H2].
    apply bool_decide_eq_false in H1, H2. tauto.
Qed.

(** X1. Whatever list [validate_methods] accepts, its result has no
    duplicate, holds only operations of the vocabulary, and holds [get]
    whenever it holds [get_or_raise] or [delete_by_id]. *)
Theorem validate_methods_result v r :
  validate_methods v = Ok r →
  NoDup r
  ∧ r ⊆ CRUD_METHODS
  ∧ ("get_or_raise" ∈ r ∨ "delete_by_id" ∈ r → "get" ∈ r).
Proof. apply validate_methods_normal. Qed.

(** X1 on a list with a repeated token and a dependent operation. *)
Lemma validate_methods_result_witness :
  NoDup ["get"; "list"; "get_or_raise"]
  ∧ ["get"; "list"; "get_or_raise"] ⊆ CRUD_METHODS
  ∧ ("get_or_raise" ∈ ["get"; "list"; "get_or_raise"]
     ∨ "delete_by_id" ∈ ["get"; "list"; "get_or_raise"] →
     "get" ∈ ["get"; "list"; "get_or_raise"]).
Proof.
  apply (validate_methods_result ["list"; "get_or_raise"; "list"]).
  vm_compute. reflexivity.
Defined.

Lemma normal_methods_fixed r : normal_methods r → validate_methods r = Ok r.
Proof.
  intros (Hnd & Hsub & Hdep). unfold validate_methods.
  case_bool_decide as Hnil; [by subst|].
  assert (Hsent : Forall (λ m, ¬ is_sentinel m) r).
  { assert (Hvoc : Forall (λ m, ¬ is_sentinel m) CRUD_METHODS) by compute_done.
    rewrite Forall_forall in Hvoc. apply Forall_forall.
    intros m Hm. by apply Hvoc, Hsub. }
  assert (Hnone : "none" ∉ r).
  { intros Hin. rewrite Forall_forall in Hsent. apply (Hsent _ Hin).
    compute_done. }
  assert (Hall : "all" ∉ r).
  { intros Hin. rewrite Forall_forall in Hsent. apply (Hsent _ Hin).
    compute_done. }
  rewrite (bool_decide_false _ Hnone), (bool_decide_false _ Hall).
  destruct (methods_loop_total CRUD_METHODS r [] ∅) as [r' Hr'].
  { apply Forall_forall. intros m Hm. right. by apply Hsub. }
  rewrite Hr'. simpl. apply methods_loop_Ok in Hr' as [-> _]; [|set_solver].
  simpl. rewrite (filter_every (λ x, x ∉ [])).
  2:{ apply Forall_forall. intros x _. apply not_elem_of_nil. }
  rewrite filter_every by done. rewrite dedup_first_NoDup_id by done.
  f_equal. unfold insert_prerequisite.
  destruct (_ || _) eqn:Edep; [|done].
  rewrite bool_decide_true; [done|]. apply Hdep.
  apply orb_true_iff in Edep as [H|H]; apply bool_decide_eq_true in H; auto.
Qed.

(** X2. Normalisation is idempotent: validating an accepted result again
    returns it unchanged. *)
Theorem validate_methods_idempotent v r :
  validate_methods v = Ok r → validate_methods r = Ok r.
Proof. intros H. by apply normal_methods_fixed, (validate_methods_normal v). Qed.

(** X2 on the expansion of [all]. *)
Lemma validate_methods_idempotent_witness :
  validate_methods CRUD_METHODS = Ok CRUD_METHODS.
Proof.
  apply (validate_methods_idempotent ["all"; "get"]).
  vm_compute. reflexivity.
Defined.

Lemma personalize_loop_spec v out (seen : gset string) :
  (∀ x, x ∈ seen ↔ x ∈ out) →
  personalize_loop v out seen
  = out ++ filter (λ x, x ∉ out) (dedup_first v).
Proof.
  revert out seen. induction v as [|m v IH]; intros out seen Hseen; simpl.
  - by rewrite app_nil_r.
  - case_bool_decide as Hin.
    + rewrite (IH _ _ Hseen). f_equal.
      rewrite filter_cons_False by (rewrite <-Hseen; tauto).
      rewrite list_filter_filter. apply list_filter_iff.
      intros x. rewrite <-Hseen. naive_solver.
    + rewrite (IH (out ++ [m]) (seen ∪ {[m]})).
      2:{ intros x. rewrite elem_of_union, elem_of_app, Hseen. set_solver. }
      rewrite filter_cons_True by (by rewrite <-Hseen).
      rewrite <-app_assoc. simpl. do 2 f_equal.
      rewrite list_filter_filter. apply list_filter_iff.
      intros x. rewrite elem_of_app, list_elem_of_singleton. naive_solver.
Qed.

Lemma validate_personalize_methods_eq l :
  validate_personalize_methods l = Ok (dedup_first l).
Proof.
  unfold validate_personalize_methods.
  rewrite (personalize_loop_spec l [] ∅) by set_solver. simpl.
  f_equal. apply filter_every, Forall_forall.
  intros x _. apply not_elem_of_nil.
Qed.

(** X3. [validate_personalize_methods] never fails; it keeps the first
    occurrence of every name, in input order, so that the result has no
    duplicate and the same names as the input, and a second pass changes
    nothing. *)
Theorem validate_personalize_methods_dedup v :
  validate_personalize_methods v = Ok (dedup_first v)
  ∧ NoDup (dedup_first v)
  ∧ (∀ x, x ∈ dedup_first v ↔ x ∈ v)
  ∧ dedup_first v `sublist_of` v
  ∧ validate_personalize_methods (dedup_first v) = Ok (dedup_first v).
Proof.
  pose proof validate_personalize_methods_eq as H.
  split_and!.
  - apply H.
  - apply dedup_first_NoDup.
  - apply dedup_first_elem_of.
  - apply dedup_first_sublist.
  - rewrite H. f_equal. apply dedup_first_NoDup_id, dedup_first_NoDup.
Qed.

End normal_form.

(** ** Invariants of a loaded configuration *)

Section loaded.

Lemma size_list_to_set_le (l : list string) :
  (size (list_to_set l : gset string) ≤ length l)%nat.
Proof.
  induction l as [|x l IH]; [by rewrite list_to_set_nil, size_empty|].
  rewrite list_to_set_cons. simpl.
  destruct (decide (x ∈ l)) as [Hx|Hx].
  - assert (({[x]} ∪ list_to_set l : gset string) = list_to_set l) as ->; [|lia].
    apply set_eq. intros y. rewrite elem_of_union, elem_of_list_to_set.
    set_solver.
  - rewrite size_union by set_solver. rewrite size_singleton. lia.
Qed.

Lemma size_list_to_set_NoDup (l : list string) :
  length l = size (list_to_set l : gset string) ↔ NoDup l.
Proof.
  split; [|intros H; by rewrite size_list_to_set].
  induction l as [|x l IH]; [constructor|].
  rewrite list_to_set_cons. simpl.
  pose proof (size_list_to_set_le l) as Hle.
  destruct (decide (x ∈ l)) as [Hx|Hx].
  - assert (({[x]} ∪ list_to_set l : gset string) = list_to_set l) as ->; [|lia].
    apply set_eq. intros y. rewrite elem_of_union, elem_of_list_to_set.
    set_solver.
  - rewrite size_union by set_solver. rewrite size_singleton.
    intros H. constructor; [done|]. apply IH. lia.
Qed.

(** X4. [validate_models] accepts a list exactly when the names of its
    declarations are pairwise distinct, and returns it unchanged; any
    repeated name gives the duplicate-names error. *)
Theorem validate_models_distinct_names v :
  validate_models v
  = if decide (NoDup (name <$> v)) then Ok v
    else Raise (ValueError ERR_DUPLICATE_MODELS).
Proof.
  unfold validate_models.
  case_bool_decide as Hlen; case_decide as Hnd; try done.
  - destruct Hlen. by apply size_list_to_set_NoDup.
  - destruct Hnd. apply size_list_to_set_NoDup. lia.
Qed.

Lemma validate_models_NoDup v ms :
  validate_models v = Ok ms → ms = v ∧ NoDup (name <$> v).
Proof.
  unfold validate_models. case_bool_decide as Hlen; [done|].
  intros ?; simplify_eq. split; [done|].
  apply size_list_to_set_NoDup. lia.
Qed.

Lemma DEFAULT_METHODS_normal : normal_methods DEFAULT_METHODS.
Proof. apply (validate_methods_normal DEFAULT_METHODS). by vm_compute. Qed.

Lemma ModelConfig_methods_normal raw r :
  ModelConfig_methods raw = Ok r → normal_methods r.
Proof.
  unfold ModelConfig_methods. destruct raw as [v|].
  - destruct (check_literals _ _ v) as [v'|]; simpl; [|done].
    intros H. apply in_validator_Ok in H. by apply (validate_methods_normal v').
  - intros ?; simplify_eq. apply DEFAULT_METHODS_normal.
Qed.

Lemma ModelConfig_validate_well_formed raw m :
  ModelConfig_validate raw = Ok m → well_formed m.
Proof.
  unfold ModelConfig_validate. intros H.
  destruct (in_validator (validate_name _)) as [n|] eqn:En; simpl in H; [|done].
  destruct (in_validator (validate_import_path _)) as [ip|] eqn:Ei;
    simpl in H; [|done].
  destruct (ModelConfig_methods _) as [ms|] eqn:Em; simpl in H; [|done].
  apply in_validator_Ok in En, Ei. apply ModelConfig_methods_normal in Em.
  assert (Hpers : ∃ ps, NoDup ps ∧
            m = {| name := n; import_path := ip;
                   id_field := raw_id_field raw; id_type := raw_id_type raw;
                   methods := ms; personalize_methods := ps |}).
  { destruct (raw_personalize_methods raw) as [v|].
    - rewrite validate_personalize_methods_eq in H. simpl in H.
      simplify_eq. eauto using dedup_first_NoDup.
    - simpl in H. simplify_eq. exists []. split; [constructor|done]. }
  destruct Hpers as (ps & Hps & ->). unfold well_formed. simpl.
  split_and!; [| |done..].
  - unfold validate_name in En. destruct (raw_name raw) as [|c rest]; [done|].
    destruct (Str.is_alpha c) eqn:Ec; simplify_eq. eauto.
  - intros mod_ cls_name Hsplit. unfold validate_import_path in Ei.
    destruct (Str.split_once ":" (raw_import_path raw)) as [[a b]|] eqn:Es.
    + destruct (bool_decide (a = "") || bool_decide (b = "")) eqn:Eab;
        simplify_eq.
      apply orb_false_iff in Eab as [Ha Hb].
      apply bool_decide_eq_false in Ha, Hb. done.
    + by simplify_eq.
Qed.

Lemma validate_each_well_formed l ms :
  validate_each l = Ok ms → Forall well_formed ms.
Proof.
  revert ms. induction l as [|raw l IH]; intros ms; simpl.
  - intros ?; simplify_eq. constructor.
  - destruct (ModelConfig_validate raw) as [m|] eqn:Em; simpl; [|done].
    destruct (validate_each l) as [ms'|]; simpl; [|done].
    intros ?; simplify_eq. constructor; [|by apply IH].
    by apply (ModelConfig_validate_well_formed raw).
Qed.

(** What a successful schema validation establishes. *)
Lemma model_validate_invariant data cfg :
  GenrepoConfig_model_validate data = Ok cfg →
  NoDup (name <$> models cfg)
  ∧ Forall well_formed (models cfg)
  ∧ orm cfg ∈ [ORM_SQLMODEL; ORM_SQLALCHEMY]
  ∧ commit_strategy cfg ∈ ["commit"; "flush"; "none"].
Proof.
  unfold GenrepoConfig_model_validate.
  destruct (check_literal "orm" _ _ _) as [o|] eqn:Eo; simpl; [|done].
  destruct (rc_output_dir data); simpl; [|done].
  destruct (rc_models data) as [|sv|l|rv]; simpl; try done.
  destruct (validate_each l) as [ms|] eqn:Eeach; simpl; [|done].
  destruct (in_validator (validate_models ms)) as [ms'|] eqn:Ev;
    simpl; [|done].
  apply in_validator_Ok, validate_models_NoDup in Ev as [-> Hnd].
  destruct (check_literal "commit_strategy" _ _ _) as [c|] eqn:Ec;
    simpl; [|done].
  destruct (Generation_validate _); simpl; [|done].
  intros ?; simplify_eq. simpl. split_and!.
  - done.
  - by apply (validate_each_well_formed l).
  - unfold check_literal in Eo. destruct (rc_orm data).
    + case_bool_decide; by simplify_eq.
    + simplify_eq. compute_done.
  - unfold check_literal in Ec. destruct (rc_commit_strategy data).
    + case_bool_decide; by simplify_eq.
    + simplify_eq. compute_done.
Qed.

Lemma load_config_Ok_inv path doc cfg :
  load_config path doc = Ok cfg →
  ∃ data cfg0,
    GenrepoConfig_model_validate data = Ok cfg0
    ∧ (cfg = cfg0 ∨ cfg = enable_discovery cfg0).
Proof.
  unfold load_config. destruct doc as [data|]; [|done].
  destruct (_ && _); [done|].
  set (data' := if _ && _ then _ else _).
  destruct (rc_models data) as [|s|[|m l]|r]; try done.
  - intros H. apply wrap_validation_Ok in H. eauto.
  - repeat case_bool_decide; try done.
    destruct (wrap_validation _) as [cfg0|] eqn:E; simpl; [|done].
    intros ?; simplify_eq. apply wrap_validation_Ok in E. eauto.
  - intros H. apply wrap_validation_Ok in H. eauto.
  - intros H. apply wrap_validation_Ok in H. eauto.
Qed.

(** X5. A configuration that [load_config] returns for an ASCII document
    has pairwise distinct model names, and each of its declarations has a
    name that starts with a letter, a locator whose two segments are
    non-empty when it has the separator, an operation list in normal form
    and custom method names without duplicate. *)
Theorem load_config_invariant path data cfg :
  ascii_document data →
  load_config path (Some data) = Ok cfg →
  NoDup (name <$> models cfg) ∧ Forall well_formed (models cfg).
Proof.
  intros _ H. apply load_config_Ok_inv in H as (data' & cfg0 & Hv & Hcfg).
  apply model_validate_invariant in Hv as (Hnd & Hwf & _).
  by destruct Hcfg as [->| ->].
Qed.

(** X5 on a document whose declaration repeats entries and omits [get]. *)
Lemma load_config_invariant_witness :
  NoDup (name <$> models Cases.loaded)
  ∧ Forall well_formed (models Cases.loaded).
Proof.
  apply (load_config_invariant "/proj/genrepo.yaml" Cases.user_document).
  - apply (bool_decide_unpack _). vm_compute. exact I.
  - vm_compute. reflexivity.
Defined.

(** X6. A loaded configuration never makes the template selectors fail:
    with the stub-only switch on or off, both selectors return a template,
    so their unsupported-ORM error cannot occur after loading. *)
Theorem load_config_templates path doc cfg :
  load_config path doc = Ok cfg →
  (∃ tpl, standalone_template cfg = Ok tpl)
  ∧ (∃ tpl, base_template cfg = Ok tpl).
Proof.
  intros H. apply load_config_Ok_inv in H as (data & cfg0 & Hv & Hcfg).
  apply model_validate_invariant in Hv as (_ & _ & Horm & _).
  assert (Horm' : orm cfg ∈ [ORM_SQLMODEL; ORM_SQLALCHEMY])
    by (by destruct Hcfg as [->| ->]).
  unfold standalone_template, base_template.
  destruct (stub_only (generation cfg)); [eauto|].
  apply elem_of_cons in Horm' as [->|Horm'].
  { rewrite !bool_decide_true by done. eauto. }
  apply list_elem_of_singleton in Horm' as ->.
  rewrite (bool_decide_false (ORM_SQLALCHEMY = ORM_SQLMODEL)) by done.
  rewrite !bool_decide_true by done. eauto.
Qed.

(** X6 on the same document. *)
Lemma load_config_templates_witness :
  (∃ tpl, standalone_template Cases.loaded = Ok tpl)
  ∧ (∃ tpl, base_template Cases.loaded = Ok tpl).
Proof.
  apply (load_config_templates "/proj/genrepo.yaml"
           (Some Cases.user_document)).
  vm_compute. reflexivity.
Defined.

End loaded.
(** ** Round trip of the name transforms *)

Section names.

Lemma upper_lower_char c :
  Str.is_lower c = false → Str.upper_char (Str.lower_char c) = c.
Proof. destruct c as [[] [] [] [] [] [] [] []]; vm_compute; congruence. Qed.

Lemma lower_char_id c : Str.is_upper c = false → Str.lower_char c = c.
Proof. unfold Str.lower_char. by intros ->. Qed.

Lemma lower_char_not_upper c : Str.is_upper (Str.lower_char c) = false.
Proof. destruct c as [[] [] [] [] [] [] [] []]; vm_compute; congruence. Qed.

Lemma lower_char_separator c (sep : ascii) :
  sep = "_"%char ∨ sep = "-"%char →
  Ascii.eqb sep (Str.lower_char c) = Ascii.eqb sep c.
Proof.
  intros [-> | ->]; destruct c as [[] [] [] [] [] [] [] []];
    vm_compute; congruence.
Qed.

Lemma upper_not_lower c : Str.is_upper c = true → Str.is_lower c = false.
Proof. destruct c as [[] [] [] [] [] [] [] []]; vm_compute; congruence. Qed.

Lemma plain_cons c s :
  plain (String c s) ↔
  Ascii.eqb "_" c = false ∧ Ascii.eqb "-" c = false ∧ plain s.
Proof.
  unfold plain. cbn [Str.has_char].
  destruct (Ascii.eqb "_" c), (Ascii.eqb "-" c); intuition congruence.
Qed.

(** The pieces of a snake-cased plain text: the first piece has no capital,
    and capitalising the others gives the text back. *)
Lemma to_snake_from_pieces s i :
  plain s →
  ∃ p ps,
    Str.split_all "_" (Str.replace_char "-" "_" (to_snake_from (S i) s))
    = p :: ps
    ∧ Str.lower p = p
    ∧ p +:+ Str.concat_all (Str.capitalize <$> filter (λ q, q ≠ "") ps) = s.
Proof.
  revert i. induction s as [|c s IH]; intros i Hs.
  { exists "", []. done. }
  apply plain_cons in Hs as (Hu & Hh & Hs).
  destruct (IH (S i) Hs) as (p & ps & Hsplit & Hlow & Hcat).
  cbn [to_snake_from]. replace (0 <? S i)%nat with true by done.
  rewrite andb_true_r.
  assert (Hbody :
    Str.split_all "_"
      (Str.replace_char "-" "_"
         (String (Str.lower_char c) (to_snake_from (S (S i)) s)))
    = String (Str.lower_char c) p :: ps).
  { cbn [Str.replace_char Str.split_all].
    rewrite (lower_char_separator c "-") by auto. rewrite Hh.
    rewrite (lower_char_separator c "_") by auto. rewrite Hu.
    by rewrite Hsplit. }
  destruct (Str.is_upper c) eqn:Ec.
  - exists "", (String (Str.lower_char c) p :: ps).
    split; [|split; [done|]].
    + rewrite <-Hbody. reflexivity.
    + rewrite filter_cons_True by done. rewrite fmap_cons.
      cbn [Str.concat_all foldr Str.capitalize].
      rewrite upper_lower_char by (by apply upper_not_lower).
      rewrite Hlow, append_nil_l, append_cons. f_equal. exact Hcat.
  - exists (String (Str.lower_char c) p), ps.
    split; [exact Hbody|]. split.
    + cbn [Str.lower]. rewrite Hlow.
      by rewrite (lower_char_id (Str.lower_char c)) by apply lower_char_not_upper.
    + rewrite append_cons, Hcat. by rewrite lower_char_id.
Qed.

Lemma to_pascal_to_snake_plain c rest :
  plain (String c rest) →
  Str.is_lower c = false →
  to_pascal (to_snake (String c rest)) = String c rest.
Proof.
  intros Hs Hc. apply plain_cons in Hs as (Hu & Hh & Hs).
  destruct (to_snake_from_pieces rest 0 Hs) as (p & ps & Hsplit & Hlow & Hcat).
  unfold to_pascal, to_snake. cbn [to_snake_from].
  rewrite andb_false_r.
  cbn [Str.replace_char Str.split_all].
  rewrite (lower_char_separator c "-") by auto. rewrite Hh.
  rewrite (lower_char_separator c "_") by auto. rewrite Hu.
  rewrite Hsplit.
  rewrite filter_cons_True by done. rewrite fmap_cons.
  cbn [Str.concat_all foldr Str.capitalize].
  rewrite upper_lower_char by done.
  rewrite Hlow, append_cons. f_equal. exact Hcat.
Qed.

(** X7. Round trip of the two name transforms: an ASCII name without
    underscore or hyphen whose first character is not a small letter is
    what [to_pascal] gives back from its snake-cased form. *)
Theorem to_pascal_to_snake c rest :
  Str.is_ascii (String c rest) = true →
  plain (String c rest) →
  Str.is_lower c = false →
  to_pascal (to_snake (String c rest)) = String c rest.
Proof. intros _. apply to_pascal_to_snake_plain. Qed.

(** X7 on a name with an acronym. *)
Lemma to_pascal_to_snake_witness :
  to_pascal (to_snake (String "H" "TTPLog2")) = String "H" "TTPLog2".
Proof.
  apply (to_pascal_to_snake "H" "TTPLog2").
  - reflexivity.
  - split; reflexivity.
  - reflexivity.
Defined.

Lemma to_snake_pascal_inj a b :
  pascal_name a → pascal_name b → to_snake a = to_snake b → a = b.
Proof.
  intros (c & r & -> & Hc & Hp) (d & q & -> & Hd & Hq) H.
  rewrite <-(to_pascal_to_snake_plain c r), <-(to_pascal_to_snake_plain d q);
    auto using upper_not_lower.
  by rewrite H.
Qed.

(** A character that is no letter and no digit does not occur in an
    identifier. *)
Lemma alphanumeric_has_char c s :
  alphanumeric s = true →
  Str.is_alpha c || (48 <=? N_of_ascii c)%N && (N_of_ascii c <=? 57)%N = false →
  Str.has_char c s = false.
Proof.
  intros Hs Hc. induction s as [|d s IH]; [done|].
  cbn [alphanumeric] in Hs. apply andb_true_iff in Hs as [Hd Hs].
  cbn [Str.has_char]. destruct (Ascii.eqb_spec c d) as [->|_]; [congruence|].
  auto.
Qed.

Lemma identifier_pascal s : identifier_name s → pascal_name s.
Proof.
  intros [(c & rest & -> & Hc) Ha]. exists c, rest. split_and!; [done..|].
  split; by apply alphanumeric_has_char.
Qed.

Lemma to_snake_from_no_slash i s :
  alphanumeric s = true → Str.has_char "/" (to_snake_from i s) = false.
Proof.
  revert i. induction s as [|c s IH]; intros i Hs; [done|].
  cbn [alphanumeric] in Hs. apply andb_true_iff in Hs as [Hc Hs].
  assert (Hl : Ascii.eqb "/" (Str.lower_char c) = false).
  { clear -Hc. destruct c as [[] [] [] [] [] [] [] []];
      vm_compute in Hc |- *; congruence. }
  cbn [to_snake_from].
  destruct (Str.is_upper c && (0 <? i)%nat); cbn [Str.has_char].
  - change (Ascii.eqb "/" "_") with false. cbv iota. rewrite Hl. auto.
  - rewrite Hl. auto.
Qed.

(** The file name of a model with an identifier for name is one path
    component. *)
Lemma repository_file_clean n :
  alphanumeric n = true → clean_part (to_snake n +:+ "_repository.py").
Proof.
  intros Hn. split_and!.
  - by apply append_nonempty.
  - intros H. apply (f_equal Str.last_char) in H.
    by rewrite last_char_append in H.
  - rewrite has_char_append. unfold to_snake.
    by rewrite to_snake_from_no_slash.
Qed.

Lemma clean_part_relative f : clean_part f → Path.is_absolute f = false.
Proof.
  intros [_ Hs]. unfold Path.is_absolute, Str.startswith.
  destruct f as [|c f]; [done|]. cbn [String.prefix].
  destruct (ascii_dec "/" c) as [<-|]; [|done].
  cbn [Str.has_char] in Hs. by rewrite Ascii.eqb_refl in Hs.
Qed.

Lemma clean_part_parts f : clean_part f → Path.parts f = [f].
Proof.
  intros [Hne Hs]. unfold Path.parts. rewrite split_all_no_sep by done.
  by rewrite filter_cons_True.
Qed.

(** Two names under one directory: the paths differ when the names do. *)
Lemma join_file_inj a f g :
  clean_part f → clean_part g → Path.join a f = Path.join a g → f = g.
Proof.
  intros Hf Hg. unfold Path.join.
  rewrite (clean_part_relative f Hf), (clean_part_relative g Hg),
    (clean_part_parts f Hf), (clean_part_parts g Hg).
  intros H. apply (f_equal Path.parts) in H.
  rewrite !parts_make in H;
    try apply root_cases;
    try (apply Forall_app; split; [apply parts_clean|by constructor]).
  by apply app_inj_tail in H as [_ ?].
Qed.

Lemma model_path_inj cfg project_root m1 m2 :
  identifier_name (name m1) → identifier_name (name m2) →
  model_path_of cfg project_root m1 = model_path_of cfg project_root m2 →
  name m1 = name m2.
Proof.
  intros H1 H2 H. unfold model_path_of in H.
  apply join_file_inj in H;
    [|apply repository_file_clean; by destruct H1
     |apply repository_file_clean; by destruct H2].
  apply append_inj_r in H.
  by apply to_snake_pascal_inj; [apply identifier_pascal..|].
Qed.

(** X8. Declarations with pairwise distinct identifiers for names (an
    ASCII capital first, then ASCII letters and digits) get pairwise
    distinct files. *)
Theorem model_paths_distinct cfg project_root (ms : list ModelConfig) :
  Forall (λ m, identifier_name (name m)) ms →
  NoDup (name <$> ms) →
  NoDup (model_path_of cfg project_root <$> ms).
Proof.
  induction 1 as [|m ms Hm Hms IH]; simpl; [constructor|].
  rewrite !NoDup_cons. intros [Hnew Hnd]. split; [|by apply IH].
  intros Hin. apply Hnew.
  apply list_elem_of_fmap in Hin as (m' & Heq & Hm').
  apply list_elem_of_fmap. exists m'. split; [|done].
  rewrite Forall_forall in Hms.
  apply (model_path_inj cfg project_root); auto.
Qed.

(** X8 on two declarations. *)
Lemma model_paths_distinct_witness :
  NoDup (model_path_of Sample.standalone_config "/proj"
           <$> [Sample.user_model; Sample.discovered "Bar" "app.models.bar:Bar"]).
Proof.
  apply (model_paths_distinct Sample.standalone_config "/proj"
           [Sample.user_model; Sample.discovered "Bar" "app.models.bar:Bar"]).
  - apply (bool_decide_unpack _). vm_compute. exact I.
  - apply (bool_decide_unpack _). vm_compute. exact I.
Defined.

(** X9. The rendered repository does not depend on the order in which the
    operations are listed, nor on repetitions: two operation lists with the
    same elements give the same file. *)
Theorem render_repo_order_independent w m ms tpl cs ia :
  (∀ x, x ∈ ms ↔ x ∈ methods m) →
  _render_repo w (with_methods m ms) tpl cs ia = _render_repo w m tpl cs ia.
Proof.
  intros Hsame. unfold _render_repo, with_methods. simpl.
  destruct (Str.split_once ":" (import_path m)) as [[a b]|]; [|done].
  assert (Hset : (list_to_set ms : gset string) = list_to_set (methods m)).
  { apply set_eq. intros x. by rewrite !elem_of_list_to_set. }
  by rewrite Hset.
Qed.

(** X9 on a reordered list with a repetition. *)
Lemma render_repo_order_independent_witness :
  _render_repo Sample.toy_world
    (with_methods Sample.user_model ["list"; "get"; "list"])
    TPL_STANDALONE_SQLMODEL "none" false
  = _render_repo Sample.toy_world Sample.user_model
      TPL_STANDALONE_SQLMODEL "none" false.
Proof.
  apply (render_repo_order_independent Sample.toy_world Sample.user_model
           ["list"; "get"; "list"]).
  intros x. simpl. rewrite !elem_of_cons, !elem_of_nil. tauto.
Defined.

End names.
(** ** The resolver without discovery *)

Section explicit_models.

Implicit Types fs : filesystem.

Lemma import_check_loop_Ok w ms :
  import_check_loop w ms = Ok () ↔ Forall (importable_model w) ms.
Proof.
  induction ms as [|m ms IH]; simpl; [by split; [constructor|]|].
  rewrite Forall_cons, <-IH. unfold importable_model.
  destruct (Str.split_once ":" (import_path m)) as [[a b]|].
  - destruct (importable w a b) eqn:E.
    + split; [intros ?; split; eauto|tauto].
    + split; [done|]. intros [(a' & b' & ? & ?) _]. simplify_eq. congruence.
  - split; [done|]. by intros [(a' & b' & ? & ?) _].
Qed.

Lemma import_check_loop_first w pre m post :
  Forall (importable_model w) pre → ¬ importable_model w m →
  import_check_loop w (pre ++ m :: post)
  = Raise (ValueError (ERR_MODEL_NOT_IMPORTABLE (import_path m))).
Proof.
  intros Hpre Hm. induction Hpre as [|x pre Hx _ IH]; simpl.
  - destruct (Str.split_once ":" (import_path m)) as [[a b]|] eqn:Es; [|done].
    destruct (importable w a b) eqn:E; [|done].
    destruct Hm. by exists a, b.
  - destruct Hx as (a & b & -> & ->). exact IH.
Qed.

Lemma no_wildcard_filter cfg :
  ¬ discovery_enabled cfg →
  filter (λ m, is_wildcard m = false) (models cfg) = models cfg.
Proof.
  intros Hoff. apply filter_every, Forall_forall. intros m Hm.
  destruct (is_wildcard m) eqn:E; [|done]. destruct Hoff. right. eauto.
Qed.

(** What [resolve] is when discovery is off. *)
Lemma resolve_explicit_eq w fs cfg project_root :
  ¬ discovery_enabled cfg →
  resolve w fs cfg project_root
  = if negb (allow_missing_models cfg)
    then _ ← import_check_loop w (models cfg); Ok (models cfg)
    else Ok (models cfg).
Proof.
  intros Hoff. unfold resolve.
  destruct (separate_loop_spec (models cfg) [] ∅ None) as (wc & Hsep & Hwc);
    [constructor|].
  simpl in Hsep. rewrite Hsep, (no_wildcard_filter cfg Hoff).
  assert (discover_all cfg || bool_decide (is_Some wc) = false) as ->; [|done].
  apply orb_false_iff. split.
  - destruct (discover_all cfg) eqn:E; [|done]. destruct Hoff. by left.
  - apply bool_decide_eq_false. intros Hs. apply Hoff. right.
    apply Hwc in Hs as [Hs|Hs]; [by destruct Hs|done].
Qed.

(** X10. With discovery off, [resolve] succeeds exactly when missing
    models are allowed or every declaration passes the import check, and
    it then returns the configured declarations unchanged and in order. *)
Theorem resolve_explicit w fs cfg project_root ms :
  ¬ discovery_enabled cfg →
  resolve w fs cfg project_root = Ok ms ↔
  ms = models cfg
  ∧ (allow_missing_models cfg = true
     ∨ Forall (importable_model w) (models cfg)).
Proof.
  intros Hoff. rewrite (resolve_explicit_eq _ _ _ _ Hoff).
  destruct (allow_missing_models cfg); simpl.
  - split; [intros ?; simplify_eq; auto|by intros [-> _]].
  - rewrite <-import_check_loop_Ok.
    destruct (import_check_loop w (models cfg)) as [[]|e]; simpl.
    + split; [intros ?; simplify_eq; auto|by intros [-> _]].
    + split; [done|]. by intros [_ [|]].
Qed.

(** X10 on a configuration that allows missing models. *)
Lemma resolve_explicit_witness :
  resolve Sample.toy_world ∅ Sample.standalone_config "/proj"
  = Ok [Sample.user_model] ↔
  [Sample.user_model] = models Sample.standalone_config
  ∧ (allow_missing_models Sample.standalone_config = true
     ∨ Forall (importable_model Sample.toy_world)
         (models Sample.standalone_config)).
Proof.
  apply (resolve_explicit Sample.toy_world ∅ Sample.standalone_config "/proj"
           [Sample.user_model]).
  intros [H|(m & Hm & Hw)].
  - discriminate H.
  - simpl in Hm. apply list_elem_of_singleton in Hm. subst m.
    vm_compute in Hw. discriminate Hw.
Defined.

(** X11. With discovery off and missing models not allowed, [resolve]
    fails at the first declaration that does not pass the import check, a
    locator without separator included, with the error that names that
    declaration's locator. *)
Theorem resolve_first_missing w fs cfg project_root pre m post :
  ¬ discovery_enabled cfg →
  allow_missing_models cfg = false →
  models cfg = pre ++ m :: post →
  Forall (importable_model w) pre →
  ¬ importable_model w m →
  resolve w fs cfg project_root
  = Raise (ValueError (ERR_MODEL_NOT_IMPORTABLE (import_path m))).
Proof.
  intros Hoff Hallow Hms Hpre Hm.
  rewrite (resolve_explicit_eq _ _ _ _ Hoff), Hallow, Hms. simpl.
  by rewrite import_check_loop_first.
Qed.

(** X11 on the loaded sample, where nothing can be imported. *)
Lemma resolve_first_missing_witness :
  resolve Cases.bare_world ∅ Cases.loaded "/proj"
  = Raise (ValueError
             (ERR_MODEL_NOT_IMPORTABLE (import_path Cases.loaded_user))).
Proof.
  apply (resolve_first_missing Cases.bare_world ∅ Cases.loaded "/proj"
           [] Cases.loaded_user []).
  - intros [H|(m & Hm & Hw)].
    + discriminate H.
    + simpl in Hm. apply list_elem_of_singleton in Hm. subst m.
      vm_compute in Hw. discriminate Hw.
  - reflexivity.
  - reflexivity.
  - constructor.
  - intros (mod_name & cls_name & _ & H). discriminate H.
Defined.

End explicit_models.

(** ** Defaults of discovered declarations *)

Section discovered.

Implicit Types fs : filesystem.

Lemma separate_loop_wildcard snapshot models ebn wc :
  (separate_loop snapshot models ebn wc).2
  = match last (filter (λ m, is_wildcard m = true) snapshot) with
    | Some m => Some m
    | None => wc
    end.
Proof.
  revert models ebn wc.
  induction snapshot as [|m rest IH]; intros models ebn wc; simpl; [done|].
  destruct (is_wildcard m) eqn:Ew.
  - rewrite IH, filter_cons_True by done.
    destruct (filter _ rest) as [|x l] eqn:Ef; [done|].
    rewrite last_cons_cons.
    destruct (last (x :: l)) eqn:El; [done|]. by apply last_None in El.
  - by rewrite IH, filter_cons_False by congruence.
Qed.

Lemma check_literals_allowed field allowed v :
  Forall (λ m, m ∈ allowed) v → check_literals field allowed v = Ok v.
Proof.
  induction 1 as [|m v Hm _ IH]; simpl; [done|].
  by rewrite (bool_decide_true _ Hm), IH.
Qed.

Lemma ModelConfig_methods_fixed r :
  normal_methods r → ModelConfig_methods (Some r) = Ok r.
Proof.
  intros Hr. unfold ModelConfig_methods.
  rewrite check_literals_allowed.
  - simpl. by rewrite normal_methods_fixed.
  - destruct Hr as (_ & Hsub & _). apply Forall_forall. intros m Hm.
    apply CrudMethod_known. right. by apply Hsub.
Qed.

Lemma ModelConfig_validate_fields raw m :
  ModelConfig_validate raw = Ok m →
  name m = raw_name raw
  ∧ import_path m = raw_import_path raw
  ∧ id_field m = raw_id_field raw
  ∧ id_type m = raw_id_type raw
  ∧ ModelConfig_methods (raw_methods raw) = Ok (methods m)
  ∧ personalize_methods m
    = from_option dedup_first [] (raw_personalize_methods raw).
Proof.
  intros H. pose proof (ModelConfig_validate_name raw m H) as Hn.
  pose proof (ModelConfig_validate_methods raw m H) as Hm.
  unfold ModelConfig_validate in H.
  destruct (in_validator (validate_name _)) as [n|]; simpl in H; [|done].
  destruct (in_validator (validate_import_path _)) as [ip|] eqn:Ei;
    simpl in H; [|done].
  destruct (ModelConfig_methods _) as [ms|]; simpl in H; [|done].
  apply in_validator_Ok in Ei.
  assert (ip = raw_import_path raw) as ->.
  { unfold validate_import_path in Ei.
    destruct (Str.split_once _ _) as [[a b]|]; [|by simplify_eq].
    destruct (_ || _); by simplify_eq. }
  destruct (raw_personalize_methods raw) as [v|].
  - rewrite validate_personalize_methods_eq in H. simpl in H.
    injection H as <-. simpl in *. split_and!; congruence.
  - simpl in H. injection H as <-. simpl in *. split_and!; congruence.
Qed.

(** The discovery loop, declaration by declaration. *)
Lemma discover_loop_fields pkg idf idt mts pers
    (ebn : gmap string ModelConfig) pys models ms :
  discover_loop pkg idf idt mts pers ebn pys models = Ok ms →
  ∃ discovered,
    ms = models ++ discovered
    ∧ Forall (discovered_from pkg idf idt mts pers pys) discovered.
Proof.
  revert models. induction pys as [|py pys IH]; intros models; simpl.
  - intros ?; simplify_eq. exists []. by rewrite app_nil_r.
  - assert (Hweaken : ∀ ds,
      Forall (discovered_from pkg idf idt mts pers pys) ds →
      Forall (discovered_from pkg idf idt mts pers (py :: pys)) ds).
    { intros ds Hds. eapply Forall_impl; [exact Hds|].
      intros m (? & ? & ? & ? & py' & ? & ?). split_and!; try done.
      exists py'. split; [by right|done]. }
    destruct (Str.startswith "__" py).
    { intros Hl. destruct (IH _ Hl) as (ds & -> & Hds). eauto. }
    case_bool_decide.
    { intros Hl. destruct (IH _ Hl) as (ds & -> & Hds). eauto. }
    destruct (ModelConfig_validate _) as [m|] eqn:Ev; simpl; [|done].
    intros Hl. destruct (IH _ Hl) as (ds & -> & Hds). exists (m :: ds).
    rewrite <-app_assoc. split; [done|]. constructor; [|eauto].
    apply ModelConfig_validate_fields in Ev
      as (Hn & Hi & Hf & Ht & Hm & Hp). simpl in *.
    split_and!; try done. exists py. split; [by left|done].
Qed.

(** X12. With a discovery directory named by a canonical path and ASCII
    names in it, every discovered declaration takes the identifier field
    and type of the last wildcard entry (or [id] and [int] without one),
    has a locator of the form package.module:Class for a listed name, file
    or directory, and takes the wildcard's custom methods; its operations
    are all ten without a wildcard entry, and the wildcard's own when
    these are in normal form. *)
Theorem discovered_defaults w fs cfg project_root ms :
  discovery_enabled cfg →
  Path.canonical (discovery_dir w cfg project_root) →
  Forall (λ n, Str.is_ascii n = true)
    (glob_py fs (discovery_dir w cfg project_root)) →
  resolve w fs cfg project_root = Ok ms →
  ∃ discovered,
    ms = explicit_declarations cfg ++ discovered
    ∧ Forall (λ m,
        id_field m = from_option id_field "id" (wildcard_entry cfg)
        ∧ id_type m = from_option id_type "int" (wildcard_entry cfg)
        ∧ personalize_methods m
          = from_option (λ wc, dedup_first (personalize_methods wc)) []
              (wildcard_entry cfg)
        ∧ match wildcard_entry cfg with
          | None => methods m = CRUD_METHODS
          | Some wc => normal_methods (methods wc) → methods m = methods wc
          end
        ∧ ∃ py, py ∈ glob_py fs (discovery_dir w cfg project_root)
                ∧ name m = class_of py
                ∧ import_path m
                  = discovery_package cfg +:+ "." +:+ Str.stem py
                    +:+ ":" +:+ class_of py)
        discovered.
Proof.
  intros Hdisc _ _ Hres. unfold resolve in Hres.
  pose proof (separate_loop_wildcard (models cfg) (models cfg) ∅ None) as Hwild.
  destruct (separate_loop_spec (models cfg) [] ∅ None) as (wc & Hsep & Hwc);
    [constructor|].
  simpl in Hsep. rewrite Hsep in Hres, Hwild. simpl in Hwild.
  assert (Hwe : wc = wildcard_entry cfg).
  { unfold wildcard_entry. rewrite Hwild. by destruct (last _). }
  assert (Hon : discover_all cfg || bool_decide (is_Some wc) = true).
  { destruct Hdisc as [->|Hw]; [done|].
    rewrite (bool_decide_true (is_Some wc)); [apply orb_true_r|].
    apply Hwc. by right. }
  rewrite Hon in Hres. clear Hwild Hwc Hon Hsep. subst wc.
  apply discover_loop_fields in Hres as (ds & -> & Hds).
  exists ds. split; [done|]. eapply Forall_impl; [exact Hds|].
  intros m (Hf & Ht & Hm & Hp & Hpy). unfold discovery_package, discovery_dir.
  destruct (wildcard_entry cfg) as [wc|]; cbn [from_option] in *.
  - split_and!; try done. intros Hnorm.
    rewrite (ModelConfig_methods_fixed _ Hnorm) in Hm. by simplify_eq.
  - split_and!; try done. vm_compute in Hm. by simplify_eq.
Qed.

(** X12 on the sample models directory. *)
Lemma discovered_defaults_witness :
  ∃ discovered,
    [Sample.user_model;
     Sample.discovered "Bar" "app.models.bar:Bar";
     Sample.discovered "Foo" "app.models.foo:Foo";
     Sample.discovered "Pkg" "app.models.pkg:Pkg"]
    = explicit_declarations Sample.discovery_config ++ discovered
    ∧ Forall (λ m,
        id_field m
        = from_option id_field "id" (wildcard_entry Sample.discovery_config)
        ∧ id_type m
          = from_option id_type "int" (wildcard_entry Sample.discovery_config)
        ∧ personalize_methods m
          = from_option (λ wc, dedup_first (personalize_methods wc)) []
              (wildcard_entry Sample.discovery_config)
        ∧ match wildcard_entry Sample.discovery_config with
          | None => methods m = CRUD_METHODS
          | Some wc => normal_methods (methods wc) → methods m = methods wc
          end
        ∧ ∃ py, py ∈ glob_py Sample.models_tree
                       (discovery_dir Sample.toy_world
                          Sample.discovery_config "/proj")
                ∧ name m = class_of py
                ∧ import_path m
                  = discovery_package Sample.discovery_config +:+ "."
                    +:+ Str.stem py +:+ ":" +:+ class_of py)
        discovered.
Proof.
  apply (discovered_defaults Sample.toy_world Sample.models_tree
           Sample.discovery_config "/proj").
  - left. reflexivity.
  - apply (bool_decide_unpack _). vm_compute. exact I.
  - apply (bool_decide_unpack _). vm_compute. exact I.
  - vm_compute. reflexivity.
Defined.

End discovered.
(** ** Effects of a successful generation *)

Section generation.

Implicit Types fs : filesystem.


(** A list is sorted for a relation that holds towards every element of
    its tail. *)
Lemma sorted_later (R : string → string → Prop) (P : string → Prop) l :
  (∀ a x, P x → R a x) → Forall P (tail l) → StronglySorted R l.
Proof.
  intros HR.
  assert (Hall : ∀ l', Forall P l' → StronglySorted R l').
  { induction 1 as [|x l' _ Hl IH]; constructor; [done|].
    eapply Forall_impl; [exact Hl|]. intros y Hy. by apply HR. }
  destruct l as [|a l]; simpl; intros Hl; constructor; [by apply Hall|].
  eapply Forall_impl; [exact Hl|]. intros y Hy. by apply HR.
Qed.

Lemma model_paths_y cfg project_root models :
  Forall (λ p, Str.last_char p = Some "y"%char)
    (model_path_of cfg project_root <$> models).
Proof.
  rewrite Forall_fmap. apply Forall_forall. intros m _. apply model_path_last.
Qed.

(** All the targets but the first, which can be the base file, are files
    of models. *)
Lemma targets_tail_y cfg project_root models :
  Forall (λ p, Str.last_char p = Some "y"%char)
    (tail (targets_of cfg project_root models)).
Proof.
  pose proof (model_paths_y cfg project_root models) as Hm.
  unfold targets_of. revert Hm.
  generalize (model_path_of cfg project_root <$> models). intros l Hl.
  destruct (bool_decide (mode (generation cfg) ∈ [Base; Combined])),
    (bool_decide (mode (generation cfg) = Base)); simpl; try done.
  by destruct Hl.
Qed.

Lemma job_list_tmp_safe w cfg project_root force models js :
  job_list w cfg project_root force models = Ok js →
  StronglySorted (λ j k, job_path k ≠ job_path j +:+ ".tmp") js.
Proof.
  intros Hjs. apply job_list_paths in Hjs.
  apply (sorted_by_paths (λ a b, b ≠ a +:+ ".tmp")). rewrite Hjs.
  apply (sorted_later _ (λ p, Str.last_char p = Some "y"%char));
    [|apply targets_tail_y].
  intros a x Hx. by apply not_a_tmp.
Qed.



(** X14. A successful generation leaves no temporary file behind: the
    temporary sibling of every returned path is absent afterwards, also
    when a stale one existed before. *)
Theorem generate_no_leftover w fs cfg project_root force fs' written :
  generate_from_config w fs cfg project_root force = (fs', Ok written) →
  ∀ q, q ∈ written → fs' !! (q +:+ ".tmp") = None.
Proof.
  intros H q Hq.
  apply generate_Ok_jobs in H as (fs0 & models & js & _ & _ & _ & Hjs & Hrun).
  apply job_list_tmp_safe in Hjs.
  destruct (run_jobs_no_leftover _ _ _ _ _ q Hrun Hjs Hq) as [Hin|?];
    [by apply not_elem_of_nil in Hin|done].
Qed.

(** X14 on a tree with a stale temporary file. *)
Lemma generate_no_leftover_witness :
  is_Some (Cases.stale_tree !! "/proj/out/user_repository.py.tmp")
  ∧ (generate_from_config Sample.toy_world Cases.stale_tree
       Sample.standalone_config "/proj" false).1
      !! ("/proj/out/user_repository.py" +:+ ".tmp") = None.
Proof.
  split; [vm_compute; eauto|].
  apply (generate_no_leftover Sample.toy_world Cases.stale_tree
           Sample.standalone_config "/proj" false _
           ["/proj/out/user_repository.py"]).
  - vm_compute. reflexivity.
  - apply list_elem_of_singleton. reflexivity.
Defined.

(** X15. The returned paths are target files in the order of the run: the
    base file first, when the mode has one and it was written, then the
    files of the resolved models in their order; base-only mode returns at
    most the base file. *)
Theorem generate_written_order w fs cfg project_root force fs' written :
  generate_from_config w fs cfg project_root force = (fs', Ok written) →
  ∃ models,
    (mode (generation cfg) ≠ Base →
     resolve w (generate_prelude w fs cfg project_root).1 cfg project_root
     = Ok models)
    ∧ written `sublist_of` targets_of cfg project_root models.
Proof.
  intros H.
  apply generate_Ok_jobs in H
    as (fs0 & models & js & _ & Hres & _ & Hjs & Hrun).
  exists models. split; [done|].
  apply run_jobs_sublist in Hrun as (l & -> & Hsub). simpl.
  by rewrite <-(job_list_paths _ _ _ _ _ _ Hjs).
Qed.

(** X15 on the tree with a hand-edited base file and stub. *)
Lemma generate_written_order_witness :
  ∃ models,
    (mode (generation Sample.combined_config) ≠ Base →
     resolve Sample.toy_world
       (generate_prelude Sample.toy_world Sample.edited_tree
          Sample.combined_config "/proj").1 Sample.combined_config "/proj"
     = Ok models)
    ∧ ["/proj/out/base_repository.py"]
      `sublist_of` targets_of Sample.combined_config "/proj" models.
Proof.
  apply (generate_written_order Sample.toy_world Sample.edited_tree
           Sample.combined_config "/proj" true
           (generate_from_config Sample.toy_world Sample.edited_tree
              Sample.combined_config "/proj" true).1).
  vm_compute. reflexivity.
Defined.

(** After a run in which no earlier target is the temporary sibling of a
    later one, every target exists. *)
Lemma run_jobs_targets_exist js fs written fs' wr j :
  run_jobs js fs written = (fs', Ok wr) →
  StronglySorted (λ j k, job_path j ≠ job_path k +:+ ".tmp") js →
  j ∈ js → path_exists fs' (job_path j) = true.
Proof.
  intros H Hjs. revert fs written H.
  induction Hjs as [|k js _ IH Hk]; intros fs written H Hj.
  { by apply not_elem_of_nil in Hj. }
  apply run_jobs_cons_inv in H as (fs1 & b & Hw & Hrun).
  apply elem_of_cons in Hj as [->|Hj]; [|by apply (IH _ _ Hrun)].
  apply (run_jobs_survives _ _ _ _ _ _ Hrun); [done|].
  by apply (write_target_exists _ _ _ _ _ _ Hw).
Qed.

Lemma jobs_end_in_y cfg project_root models js :
  job_path <$> js = model_path_of cfg project_root <$> models →
  Forall (λ j, Str.last_char (job_path j) = Some "y"%char) js.
Proof.
  intros H. pose proof (model_paths_y cfg project_root models) as Hy.
  rewrite <-H, Forall_fmap in Hy. done.
Qed.

(** What the job list of standalone mode is. *)
Lemma job_list_standalone w cfg project_root force models js :
  mode (generation cfg) = Standalone →
  job_list w cfg project_root force models = Ok js →
  ∃ tpl, standalone_template cfg = Ok tpl
         ∧ standalone_job_list w cfg project_root tpl force models = Ok js.
Proof.
  intros Hmode. unfold job_list, base_job_list.
  rewrite mode_in_base_combined, Hmode, !mode_is. cbn.
  destruct (standalone_template cfg) as [tpl|]; [|done]. cbn.
  destruct (standalone_job_list _ _ _ _ _ _) as [mjs|] eqn:Ej; [|done]. cbn.
  intros [= <-]. exists tpl. by rewrite Ej.
Qed.

(** X16. Standalone generation is idempotent without the force flag: once
    a run has succeeded, with or without force, a further run without
    force on the resulting tree writes nothing and leaves the tree as it
    is, provided the resolver returns the same models on it. *)
Theorem standalone_second_run w fs cfg project_root force fs' written :
  mode (generation cfg) = Standalone →
  generate_from_config w fs cfg project_root force = (fs', Ok written) →
  resolve w fs' cfg project_root
  = resolve w (generate_prelude w fs cfg project_root).1 cfg project_root →
  generate_from_config w fs' cfg project_root false = (fs', Ok []).
Proof.
  intros Hmode Hgen Hstable.
  apply generate_Ok_jobs in Hgen
    as (fs0 & models & js & Hens & Hres & _ & Hjs & Hrun).
  rewrite Hres in Hstable by (rewrite Hmode; done).
  destruct (job_list_standalone _ _ _ _ _ _ Hmode Hjs) as (tpl & Et & Ej).
  pose proof (standalone_job_list_keys _ _ _ _ _ _ _ Ej) as Hkeys.
  assert (Hpaths : job_path <$> js
                   = model_path_of cfg project_root <$> models).
  { apply (f_equal (fmap fst)) in Hkeys.
    by rewrite <-!list_fmap_compose in Hkeys. }
  pose proof (jobs_end_in_y _ _ _ _ Hpaths) as Hy.
  apply ensure_package_inv in Hens as (_ & Hd & Hi & _).
  assert (Hinit : ensure_package fs' (out_dir_of cfg project_root) = Ok fs').
  { apply ensure_package_present.
    - apply (is_dir_mono fs0); [|done]. by apply (run_jobs_dirs _ _ _ _ _ Hrun).
    - apply (run_jobs_survives _ _ _ _ _ _ Hrun); [|done].
      apply Forall_forall. intros k _.
      apply not_a_tmp, (init_file_last cfg project_root). }
  unfold generate_from_config, generate_prelude.
  rewrite mode_in_base_combined, Hmode, !mode_is, Hinit, Hstable, Et.
  rewrite (standalone_loop_jobs _ _ _ _ _ _ _
             (standalone_job_list_force _ _ _ _ _ false _ _ Ej)).
  apply run_jobs_all_skipped.
  rewrite Forall_fmap. apply Forall_forall. intros j Hj. split; [|done].
  simpl. apply (run_jobs_targets_exist _ _ _ _ _ _ Hrun); [|done].
  apply (sorted_by_paths (λ a b, a ≠ b +:+ ".tmp")). rewrite Hpaths.
  pose proof (model_paths_y cfg project_root models) as Hm. revert Hm.
  generalize (model_path_of cfg project_root <$> models).
  induction 1 as [|x l Hx _ IH]; constructor; [done|].
  apply Forall_forall. intros y _. by apply not_a_tmp.
Qed.

(** X16 on the standalone sample, first run with the force flag. *)
Lemma standalone_second_run_witness :
  generate_from_config Sample.toy_world
    (generate_from_config Sample.toy_world Sample.up_to_date_tree
       Sample.standalone_config "/proj" true).1
    Sample.standalone_config "/proj" false
  = ((generate_from_config Sample.toy_world Sample.up_to_date_tree
        Sample.standalone_config "/proj" true).1, Ok []).
Proof.
  apply (standalone_second_run Sample.toy_world Sample.up_to_date_tree
           Sample.standalone_config "/proj" true _
           ["/proj/out/user_repository.py"]).
  - reflexivity.
  - vm_compute. reflexivity.
  - vm_compute. reflexivity.
Defined.

End generation.

(** ** Regeneration *)

Section regeneration.

Implicit Types fs : filesystem.

Lemma paths_undisturbed_tail l :
  NoDup l → Forall (λ p, Str.last_char p = Some "y"%char) l →
  StronglySorted (λ a b, a ≠ b ∧ a ≠ b +:+ ".tmp") l.
Proof.
  induction l as [|a l IH]; intros Hnd Hy; [constructor|].
  apply NoDup_cons in Hnd as [Ha Hnd]. apply Forall_cons in Hy as [Hay Hy].
  constructor; [by apply IH|].
  apply Forall_forall. intros b Hb. split; [by intros ->|].
  by apply not_a_tmp.
Qed.



End regeneration.
(** ** The planner after a run, and a run after the planner *)

Section fixed_point.

Implicit Types fs : filesystem.

#[local] Arguments render_base : simpl never.

Lemma render_repo_same w m tpl cs ia g1 g2 :
  same_rendering w →
  _render_repo (plan_world w) m tpl cs ia = Ok g1 →
  _render_repo w m tpl cs ia = Ok g2 →
  g1 = g2.
Proof.
  intros Hsame. unfold _render_repo.
  destruct (Str.split_once _ _) as [[mod_ cls]|]; [|done]. simpl.
  destruct (plan_get_template w tpl); [|done]. cbn.
  destruct (plan_render w tpl _) as [c1|] eqn:E1; [|done]. cbn.
  apply Hsame in E1. intros [= <-].
  destruct (get_template w tpl); [|done]. cbn. rewrite E1. cbn.
  by intros [= <-].
Qed.

Lemma render_user_stub_same w cfg m g1 g2 :
  same_rendering w →
  render_user_stub (plan_world w) cfg m = Ok g1 →
  render_user_stub w cfg m = Ok g2 →
  g1 = g2.
Proof.
  intros Hsame. unfold render_user_stub.
  destruct (Str.split_once _ _) as [[mod_ cls]|]; [|done]. simpl.
  destruct (plan_render w _ _) as [c1|] eqn:E1; [|done]. cbn.
  apply Hsame in E1. intros [= <-]. rewrite E1. cbn. by intros [= <-].
Qed.

Lemma render_base_same w cfg tpl c1 c2 :
  same_rendering w →
  render_base (plan_world w) cfg tpl = Ok c1 →
  render_base w cfg tpl = Ok c2 →
  c1 = c2.
Proof.
  intros Hsame. unfold render_base. simpl.
  destruct (plan_get_template w tpl); [|done]. cbn. intros E1.
  apply Hsame in E1. destruct (get_template w tpl); [|done]. cbn.
  rewrite E1. by intros [= <-].
Qed.

Lemma standalone_job_list_same w cfg project_root tpl force models js1 js2 :
  same_rendering w →
  standalone_job_list (plan_world w) cfg project_root tpl force models
  = Ok js1 →
  standalone_job_list w cfg project_root tpl force models = Ok js2 →
  js1 = js2.
Proof.
  intros Hsame. revert js1 js2.
  induction models as [|m ms IH]; intros js1 js2; simpl.
  - by intros [= <-] [= <-].
  - destruct (_render_repo (plan_world w) _ _ _ _) as [g1|] eqn:E1; [|done].
    cbn.
    destruct (standalone_job_list (plan_world w) _ _ _ _ ms) as [l1|];
      [|done].
    cbn. intros [= <-].
    destruct (_render_repo w _ _ _ _) as [g2|] eqn:E2; [|done]. cbn.
    destruct (standalone_job_list w _ _ _ _ ms) as [l2|]; [|done]. cbn.
    intros [= <-].
    rewrite (render_repo_same _ _ _ _ _ _ _ Hsame E1 E2).
    f_equal. by apply IH.
Qed.

Lemma stub_job_list_same w cfg project_root models js1 js2 :
  same_rendering w →
  stub_job_list (plan_world w) cfg project_root models = Ok js1 →
  stub_job_list w cfg project_root models = Ok js2 →
  js1 = js2.
Proof.
  intros Hsame. revert js1 js2.
  induction models as [|m ms IH]; intros js1 js2; simpl.
  - by intros [= <-] [= <-].
  - destruct (plan_get_template w TPL_USER_STUB); [|done]. cbn.
    destruct (render_user_stub (plan_world w) _ _) as [g1|] eqn:E1; [|done].
    cbn.
    destruct (stub_job_list (plan_world w) _ _ ms) as [l1|]; [|done].
    cbn. intros [= <-].
    destruct (get_template w TPL_USER_STUB); [|done]. cbn.
    destruct (render_user_stub w _ _) as [g2|] eqn:E2; [|done]. cbn.
    destruct (stub_job_list w _ _ ms) as [l2|]; [|done]. cbn.
    intros [= <-].
    rewrite (render_user_stub_same _ _ _ _ _ Hsame E1 E2).
    f_equal. by apply IH.
Qed.

(** Under [same_rendering], planner and executor have the same jobs. *)
Lemma job_list_same w cfg project_root force models js1 js2 :
  same_rendering w →
  job_list (plan_world w) cfg project_root force models = Ok js1 →
  job_list w cfg project_root force models = Ok js2 →
  js1 = js2.
Proof.
  intros Hsame. unfold job_list, base_job_list.
  destruct (bool_decide (mode (generation cfg) ∈ [Base; Combined])).
  - destruct (base_template cfg) as [tpl|]; [|done]. cbn.
    destruct (render_base (plan_world w) cfg tpl) as [c1|] eqn:E1; [|done].
    destruct (render_base w cfg tpl) as [c2|] eqn:E2; [|by destruct (_ : bool)].
    cbn. rewrite (render_base_same _ _ _ _ _ Hsame E1 E2).
    destruct (bool_decide (mode (generation cfg) = Base)).
    { by intros [= <-] [= <-]. }
    destruct (bool_decide (mode (generation cfg) = Standalone)).
    + destruct (standalone_template cfg) as [t|]; [|done]. cbn.
      destruct (standalone_job_list (plan_world w) _ _ _ _ _) as [l1|] eqn:F1;
        [|done].
      destruct (standalone_job_list w _ _ _ _ _) as [l2|] eqn:F2; [|done].
      cbn. intros [= <-] [= <-].
      by rewrite (standalone_job_list_same _ _ _ _ _ _ _ _ Hsame F1 F2).
    + destruct (stub_job_list (plan_world w) _ _ _) as [l1|] eqn:F1; [|done].
      destruct (stub_job_list w _ _ _) as [l2|] eqn:F2; [|done].
      cbn. intros [= <-] [= <-].
      by rewrite (stub_job_list_same _ _ _ _ _ _ Hsame F1 F2).
  - cbn. destruct (bool_decide (mode (generation cfg) = Base)).
    { by intros [= <-] [= <-]. }
    destruct (bool_decide (mode (generation cfg) = Standalone)).
    + destruct (standalone_template cfg) as [t|]; [|done]. cbn.
      destruct (standalone_job_list (plan_world w) _ _ _ _ _) as [l1|] eqn:F1;
        [|done].
      destruct (standalone_job_list w _ _ _ _ _) as [l2|] eqn:F2; [|done].
      cbn. intros [= <-] [= <-].
      by rewrite (standalone_job_list_same _ _ _ _ _ _ _ _ Hsame F1 F2).
    + destruct (stub_job_list (plan_world w) _ _ _) as [l1|] eqn:F1; [|done].
      destruct (stub_job_list w _ _ _) as [l2|] eqn:F2; [|done].
      cbn. intros [= <-] [= <-].
      by rewrite (stub_job_list_same _ _ _ _ _ _ Hsame F1 F2).
Qed.

Lemma job_list_base_only w cfg project_root force models models' :
  mode (generation cfg) = Base →
  job_list w cfg project_root force models
  = job_list w cfg project_root force models'.
Proof.
  intros Hmode. unfold job_list. rewrite Hmode, !mode_is.
  by destruct (base_job_list w cfg project_root).
Qed.

(** An existing target that holds the job's content where the job may
    overwrite, without carriage return, is left alone by the planner. *)
Lemma classify_settled fs path content overwrite :
  path_exists fs path = true →
  (overwrite = true → fs !! path = Some (File content)) →
  reads_as_written fs path = true →
  fp_would_write (_classify_file fs path content overwrite) = false.
Proof.
  intros Hex Hcontent Hcr. unfold _classify_file, read_text. rewrite Hex.
  simpl. destruct overwrite; simpl; [|done].
  unfold reads_as_written in Hcr. rewrite Hcontent in Hcr |- * by done.
  apply negb_true_iff in Hcr.
  by rewrite universal_newlines_id, bool_decide_true.
Qed.

(** The jobs of a run do not disturb each other when the targets are
    pairwise distinct and the base file is no temporary sibling. *)
Lemma job_list_undisturbed w cfg project_root force models js :
  job_list w cfg project_root force models = Ok js →
  NoDup (targets_of cfg project_root models) →
  (∀ q, base_path_of cfg (out_dir_of cfg project_root) ≠ q +:+ ".tmp") →
  StronglySorted undisturbed js.
Proof.
  intros Hjs Hnd Hbase. apply job_list_paths in Hjs.
  apply (sorted_by_paths (λ a b, a ≠ b ∧ a ≠ b +:+ ".tmp")). rewrite Hjs.
  clear Hjs. unfold targets_of in *.
  assert (Hy : Forall (λ p, Str.last_char p = Some "y"%char)
                 (if bool_decide (mode (generation cfg) = Base) then []
                  else model_path_of cfg project_root <$> models)).
  { destruct (bool_decide (mode (generation cfg) = Base)); [constructor|].
    apply model_paths_y. }
  revert Hnd Hy.
  generalize (if bool_decide (mode (generation cfg) = Base) then []
              else model_path_of cfg project_root <$> models).
  intros ml Hnd Hy.
  destruct (bool_decide (_ ∈ _)); simpl in *.
  - apply NoDup_cons in Hnd as [Hb Hnd].
    constructor; [by apply paths_undisturbed_tail|].
    apply Forall_forall. intros b Hin. split; [|apply Hbase].
    intros Heq. apply Hb. by rewrite Heq.
  - by apply paths_undisturbed_tail.
Qed.

(** After a run, the planner that returns on the resulting tree has
    nothing to write. *)
Lemma plan_after_run w fs cfg project_root force fs' written models report :
  generate_from_config w fs cfg project_root force = (fs', Ok written) →
  plan_from_config w fs' cfg project_root force = Ok report →
  same_rendering w →
  (mode (generation cfg) ≠ Base →
   resolve w (generate_prelude w fs cfg project_root).1 cfg project_root
   = Ok models
   ∧ resolve w fs' cfg project_root = Ok models) →
  NoDup (targets_of cfg project_root models) →
  Forall (λ p, reads_as_written fs' p = true)
    (targets_of cfg project_root models) →
  (∀ q, base_path_of cfg (out_dir_of cfg project_root) ≠ q +:+ ".tmp") →
  to_write report = []
  ∧ fp_path <$> files report = targets_of cfg project_root models.
Proof.
  intros Hgen Hplan Hsame Hres Hnd Hcr Hbase.
  apply generate_Ok_jobs in Hgen
    as (fs0 & models0 & jsg & _ & Hres0 & _ & Hjg & Hrun).
  apply plan_Ok_jobs in Hplan as (models1 & jsp & Hres1 & _ & Hjp & Hfiles).
  assert (Hjg' : job_list w cfg project_root force models = Ok jsg).
  { destruct (decide (mode (generation cfg) = Base)) as [Hb|Hb].
    - by rewrite (job_list_base_only _ _ _ _ models models0).
    - destruct (Hres Hb) as [H1 _]. rewrite Hres0 in H1 by done.
      by simplify_eq. }
  assert (Hjp' : job_list (plan_world w) cfg project_root force models
                 = Ok jsp).
  { destruct (decide (mode (generation cfg) = Base)) as [Hb|Hb].
    - by rewrite (job_list_base_only _ _ _ _ models models1).
    - destruct (Hres Hb) as [_ H1]. rewrite Hres1 in H1 by done.
      by simplify_eq. }
  assert (jsp = jsg) as -> by (by apply (job_list_same w cfg project_root
                                           force models)).
  pose proof (job_list_paths _ _ _ _ _ _ Hjg') as Hpaths.
  rewrite Hfiles, plan_jobs_paths. split; [|done].
  unfold to_write. rewrite Hfiles. apply filter_none, Forall_forall.
  intros p Hp. apply list_elem_of_fmap in Hp as (j & -> & Hj).
  pose proof (job_list_undisturbed _ _ _ _ _ _ Hjg' Hnd Hbase) as Hs.
  destruct (run_jobs_settled _ _ _ _ _ j Hrun Hs Hj) as [Hex Hcontent].
  rewrite classify_settled; [done..|].
  rewrite Forall_forall in Hcr. apply Hcr. rewrite <-Hpaths.
  by apply list_elem_of_fmap_2.
Qed.

(** X18. A generation reaches a fixed point of the planner: when, after a
    successful run, the planner returns on the resulting tree with the
    same arguments, its plan has one entry per target and none to write,
    provided the planner's environment renders what the generator's does,
    the targets are pairwise distinct ordinary paths whose files hold no
    carriage return, the base file is not named like a temporary sibling,
    and the resolver returns the same models. *)
Theorem plan_after_generate w fs cfg project_root force fs' written models
    report :
  generate_from_config w fs cfg project_root force = (fs', Ok written) →
  plan_from_config w fs' cfg project_root force = Ok report →
  same_rendering w →
  (mode (generation cfg) ≠ Base →
   resolve w (generate_prelude w fs cfg project_root).1 cfg project_root
   = Ok models
   ∧ resolve w fs' cfg project_root = Ok models) →
  NoDup (targets_of cfg project_root models) →
  Forall ordinary_path (targets_of cfg project_root models) →
  Forall (λ p, reads_as_written fs' p = true)
    (targets_of cfg project_root models) →
  (∀ q, base_path_of cfg (out_dir_of cfg project_root) ≠ q +:+ ".tmp") →
  to_write report = []
  ∧ fp_path <$> files report = targets_of cfg project_root models.
Proof.
  intros Hgen Hplan Hsame Hres Hnd _ Hcr Hbase.
  by apply (plan_after_run w fs cfg project_root force fs' written models).
Qed.

(** X18 on the tree with a hand-edited base file and stub. *)
Lemma plan_after_generate_witness :
  to_write
    {| files :=
         [{| fp_path := "/proj/out/base_repository.py"; fp_exists := true;
             fp_would_write := false; fp_overwrite := true;
             fp_reason := Some "up-to-date" |};
          {| fp_path := "/proj/out/user_repository.py"; fp_exists := true;
             fp_would_write := false; fp_overwrite := false;
             fp_reason := Some "exists-no-overwrite" |}] |} = []
  ∧ fp_path
      <$> files
            {| files :=
                 [{| fp_path := "/proj/out/base_repository.py";
                     fp_exists := true; fp_would_write := false;
                     fp_overwrite := true; fp_reason := Some "up-to-date" |};
                  {| fp_path := "/proj/out/user_repository.py";
                     fp_exists := true; fp_would_write := false;
                     fp_overwrite := false;
                     fp_reason := Some "exists-no-overwrite" |}] |}
    = targets_of Sample.combined_config "/proj" [Sample.user_model].
Proof.
  apply (plan_after_generate Sample.toy_world Sample.edited_tree
           Sample.combined_config "/proj" true
           (generate_from_config Sample.toy_world Sample.edited_tree
              Sample.combined_config "/proj" true).1
           ["/proj/out/base_repository.py"] [Sample.user_model]).
  - vm_compute. reflexivity.
  - vm_compute. reflexivity.
  - intros tpl bindings text H. exact H.
  - intros _. split; vm_compute; reflexivity.
  - apply (bool_decide_unpack _). vm_compute. exact I.
  - apply (bool_decide_unpack _). vm_compute. exact I.
  - apply (bool_decide_unpack _). vm_compute. exact I.
  - intros q. apply not_a_tmp. vm_compute. reflexivity.
Defined.

End fixed_point.
(** ** A run after a clean plan *)

Section clean_plan.

Implicit Types fs : filesystem.

(** What an entry that is not to be written says of its target. *)
Lemma classify_clean fs path content overwrite :
  fp_would_write (_classify_file fs path content overwrite) = false →
  path_exists fs path = true
  ∧ (overwrite = true → read_text fs path = Some content).
Proof.
  unfold _classify_file.
  destruct (path_exists fs path) eqn:Ex; simpl; [|done].
  destruct overwrite; simpl; [|done].
  destruct (read_text fs path) as [current|]; simpl; [|done].
  case_bool_decide; simpl; [|done]. by subst.
Qed.

Lemma filter_nil_Forall {A} (P : A → Prop) `{!∀ x, Decision (P x)}
    (l : list A) :
  filter P l = [] → Forall (λ x, ¬ P x) l.
Proof.
  induction l as [|x l IH]; [constructor|].
  destruct (decide (P x)).
  - by rewrite filter_cons_True.
  - rewrite filter_cons_False by done. auto.
Qed.

(** A run over targets that the planner found in order, seen from a path
    that is no temporary sibling: the path keeps its file, or is a target
    rewritten with the text that the planner read. *)
Lemma run_jobs_clean js fs0 fs written fs' wr p :
  run_jobs js fs written = (fs', Ok wr) →
  Forall (λ k, p ≠ job_path k +:+ ".tmp") js →
  Forall (λ j, job_path j = p → job_overwrite j = true →
               read_text fs0 p = Some (job_content j)) js →
  (p ∈ job_path <$> js → path_exists fs p = true) →
  (fs !! p = fs0 !! p
   ∨ p ∈ job_path <$> js
     ∧ ∃ text, fs !! p = Some (File text) ∧ read_text fs0 p = Some text) →
  fs' !! p = fs0 !! p
  ∨ p ∈ job_path <$> js
    ∧ ∃ text, fs' !! p = Some (File text) ∧ read_text fs0 p = Some text.
Proof.
  intros H Htmp. revert fs written H.
  induction Htmp as [|j js Hj Htmp IH]; intros fs written H Hread Hex Hstate.
  { injection H as <- _. destruct Hstate as [?|[Hin _]]; [by left|].
    by apply not_elem_of_nil in Hin. }
  apply run_jobs_cons_inv in H as (fs1 & b & Hw & Hrun).
  apply Forall_cons in Hread as [Hjr Hread].
  assert (Hlift :
    fs1 !! p = fs0 !! p
    ∨ p ∈ job_path <$> js
      ∧ (∃ text, fs1 !! p = Some (File text) ∧ read_text fs0 p = Some text)
    → fs' !! p = fs0 !! p
      ∨ p ∈ job_path <$> j :: js
        ∧ ∃ text, fs' !! p = Some (File text) ∧ read_text fs0 p = Some text).
  { intros Hs. destruct (IH _ _ Hrun Hread) as [?|[Hin ?]]; [| |by left|].
    - intros Hin. apply (write_exists_survives _ _ _ _ _ _ _ Hw); [done|].
      apply Hex. rewrite fmap_cons. by right.
    - done.
    - right. split; [|done]. rewrite fmap_cons. by right. }
  destruct (decide (job_path j = p)) as [Hp|Hp].
  - pose proof (write_result _ _ _ _ _ _ Hw) as Hb.
    rewrite Hp, Hex in Hb by (rewrite fmap_cons, Hp; by left).
    simpl in Hb. rewrite negb_involutive in Hb. subst b.
    destruct (job_overwrite j) eqn:Ho.
    + (* rewritten with the text that was read *)
      assert (Hnow : fs1 !! p = Some (File (job_content j))).
      { rewrite <-Hp. by apply (write_lookup_target _ _ _ _ _ Hw). }
      destruct (decide (p ∈ job_path <$> js)) as [Hin|Hout].
      * apply Hlift. right. split; [done|]. eauto.
      * right. split; [rewrite fmap_cons, Hp; by left|].
        exists (job_content j). split; [|auto].
        rewrite (run_jobs_lookup_other _ _ _ _ _ _ Hrun); [done|].
        apply Forall_forall. intros k Hk. split.
        -- intros ->. apply Hout. by apply list_elem_of_fmap_2.
        -- rewrite Forall_forall in Htmp. by apply Htmp.
    + rewrite (write_skipped _ _ _ _ _ Hw) in Hrun, Hlift.
      destruct Hstate as [Hs|[Hin Hs]].
      * destruct (IH _ _ Hrun Hread) as [?|[Hin ?]]; [| |by left|].
        -- intros Hin. apply Hex. rewrite fmap_cons. by right.
        -- by left.
        -- right. split; [|done]. rewrite fmap_cons. by right.
      * destruct (decide (p ∈ job_path <$> js)) as [Hin'|Hout].
        -- apply Hlift. right. by split.
        -- right. split; [done|].
           rewrite (run_jobs_lookup_other _ _ _ _ _ _ Hrun); [done|].
           apply Forall_forall. intros k Hk. split.
           ++ intros ->. apply Hout. by apply list_elem_of_fmap_2.
           ++ rewrite Forall_forall in Htmp. by apply Htmp.
  - assert (Hsame : fs1 !! p = fs !! p).
    { by apply (write_lookup_other _ _ _ _ _ _ _ Hw). }
    apply Hlift. rewrite Hsame.
    destruct Hstate as [?|[Hin ?]]; [by left|]. right. split; [|done].
    rewrite fmap_cons in Hin. apply elem_of_cons in Hin as [?|?]; [|done].
    congruence.
Qed.

(** After a plan with nothing to write, a run that returns keeps every
    file up to the translation of line ends. *)
Lemma generate_after_clean w fs cfg project_root force report fs' written :
  plan_from_config w fs cfg project_root force = Ok report →
  to_write report = [] →
  generate_from_config w fs cfg project_root force = (fs', Ok written) →
  same_rendering w →
  (mode (generation cfg) ≠ Base →
   resolve w (generate_prelude w fs cfg project_root).1 cfg project_root
   = resolve w fs cfg project_root) →
  ∀ p, fs' !! p = fs !! p
       ∨ (p ∈ fp_path <$> files report
          ∧ ∃ text, fs' !! p = Some (File text)
                    ∧ read_text fs p = Some text)
       ∨ (p = init_file_of cfg project_root ∧ fs !! p = None)
       ∨ ∃ q, q ∈ fp_path <$> files report ∧ p = q +:+ ".tmp".
Proof.
  intros Hplan Hnone Hgen Hsame Hres p.
  apply plan_Ok_jobs in Hplan as (ms & jsp & Hrp & Hbp & Hjp & Hfiles).
  apply generate_Ok_jobs in Hgen
    as (fs0 & ms' & jsg & Hens & Hrg & Hbg & Hjg & Hrun).
  assert (ms' = ms) as ->.
  { destruct (decide (mode (generation cfg) = Base)) as [Hb|Hb].
    - by rewrite Hbp, Hbg.
    - specialize (Hrp Hb). specialize (Hrg Hb). rewrite Hres in Hrg by done.
      congruence. }
  assert (jsp = jsg) as -> by (by apply (job_list_same w cfg project_root
                                           force ms)).
  unfold to_write in Hnone. apply filter_nil_Forall in Hnone.
  rewrite Hfiles in Hnone |- *. rewrite plan_jobs_paths.
  assert (Hclean : Forall (λ j,
            path_exists fs (job_path j) = true
            ∧ (job_overwrite j = true
               → read_text fs (job_path j) = Some (job_content j))) jsg).
  { apply Forall_forall. intros j Hj. apply classify_clean.
    rewrite Forall_forall in Hnone.
    apply not_true_is_false, Hnone. unfold plan_jobs.
    by apply (list_elem_of_fmap_2
      (λ j, _classify_file fs (job_path j) (job_content j) (job_overwrite j))). }
  destruct (decide (Exists (λ k, p = job_path k +:+ ".tmp") jsg)) as [He|He].
  { do 3 right. apply Exists_exists in He as (k & Hk & ->).
    exists (job_path k). split; [|done]. by apply list_elem_of_fmap_2. }
  apply not_Exists_Forall in He; [|apply _].
  apply ensure_package_inv in Hens as (Hsub & _ & _ & Hlook).
  assert (Htarget : p ∈ job_path <$> jsg → path_exists fs p = true).
  { intros Hin. apply list_elem_of_fmap in Hin as (j & -> & Hj).
    rewrite Forall_forall in Hclean. by apply Hclean. }
  destruct (Hlook p) as [Hp|(Hp & Hno & Hnew)].
  - destruct (run_jobs_clean jsg fs fs0 [] fs' written p Hrun) as [?|[? ?]].
    + eapply Forall_impl; [exact He|]. simpl. auto.
    + eapply Forall_impl; [exact Hclean|]. intros j [_ Hc] <-. done.
    + intros Hin. apply Htarget in Hin. revert Hin.
      apply path_exists_mono; [by rewrite Hp|done].
    + by left.
    + by left.
    + right; left. done.
  - right; right; left. fold (init_file_of cfg project_root) in Hp.
    split; [done|by apply path_exists_false in Hno as [? _]].
Qed.

(** X19. When the plan has nothing to write, a run with the same
    arguments that returns keeps every file up to line ends: afterwards
    each path holds what it held, or is a planned target rewritten with
    the text that the planner read from it, or is the package marker,
    created when it was absent, or the temporary sibling of a planned
    target. The planner's environment is assumed to render what the
    generator's does, the planned targets to be ordinary paths, and the
    resolver to return the same models after the base step. *)
Theorem generate_after_clean_plan w fs cfg project_root force report fs'
    written :
  plan_from_config w fs cfg project_root force = Ok report →
  to_write report = [] →
  generate_from_config w fs cfg project_root force = (fs', Ok written) →
  same_rendering w →
  Forall ordinary_path
    (init_file_of cfg project_root :: (fp_path <$> files report)) →
  (mode (generation cfg) ≠ Base →
   resolve w (generate_prelude w fs cfg project_root).1 cfg project_root
   = resolve w fs cfg project_root) →
  ∀ p, fs' !! p = fs !! p
       ∨ (p ∈ fp_path <$> files report
          ∧ ∃ text, fs' !! p = Some (File text)
                    ∧ read_text fs p = Some text)
       ∨ (p = init_file_of cfg project_root ∧ fs !! p = None)
       ∨ ∃ q, q ∈ fp_path <$> files report ∧ p = q +:+ ".tmp".
Proof.
  intros Hplan Hnone Hgen Hsame _ Hres.
  by apply (generate_after_clean w fs cfg project_root force report fs'
              written).
Qed.

(** X19 on the standalone sample, whose file is up to date. *)
Lemma generate_after_clean_plan_witness :
  (generate_from_config Sample.toy_world Sample.up_to_date_tree
     Sample.standalone_config "/proj" true).2
  = Ok ["/proj/out/user_repository.py"]
  ∧ ∀ p, (generate_from_config Sample.toy_world Sample.up_to_date_tree
            Sample.standalone_config "/proj" true).1 !! p
         = Sample.up_to_date_tree !! p
         ∨ (p ∈ fp_path <$> files {| files := [Sample.up_to_date_entry] |}
            ∧ ∃ text,
                (generate_from_config Sample.toy_world Sample.up_to_date_tree
                   Sample.standalone_config "/proj" true).1 !! p
                = Some (File text)
                ∧ read_text Sample.up_to_date_tree p = Some text)
         ∨ (p = init_file_of Sample.standalone_config "/proj"
            ∧ Sample.up_to_date_tree !! p = None)
         ∨ ∃ q, q ∈ fp_path <$> files {| files := [Sample.up_to_date_entry] |}
                ∧ p = q +:+ ".tmp".
Proof.
  split; [vm_compute; reflexivity|].
  apply (generate_after_clean_plan Sample.toy_world Sample.up_to_date_tree
           Sample.standalone_config "/proj" true
           {| files := [Sample.up_to_date_entry] |} _
           ["/proj/out/user_repository.py"]).
  - vm_compute. reflexivity.
  - vm_compute. reflexivity.
  - vm_compute. reflexivity.
  - intros tpl bindings text H. exact H.
  - apply (bool_decide_unpack _). vm_compute. exact I.
  - intros _. vm_compute. reflexivity.
Defined.

End clean_plan.
(** ** The [generate] command *)

Section command.

Implicit Types fs : filesystem.

Variable safe_load : string → option RawConfig.



(** Exit status 0 of a run that executes means that the generator
    returned. *)
Lemma generate_executed w fs config_path o fs' cfg :
  Cli.dry_run o = false → Cli.check o = false →
  Cli.load safe_load fs config_path (Cli.stub_only o) = Some cfg →
  Cli.generate safe_load w fs config_path o = (fs', 0%nat) →
  ∃ written,
    generate_from_config w fs cfg (Path.parent config_path) (Cli.force o)
    = (fs', Ok written).
Proof.
  intros Hd Hc Hload. unfold Cli.generate. rewrite Hload, Hd, Hc. simpl.
  destruct (generate_from_config _ _ _ _ _) as [fs1 [written|e]];
    intros [= <-]. by exists written.
Qed.


(** X21. A passing check means a quiet run: when the command with
    [--check] exits with status 0 and the same command without [--check]
    and [--dry-run] exits with status 0 too, the run has kept every file
    up to line ends: each path holds what it held, or holds the text that
    the planner read from it, or is the package marker, created when
    absent, or a temporary sibling. The planner's environment is assumed
    to render what the generator's does, the planned targets to be
    ordinary paths, and the resolver to return the same models after the
    base step. *)
Theorem generate_after_check w fs config_path o cfg report fs' :
  Cli.check o = true →
  Cli.load safe_load fs config_path (Cli.stub_only o) = Some cfg →
  Cli.generate safe_load w fs config_path o = (fs, 0%nat) →
  Cli.generate safe_load w fs config_path (Cli.executing o) = (fs', 0%nat) →
  plan_from_config w fs cfg (Path.parent config_path) (Cli.force o)
  = Ok report →
  same_rendering w →
  Forall ordinary_path
    (init_file_of cfg (Path.parent config_path)
     :: (fp_path <$> files report)) →
  (mode (generation cfg) ≠ Base →
   resolve w (generate_prelude w fs cfg (Path.parent config_path)).1 cfg
     (Path.parent config_path)
   = resolve w fs cfg (Path.parent config_path)) →
  ∀ p, fs' !! p = fs !! p
       ∨ (∃ text, fs' !! p = Some (File text) ∧ read_text fs p = Some text)
       ∨ (p = init_file_of cfg (Path.parent config_path) ∧ fs !! p = None)
       ∨ ∃ q, p = q +:+ ".tmp".
Proof.
  intros Hc Hload Hcheck Hrun Hplan Hsame _ Hres p.
  unfold Cli.generate in Hcheck.
  rewrite Hload, Hc, orb_true_r, Hplan in Hcheck.
  destruct (negb _); [done|].
  destruct (to_write report) eqn:Hnone; [|done].
  destruct (generate_executed w fs config_path (Cli.executing o) fs' cfg)
    as [written Hgen]; [done..|].
  destruct (generate_after_clean _ _ _ _ _ _ _ _ Hplan Hnone Hgen Hsame Hres p)
    as [?|[(_ & ?)|[?|(q & _ & ?)]]]; eauto.
Qed.

End command.


(** X21 on the tree that the sample run leaves. *)
Lemma generate_after_check_witness :
  (Cli.generate Cases.toy_load Sample.toy_world
     (Cli.generate Cases.toy_load Sample.toy_world Cases.project_tree
        "/proj/genrepo.yaml" Cases.plain_options).1
     "/proj/genrepo.yaml"
     (Cli.executing (Cli.checking Cases.plain_options))).2 = 0%nat
  ∧ ∀ p, (Cli.generate Cases.toy_load Sample.toy_world
            (Cli.generate Cases.toy_load Sample.toy_world Cases.project_tree
               "/proj/genrepo.yaml" Cases.plain_options).1
            "/proj/genrepo.yaml"
            (Cli.executing (Cli.checking Cases.plain_options))).1 !! p
         = (Cli.generate Cases.toy_load Sample.toy_world Cases.project_tree
              "/proj/genrepo.yaml" Cases.plain_options).1 !! p
         ∨ (∃ text,
              (Cli.generate Cases.toy_load Sample.toy_world
                 (Cli.generate Cases.toy_load Sample.toy_world
                    Cases.project_tree "/proj/genrepo.yaml"
                    Cases.plain_options).1
                 "/proj/genrepo.yaml"
                 (Cli.executing (Cli.checking Cases.plain_options))).1 !! p
              = Some (File text)
              ∧ read_text
                  (Cli.generate Cases.toy_load Sample.toy_world
                     Cases.project_tree "/proj/genrepo.yaml"
                     Cases.plain_options).1 p
                = Some text)
         ∨ (p = init_file_of Cases.loaded (Path.parent "/proj/genrepo.yaml")
            ∧ (Cli.generate Cases.toy_load Sample.toy_world
                 Cases.project_tree "/proj/genrepo.yaml"
                 Cases.plain_options).1 !! p = None)
         ∨ ∃ q, p = q +:+ ".tmp".
Proof.
  split; [vm_compute; reflexivity|].
  apply (generate_after_check Cases.toy_load Sample.toy_world _
           "/proj/genrepo.yaml" (Cli.checking Cases.plain_options)
           Cases.loaded
           {| files :=
                [{| fp_path := "/proj/out/user_repository.py";
                    fp_exists := true; fp_would_write := false;
                    fp_overwrite := true;
                    fp_reason := Some "up-to-date" |}] |}).
  - reflexivity.
  - vm_compute. reflexivity.
  - vm_compute. reflexivity.
  - vm_compute. reflexivity.
  - vm_compute. reflexivity.
  - intros tpl bindings text H. exact H.
  - apply (bool_decide_unpack _). vm_compute. exact I.
  - intros _. vm_compute. reflexivity.
Defined.
